(** * Mask Editor: display transform, mask rasterizer, save-mask and apply-mask

    A shallow embedding of the mask editor's client (the canvas code that
    fits an image into the viewport, rasterizes the painted overlay to a
    native-resolution mask and sends it on confirm) and of the server tools
    [save-mask] and [apply-mask] of [server.ts].

    Conventions.
    - JavaScript numbers are modelled by [jsnum]: the rationals that are
      binary64 values, extended with the two infinities and NaN.  Every
      division, product and sum is rounded as IEEE 754 does it (to the
      nearest value of 53 significant bits, ties to even, with subnormals
      and overflow to an infinity); [Math.round], [Math.min] and the
      comparisons are exact.  The sign of zero is not tracked.  Sizes,
      loop counters and indices are DOM integers below 2^32, which
      binary64 holds exactly; they are modelled by unbounded integers,
      and a result with at most one fractional bit is accordingly kept
      as it is whatever its magnitude.
    - Pixel buffers (Uint8ClampedArray, Buffer) are lists of integers in
      [0,255]; a read out of range is [None] (JavaScript's undefined), a
      write out of range is ignored, as typed arrays do.
    - JavaScript strings are [String.string]: sequences of code units below
      256, which covers the data URLs and file names the tools handle.
    - Libraries outside the repository (node:fs, node:path, Buffer's base64
      codec, sharp, the canvas PNG encoder, the clock) are interfaces: the
      handlers are written against records of operations, and small
      instances of them are used to run the handlers on concrete inputs.
    - The tool handlers are called by the MCP SDK's server, which turns
      what a handler throws into an error result: [Server.callTool]. *)

From stdpp Require Import base list.
From Stdlib Require Import ZArith QArith Qround Qminmax Qpower Lia Lqa String Ascii
  DecimalString.

Local Open Scope Z_scope.

(** [length] is the length of a list throughout; the length of a string is
    written [String.length]. *)
Abbreviation length := List.length (only parsing).

(** ** JavaScript numbers *)

Module JS.

Inductive jsnum : Type :=
  | NaN
  | PosInf
  | NegInf
  | Fin (q : Q).

Definition of_Z (z : Z) : jsnum := Fin (inject_Z z).

(** Sign of a finite rational, as a [comparison] with zero. *)
Definition Qsign (q : Q) : comparison := (q ?= 0)%Q.

(** *** Rounding to binary64 *)

(** [2^k] for any integer [k]. *)
Definition pow2 (k : Z) : Q := (2 ^ k)%Q.

(** The binade of a positive rational: the [e] with [2^e <= q < 2^(e+1)]. *)
Definition ilog2 (q : Q) : Z :=
  let e := Z.log2 (Qnum q) - Z.log2 (Z.pos (Qden q)) in
  if Qle_bool (pow2 e) q then e else e - 1.

(** The nearest integer, ties to the even one. *)
Definition round_half_even (q : Q) : Z :=
  let f := Qfloor q in
  match (q - inject_Z f ?= 1 # 2)%Q with
  | Lt => f
  | Gt => f + 1
  | Eq => if Z.even f then f else f + 1
  end.

(** A positive rational rounded to 53 significant bits; below [2^-1022] the
    spacing stays that of the subnormals, [2^-1074]. *)
Definition round64_pos (q : Q) : Q :=
  let u := pow2 (Z.max (ilog2 q) (-1022) - 52) in
  (inject_Z (round_half_even (q / u)) * u)%Q.

Definition round64 (q : Q) : Q :=
  match Qsign q with
  | Eq => 0%Q
  | Gt => round64_pos q
  | Lt => (- round64_pos (- q))%Q
  end.

(** The relative error of one rounding is at most [2^-53]. *)
Definition eps64 : Q := pow2 (-53).

(** At most one fractional bit: [2 * q] is an integer. *)
Definition exact64 (q : Q) : bool := (2 * Qnum q) mod Z.pos (Qden q) =? 0.

(** The finite result of an operation whose exact result is [q]. *)
Definition rnd (q : Q) : Q := if exact64 q then q else round64 q.

(** The result of an operation whose exact result is [q]: a rounded value
    of magnitude [2^1024] or more is an infinity. *)
Definition fl (q : Q) : jsnum :=
  if exact64 q then Fin q
  else
    let r := round64 q in
    if Qle_bool (pow2 1024) r then PosInf
    else if Qle_bool r (- pow2 1024) then NegInf
    else Fin r.

Definition neg (a : jsnum) : jsnum :=
  match a with
  | NaN => NaN
  | PosInf => NegInf
  | NegInf => PosInf
  | Fin q => Fin (- q)%Q
  end.

(** [a / b], rounded.  A finite non-zero number divided by zero is an
    infinity, and [0 / 0] is NaN: division never faults. *)
Definition div (a b : jsnum) : jsnum :=
  match a, b with
  | NaN, _ | _, NaN => NaN
  | Fin x, Fin y =>
      match Qsign y with
      | Eq => match Qsign x with Eq => NaN | Gt => PosInf | Lt => NegInf end
      | _ => fl (x / y)
      end
  | Fin _, (PosInf | NegInf) => Fin 0%Q
  | (PosInf | NegInf), (PosInf | NegInf) => NaN
  | PosInf, Fin y => match Qsign y with Lt => NegInf | _ => PosInf end
  | NegInf, Fin y => match Qsign y with Lt => PosInf | _ => NegInf end
  end.

(** [a * b], rounded; an infinity times zero is NaN. *)
Definition mul (a b : jsnum) : jsnum :=
  match a, b with
  | NaN, _ | _, NaN => NaN
  | Fin x, Fin y => fl (x * y)
  | PosInf, PosInf | NegInf, NegInf => PosInf
  | PosInf, NegInf | NegInf, PosInf => NegInf
  | PosInf, Fin y | Fin y, PosInf =>
      match Qsign y with Eq => NaN | Gt => PosInf | Lt => NegInf end
  | NegInf, Fin y | Fin y, NegInf =>
      match Qsign y with Eq => NaN | Gt => NegInf | Lt => PosInf end
  end.

(** [a + b], rounded; opposite infinities add up to NaN. *)
Definition add (a b : jsnum) : jsnum :=
  match a, b with
  | NaN, _ | _, NaN => NaN
  | Fin x, Fin y => fl (x + y)
  | PosInf, NegInf | NegInf, PosInf => NaN
  | PosInf, _ | _, PosInf => PosInf
  | NegInf, _ | _, NegInf => NegInf
  end.

Definition sub (a b : jsnum) : jsnum := add a (neg b).

(** [a < b]; every comparison with NaN is false. *)
Definition ltb (a b : jsnum) : bool :=
  match a, b with
  | NaN, _ | _, NaN => false
  | Fin x, Fin y => match (x ?= y)%Q with Lt => true | _ => false end
  | NegInf, (Fin _ | PosInf) => true
  | Fin _, PosInf => true
  | _, _ => false
  end.

(** [a <= b]. *)
Definition leb (a b : jsnum) : bool :=
  match a, b with
  | NaN, _ | _, NaN => false
  | Fin x, Fin y => match (x ?= y)%Q with Gt => false | _ => true end
  | NegInf, _ | _, PosInf => true
  | _, _ => false
  end.

(** [a >= b] and [a > b]. *)
Definition geb (a b : jsnum) : bool := leb b a.
Definition gtb (a b : jsnum) : bool := ltb b a.

(** Half-up rounding of a rational: the integer [floor (q + 1/2)]. *)
Definition Qround_half_up (q : Q) : Z := Qfloor (q + (1 # 2))%Q.

(** [Math.round]: nearest integer, ties towards +infinity; NaN and the
    infinities are returned as they are. *)
Definition round (a : jsnum) : jsnum :=
  match a with
  | Fin q => of_Z (Qround_half_up q)
  | _ => a
  end.

(** [Math.min] of two and of three arguments: NaN if any argument is. *)
Definition min2 (a b : jsnum) : jsnum :=
  match a, b with
  | NaN, _ | _, NaN => NaN
  | _, _ => if leb a b then a else b
  end.

Definition min3 (a b c : jsnum) : jsnum := min2 (min2 a b) c.

(** The value of a number used as an array index: [Some i] when it is a
    non-negative integer, [None] otherwise (the property does not exist). *)
Definition to_index (a : jsnum) : option nat :=
  match a with
  | Fin q =>
      if Qeq_bool q (inject_Z (Qfloor q)) && (0 <=? Qfloor q)
      then Some (Z.to_nat (Qfloor q)) else None
  | _ => None
  end.

End JS.

Import JS.

(** ** The display transform

    [resizeCanvases] (client, "Fit image within wrapper") and
    [generateMaskDataUrl] ("Map mask canvas coordinates back to original
    image coordinates") compute the same five numbers from the wrapper's
    client size and the image's natural size. *)

Record DisplayRect : Type := mkDisplayRect {
  scale : jsnum;
  drawW : jsnum;
  drawH : jsnum;
  offsetX : jsnum;
  offsetY : jsnum
}.

Definition displayTransform (wrapperW wrapperH imgW imgH : Z) : DisplayRect :=
  let scale :=
    min3 (div (of_Z wrapperW) (of_Z imgW)) (div (of_Z wrapperH) (of_Z imgH)) (of_Z 1) in
  let drawW := round (mul (of_Z imgW) scale) in
  let drawH := round (mul (of_Z imgH) scale) in
  let offsetX := round (div (sub (of_Z wrapperW) drawW) (of_Z 2)) in
  let offsetY := round (div (sub (of_Z wrapperH) drawH) (of_Z 2)) in
  mkDisplayRect scale drawW drawH offsetX offsetY.


(** ** Typed arrays and canvases *)

(** The integers [0, 1, ..., n-1] a counting [for] loop runs through. *)
Definition range (n : Z) : list Z := map Z.of_nat (seq 0 (Z.to_nat n)).

(** [for (let i = 0; i < n; i++) s = body(i, s)]. *)
Definition for_range {S : Type} (n : Z) (body : Z -> S -> S) (s0 : S) : S :=
  fold_left (fun s i => body i s) (range n) s0.

(** [buf[a]] on a typed array: [None] is JavaScript's undefined. *)
Definition typed_get (buf : list Z) (a : jsnum) : option Z :=
  match to_index a with
  | Some i => buf !! i
  | None => None
  end.

(** [buf[i] = v] on a typed array, for an integer index: a write outside
    the array is ignored. *)
Definition typed_set (buf : list Z) (i : Z) (v : Z) : list Z :=
  if 0 <=? i then <[Z.to_nat i := v]> buf else buf.

(** [v > 0] for a value read from an array: [undefined > 0] is false. *)
Definition positive_value (v : option Z) : bool :=
  match v with
  | Some n => 0 <? n
  | None => false
  end.

(** A 2D canvas: its size and its RGBA backing store, row by row. *)
Record Canvas : Type := mkCanvas {
  c_width : Z;
  c_height : Z;
  c_data : list Z
}.

(** What [getImageData] returns. *)
Record ImageData : Type := mkImageData {
  id_width : Z;
  id_height : Z;
  id_data : list Z
}.

(** Channel [k] of the canvas pixel at [(x, y)]; transparent black outside
    the canvas. *)
Definition canvas_byte (c : Canvas) (x y k : Z) : Z :=
  if (0 <=? x) && (x <? c_width c) && (0 <=? y) && (y <? c_height c)
  then default 0 (c_data c !! Z.to_nat ((y * c_width c + x) * 4 + k))
  else 0.

(** Byte [i] of the [sw]-wide image data read at the canvas origin. *)
Definition image_data_byte (c : Canvas) (sw : Z) (i : Z) : Z :=
  canvas_byte c ((i / 4) mod sw) ((i / 4) / sw) (i mod 4).

(** [ctx.getImageData(0, 0, sw, sh)]: throws IndexSizeError ([None]) when
    a side is zero. *)
Definition getImageData (c : Canvas) (sw sh : Z) : option ImageData :=
  if (sw =? 0) || (sh =? 0) then None
  else Some (mkImageData sw sh (map (image_data_byte c sw) (range (sw * sh * 4)))).

(** A fresh [w] x [h] canvas after [fillStyle = "#000000"; fillRect(0, 0, w, h)]:
    every pixel is opaque black. *)
Definition blackCanvas (w h : Z) : Canvas :=
  mkCanvas w h (map (fun i => if i mod 4 =? 3 then 255 else 0) (range (w * h * 4))).

(** [ctx.putImageData(d, 0, 0)] on a canvas of the data's size. *)
Definition putImageData (c : Canvas) (d : list Z) : Canvas :=
  mkCanvas (c_width c) (c_height c) d.

(** ** Client state (the module-level variables and the DOM they drive) *)

Record Image : Type := mkImage {
  naturalWidth : Z;
  naturalHeight : Z
}.

Record ImageRect : Type := mkImageRect {
  r_offsetX : jsnum;
  r_offsetY : jsnum;
  r_drawW : jsnum;
  r_drawH : jsnum
}.

(** The variables declared under "State". *)
Record Session : Type := mkSession {
  loadedImage : option Image;
  originalFileName : string;
  isDrawing : bool;
  brushSize : Z;
  hasMaskContent : bool;
  currentImageRect : ImageRect
}.

(** The DOM the handlers read and write: the wrapper's client size, the
    mask canvas, the status bar and the confirm button. *)
Record Dom : Type := mkDom {
  wrapperW : Z;
  wrapperH : Z;
  maskCanvas : Canvas;
  statusText : string;
  statusClass : string;
  confirmDisabled : bool;
  confirmText : string
}.

(** The arguments of [app.callServerTool]: the tool's name and its two
    arguments. *)
Record ServerCall : Type := mkServerCall {
  call_name : string;
  call_maskDataUrl : string;
  call_originalFileName : string
}.

(** What [data.filePath] reads from a structured content: [undefined]
    when the content has no such field, or the field's value (a string by
    the tool's output schema; any other value counts as the string the
    template literal prints for it). *)
Inductive FilePath : Type :=
  | NoFilePath
  | FilePathText (path : string).

(** [`${data.filePath}`]. *)
Definition filePath_text (f : FilePath) : string :=
  match f with
  | NoFilePath => "undefined"
  | FilePathText path => path
  end.

(** The part of the call's result the client looks at: [isError], and the
    [filePath] of [structuredContent] ([None] when the result has no
    structured content to read it from). *)
Record ToolReply : Type := mkToolReply {
  reply_isError : bool;
  reply_structuredContent : option FilePath
}.

(** The page: session variables, DOM, the server calls made so far (oldest
    first) and the console. *)
Record Page : Type := mkPage {
  session : Session;
  dom : Dom;
  serverCalls : list ServerCall;
  console : list string
}.

(** What the page runs on: the canvas PNG encoder behind [toDataURL] and
    the host's answer to a server call ([inl msg]: the call rejects). *)
Record Browser : Type := mkBrowser {
  toDataURL_png : Canvas -> string;
  serverAnswer : ServerCall -> string + ToolReply
}.

(** ** Client handlers, in a state-and-exception monad over the page *)

Module Client.

(** A computation either returns a value or throws an error with a
    message; either way it leaves a page behind. *)
Definition Js (A : Type) : Type := Page -> (string + A) * Page.

Definition ret {A} (a : A) : Js A := fun p => (inr a, p).
Definition throw {A} (msg : string) : Js A := fun p => (inl msg, p).

Definition bind {A B} (m : Js A) (k : A -> Js B) : Js B :=
  fun p =>
    match m p with
    | (inr a, p') => k a p'
    | (inl e, p') => (inl e, p')
    end.

Definition get : Js Page := fun p => (inr p, p).
Definition modify (f : Page -> Page) : Js unit := fun p => (inr tt, f p).

(** [try { body } catch (e) { handler(e) }]. *)
Definition try_catch {A} (body : Js A) (handler : string -> Js A) : Js A :=
  fun p =>
    match body p with
    | (inr a, p') => (inr a, p')
    | (inl e, p') => handler e p'
    end.

(** [try { body } finally { final }]. *)
Definition try_finally {A} (body : Js A) (final : Js unit) : Js A :=
  fun p =>
    match body p with
    | (r, p') =>
        match final p' with
        | (inr _, p'') => (r, p'')
        | (inl e, p'') => (inl e, p'')
        end
    end.

Declare Scope js_scope.
Delimit Scope js_scope with js.
Notation "x <- m ;; k" := (bind m (fun x => k))
  (at level 100, m at next level, right associativity) : js_scope.
Notation "m ;;; k" := (bind m (fun _ => k))
  (at level 100, right associativity) : js_scope.
Local Open Scope js_scope.

Definition set_dom (f : Dom -> Dom) : Js unit :=
  modify (fun p => mkPage (session p) (f (dom p)) (serverCalls p) (console p)).

(** [setStatus(msg, type)]; the type defaults to the empty string. *)
Definition setStatus (msg type : string) : Js unit :=
  set_dom (fun d =>
    mkDom (wrapperW d) (wrapperH d) (maskCanvas d)
          msg
          ("status-bar"
           ++ (if String.eqb type EmptyString then EmptyString else " " ++ type))%string
          (confirmDisabled d) (confirmText d)).

(** [confirmBtn.disabled = b] and [confirmBtn.textContent = t]. *)
Definition setConfirmDisabled (b : bool) : Js unit :=
  set_dom (fun d =>
    mkDom (wrapperW d) (wrapperH d) (maskCanvas d) (statusText d) (statusClass d)
          b (confirmText d)).

Definition setConfirmText (t : string) : Js unit :=
  set_dom (fun d =>
    mkDom (wrapperW d) (wrapperH d) (maskCanvas d) (statusText d) (statusClass d)
          (confirmDisabled d) t).

Definition console_error (msg : string) : Js unit :=
  modify (fun p => mkPage (session p) (dom p) (serverCalls p) (console p ++ [msg])).

(** [ctx.getImageData] inside a handler. *)
Definition getImageDataJs (c : Canvas) (sw sh : Z) : Js ImageData :=
  match getImageData c sw sh with
  | Some d => ret d
  | None => throw "IndexSizeError"
  end.

(** The body of the two nested loops of [generateMaskDataUrl] for the
    native pixel [(x, y)]: it paints the pixel white when its display
    coordinate is inside the wrapper and the mask is painted there.  The
    loop counters and [w] are integers, and so is [idx]; the display
    coordinates go through the scale and stay [jsnum]s. *)
Definition paintPixel (r : DisplayRect) (wrapperW wrapperH w : Z)
    (maskData : list Z) (y x : Z) (data : list Z) : list Z :=
  let displayX := round (add (mul (of_Z x) (scale r)) (offsetX r)) in
  let displayY := round (add (mul (of_Z y) (scale r)) (offsetY r)) in
  if geb displayX (of_Z 0) && ltb displayX (of_Z wrapperW)
     && geb displayY (of_Z 0) && ltb displayY (of_Z wrapperH)
  then
    let maskIdx := mul (add (mul displayY (of_Z wrapperW)) displayX) (of_Z 4) in
    if positive_value (typed_get maskData (add maskIdx (of_Z 3)))
    then
      let idx := (y * w + x) * 4 in
      typed_set (typed_set (typed_set (typed_set data idx 255) (idx + 1) 255)
                           (idx + 2) 255) (idx + 3) 255
    else data
  else data.

(** The mask rasterizer: the scan over all native pixels, rows outside and
    columns inside, starting from the temporary canvas's image data. *)
Definition rasterize (r : DisplayRect) (wrapperW wrapperH w h : Z)
    (maskData tempData : list Z) : list Z :=
  for_range h (fun y data =>
    for_range w (fun x data' =>
      paintPixel r wrapperW wrapperH w maskData y x data') data) tempData.

(** The body of [generateMaskDataUrl()] up to [putImageData]: the temporary
    canvas, local to the call, holding the native-resolution mask. *)
Definition nativeMaskCanvas : Js Canvas :=
  p <- get ;;
  match loadedImage (session p) with
  | None => throw "No image loaded"
  | Some img =>
      let w := naturalWidth img in
      let h := naturalHeight img in
      let tempCanvas := blackCanvas w h in
      let wrapperW := wrapperW (dom p) in
      let wrapperH := wrapperH (dom p) in
      let r := displayTransform wrapperW wrapperH w h in
      maskData <- getImageDataJs (maskCanvas (dom p)) wrapperW wrapperH ;;
      tempImageData <- getImageDataJs tempCanvas w h ;;
      let data := rasterize r wrapperW wrapperH w h
                    (id_data maskData) (id_data tempImageData) in
      ret (putImageData tempCanvas data)
  end.

(** [generateMaskDataUrl()]: the mask canvas as a PNG data URL. *)
Definition generateMaskDataUrl (B : Browser) : Js string :=
  tempCanvas <- nativeMaskCanvas ;;
  ret (toDataURL_png B tempCanvas).

(** [app.callServerTool(call)]: the call is sent, then the host answers. *)
Definition callServerTool (B : Browser) (c : ServerCall) : Js ToolReply :=
  modify (fun p => mkPage (session p) (dom p) (serverCalls p ++ [c]) (console p)) ;;;
  match serverAnswer B c with
  | inr reply => ret reply
  | inl msg => throw msg
  end.

(** The click handler of the confirm button. *)
Definition confirmClick (B : Browser) : Js unit :=
  p <- get ;;
  if negb (bool_decide (is_Some (loadedImage (session p))))
     || negb (hasMaskContent (session p))
  then setStatus "Paint a selection on the image first" "error"
  else
    setConfirmDisabled true ;;;
    setConfirmText "Sending..." ;;;
    setStatus "Generating mask..." EmptyString ;;;
    try_finally
      (try_catch
         (maskDataUrl <- generateMaskDataUrl B ;;
          setStatus "Sending mask to server..." EmptyString ;;;
          result <- callServerTool B
                      (mkServerCall "save-mask" maskDataUrl
                                    (originalFileName (session p))) ;;
          if reply_isError result
          then setStatus "Server error saving mask" "error"
          else
            match reply_structuredContent result with
            | Some filePath =>
                setStatus ("Mask saved: " ++ filePath_text filePath)%string "success"
            | None => throw "Cannot read properties of undefined (reading 'filePath')"
            end)
         (fun e =>
            console_error ("Failed to send mask: " ++ e)%string ;;;
            setStatus ("Error: " ++ e)%string "error"))
      (setConfirmDisabled false ;;;
       setConfirmText "Confirm Mask").

End Client.

(** ** Strings: the two regular expressions of [server.ts] *)

Module Pattern.

Local Open Scope string_scope.

(** [\w]: a letter, a digit or the underscore. *)
Definition is_word_char (c : ascii) : bool :=
  let n := nat_of_ascii c in
  ((48 <=? n) && (n <=? 57) || (65 <=? n) && (n <=? 90)
   || (97 <=? n) && (n <=? 122) || (n =? 95))%nat.

(** The characters [.] does not match: line feed and carriage return (the
    other two line terminators, U+2028 and U+2029, are above 255). *)
Definition is_line_terminator (c : ascii) : bool :=
  let n := nat_of_ascii c in ((n =? 10) || (n =? 13))%nat.

Fixpoint forall_chars (p : ascii -> bool) (s : string) : bool :=
  match s with
  | EmptyString => true
  | String c s' => p c && forall_chars p s'
  end.

(** A literal at the start of the input: the rest of the input after it. *)
Fixpoint strip_literal (lit s : string) : option string :=
  match lit, s with
  | EmptyString, _ => Some s
  | String a lit', String b s' =>
      if Ascii.eqb a b then strip_literal lit' s' else None
  | String _ _, EmptyString => None
  end.

(** The longest run of word characters at the start of the input, and the
    rest.  [\w+] is followed by [;] in both expressions, which is not a
    word character, so the only run that can be followed by a match of the
    rest is the longest one. *)
Fixpoint span_word (s : string) : string * string :=
  match s with
  | EmptyString => (EmptyString, EmptyString)
  | String c s' =>
      if is_word_char c
      then let (run, rest) := span_word s' in (String c run, rest)
      else (EmptyString, s)
  end.

(** [/^data:image\/(\w+);base64,/]: the group and what follows the match. *)
Definition match_prefix (s : string) : option (string * string) :=
  match strip_literal "data:image/" s with
  | None => None
  | Some s1 =>
      let (ext, s2) := span_word s1 in
      if String.eqb ext EmptyString then None
      else match strip_literal ";base64," s2 with
           | None => None
           | Some s3 => Some (ext, s3)
           end
  end.

(** [s.match(/^data:image\/(\w+);base64,(.+)$/)]: the two groups, or [None]
    for null. *)
Definition match_data_url (s : string) : option (string * string) :=
  match match_prefix s with
  | None => None
  | Some (ext, payload) =>
      if negb (String.eqb payload EmptyString)
         && forall_chars (fun c => negb (is_line_terminator c)) payload
      then Some (ext, payload) else None
  end.

(** [b64.replace(/^data:image\/\w+;base64,/, empty)]: the match, if any, is
    removed. *)
Definition stripPrefix (b64 : string) : string :=
  match match_prefix b64 with
  | Some (_, rest) => rest
  | None => b64
  end.

(** The characters of a base64 payload. *)
Definition is_base64_char (c : ascii) : bool :=
  let n := nat_of_ascii c in
  ((48 <=? n) && (n <=? 57) || (65 <=? n) && (n <=? 90)
   || (97 <=? n) && (n <=? 122) || (n =? 43) || (n =? 47) || (n =? 61))%nat.

(** The text of a non-negative integer in a template literal. *)
Definition decimal (n : N) : string := NilZero.string_of_uint (N.to_uint n).

End Pattern.

Import Pattern.

(** ** Server tools *)

Module Server.

Local Open Scope string_scope.

(** What a handler does to the outside world, in order. *)
Inductive Effect : Type :=
  | Mkdir (path : string)
  | WriteFile (path : string) (data : list Z)
  | ConsoleLog (msg : string).

(** A tool result: the text items of [content], the fields of
    [structuredContent], and [isError] (absent counts as [false]). *)
Record CallToolResult : Type := mkCallToolResult {
  content : list string;
  structuredContent : list (string * string);
  isError : bool
}.

(** The Node runtime the handlers call into.  [mkdir_ok] and
    [writeFile_ok] say whether the file system accepts the operation; a
    refused operation rejects, which the handler does not catch. *)
Record Node : Type := mkNode {
  dirname : string;
  path_join : string -> string -> string;
  path_parse_name : string -> string;
  base64_decode : string -> list Z;
  base64_encode : list Z -> string;
  date_now : N;
  mkdir_ok : string -> bool;
  writeFile_ok : string -> list Z -> bool
}.

(** The operations of sharp the apply-mask handler chains; [None] is a
    rejected promise.
    - [metadata buf]: the [width] and [height] of [sharp(buf).metadata()],
      each possibly undefined;
    - [rawRGBA buf]: [sharp(buf).ensureAlpha().raw().toBuffer()];
    - [rawGray buf w h]: [sharp(buf).resize(w, h).grayscale().raw().toBuffer()];
    - [pngFromRaw data w h]: [sharp(data, {raw: {width: w, height: h,
      channels: 4}}).png().toBuffer()]. *)
Record Sharp : Type := mkSharp {
  metadata : list Z -> option (option Z * option Z);
  rawRGBA : list Z -> option (list Z);
  rawGray : list Z -> option Z -> option Z -> option (list Z);
  pngFromRaw : list Z -> option Z -> option Z -> option (list Z)
}.

(** A handler run: the effects performed, then a result or a thrown
    error (named after the call that rejected). *)
Definition IO (A : Type) : Type := list Effect * (string + A).

Definition ret {A} (a : A) : IO A := ([], inr a).
Definition throw {A} (e : string) : IO A := ([], inl e).
Definition perform (e : Effect) : IO unit := ([e], inr tt).

Definition bind {A B} (m : IO A) (k : A -> IO B) : IO B :=
  match m with
  | (t, inr a) => let (t', r) := k a in ((t ++ t')%list, r)
  | (t, inl e) => (t, inl e)
  end.

Declare Scope io_scope.
Delimit Scope io_scope with io.
Notation "x <- m ;; k" := (bind m (fun x => k))
  (at level 100, m at next level, right associativity) : io_scope.
Notation "m ;;; k" := (bind m (fun _ => k))
  (at level 100, right associativity) : io_scope.
Local Open Scope io_scope.

(** [await] of a sharp promise. *)
Definition await {A} (call : string) (r : option A) : IO A :=
  match r with
  | Some a => ret a
  | None => throw call
  end.

(** [await fs.mkdir(dir, { recursive: true })]. *)
Definition mkdir (E : Node) (dir : string) : IO unit :=
  if mkdir_ok E dir then perform (Mkdir dir) else throw "fs.mkdir".

(** [await fs.writeFile(path, data)]. *)
Definition writeFile (E : Node) (path : string) (data : list Z) : IO unit :=
  if writeFile_ok E path data then perform (WriteFile path data)
  else throw "fs.writeFile".

(** [OUTPUT_DIR = path.join(import.meta.dirname, "output")]. *)
Definition OUTPUT_DIR (E : Node) : string := path_join E (dirname E) "output".

(** Truthiness of an optional string: undefined and the empty string are
    falsy. *)
Definition truthy (o : option string) : bool :=
  match o with
  | Some s => negb (String.eqb s EmptyString)
  | None => false
  end.

(** The handler of the [save-mask] tool. *)
Definition saveMask (E : Node) (maskDataUrl : string)
    (originalFileName : option string) : IO CallToolResult :=
  mkdir E (OUTPUT_DIR E) ;;;
  match match_data_url maskDataUrl with
  | None =>
      ret (mkCallToolResult
             ["Invalid mask data URL format"]
             [("status", "error"); ("filePath", EmptyString)]
             true)
  | Some (ext, base64Data) =>
      let buffer := base64_decode E base64Data in
      let baseName :=
        if truthy originalFileName
        then path_parse_name E (default EmptyString originalFileName)
        else "mask" in
      let timestamp := date_now E in
      let fileName := baseName ++ "_mask_" ++ decimal timestamp ++ "." ++ ext in
      let filePath := path_join E (OUTPUT_DIR E) fileName in
      writeFile E filePath buffer ;;;
      perform (ConsoleLog ("Mask saved to: " ++ filePath)) ;;;
      ret (mkCallToolResult
             ["Mask saved to " ++ filePath]
             [("status", "saved"); ("filePath", filePath)]
             false)
  end.

(** [width ?? 0]. *)
Definition or_zero (o : option Z) : Z :=
  match o with
  | Some z => z
  | None => 0%Z
  end.

(** "Set each pixel's alpha to the corresponding mask grayscale value":
    [for (i = 0; i < n; i++) imageData[i * 4 + 3] = maskData[i]].  Storing
    undefined (a read past the end of [maskData]) stores 0. *)
Definition setAlpha (n : Z) (maskData imageData : list Z) : list Z :=
  for_range n (fun i data =>
    typed_set data (i * 4 + 3)%Z (default 0%Z (maskData !! Z.to_nat i))) imageData.

(** The buffer the handler hands to the PNG encoder, from the decoded
    image, the decoded mask and the image's metadata. *)
Definition composite (width height : option Z) (imageData maskData : list Z) : list Z :=
  setAlpha (or_zero width * or_zero height)%Z maskData imageData.

(** The handler of the [apply-mask] tool. *)
Definition applyMask (E : Node) (S : Sharp) (image mask : string) : IO CallToolResult :=
  let imageBuffer := base64_decode E (stripPrefix image) in
  let maskBuffer := base64_decode E (stripPrefix mask) in
  imageMeta <- await "sharp.metadata" (metadata S imageBuffer) ;;
  let (width, height) := (imageMeta : option Z * option Z) in
  imageData <- await "sharp.toBuffer(image)" (rawRGBA S imageBuffer) ;;
  maskData <- await "sharp.toBuffer(mask)" (rawGray S maskBuffer width height) ;;
  let imageData' := composite width height imageData maskData in
  resultBuffer <- await "sharp.toBuffer(png)" (pngFromRaw S imageData' width height) ;;
  let resultBase64 := "data:image/png;base64," ++ base64_encode E resultBuffer in
  ret (mkCallToolResult [resultBase64] [("result", resultBase64)] false).

(** What the caller of a tool gets.  The handlers are registered with the
    [McpServer] of the MCP SDK ([server.registerTool], [registerAppTool]),
    which awaits a handler inside try/catch: what the handler returns is
    the tool's result, and what it throws is answered with a result made
    of the error, its message as the only text item, no
    [structuredContent], and [isError] set. *)
Definition toolError (message : string) : CallToolResult :=
  mkCallToolResult [message] [] true.

Definition callTool (run : IO CallToolResult) : list Effect * CallToolResult :=
  match run with
  | (effects, inr result) => (effects, result)
  | (effects, inl error) => (effects, toolError error)
  end.

End Server.

(** ** Instances of the interfaces, to run the handlers

    A POSIX file-name parser and joiner, the standard base64 alphabet, a
    file system that accepts every operation (or none), and an
    uncompressed stand-in for the image codec: an encoded image is the
    byte list [w; h; channels; pixels ...]. *)

Module Demo.

Import Server.
Local Open Scope string_scope.
Local Open Scope Z_scope.

Definition slash : ascii := "/"%char.
Definition dot : ascii := "."%char.

Fixpoint drop_while (p : ascii -> bool) (l : list ascii) : list ascii :=
  match l with
  | c :: l' => if p c then drop_while p l' else l
  | [] => []
  end.

Fixpoint take_until (p : ascii -> bool) (l : list ascii) : list ascii :=
  match l with
  | c :: l' => if p c then [] else c :: take_until p l'
  | [] => []
  end.

(** The last path segment, trailing slashes ignored. *)
Definition posix_base (s : string) : list ascii :=
  rev (take_until (Ascii.eqb slash)
         (drop_while (Ascii.eqb slash) (rev (list_ascii_of_string s)))).

(** [path.parse(s).name] on POSIX: the last segment up to its last dot,
    unless that dot starts the segment or the segment is [".."]. *)
Definition posix_name (s : string) : string :=
  let base := posix_base s in
  let after_dot := take_until (Ascii.eqb dot) (rev base) in
  let k := (length base - length after_dot - 1)%nat in
  if (length after_dot =? length base)%nat then string_of_list_ascii base
  else if (k =? 0)%nat then string_of_list_ascii base
  else if String.eqb (string_of_list_ascii base) ".." then ".."
  else string_of_list_ascii (take k base).

(** [path.join(dir, name)] for a normalised [dir] and a single segment. *)
Definition posix_join (dir name : string) : string := dir ++ "/" ++ name.

Definition b64_value (c : ascii) : option Z :=
  let n := Z.of_nat (nat_of_ascii c) in
  if (65 <=? n) && (n <=? 90) then Some (n - 65)
  else if (97 <=? n) && (n <=? 122) then Some (n - 71)
  else if (48 <=? n) && (n <=? 57) then Some (n + 4)
  else if (n =? 43) || (n =? 45) then Some 62
  else if (n =? 47) || (n =? 95) then Some 63
  else None.

Fixpoint b64_bytes (vs : list Z) : list Z :=
  match vs with
  | a :: b :: c :: d :: rest =>
      (a * 4 + b / 16) :: ((b mod 16) * 16 + c / 4) :: ((c mod 4) * 64 + d)
      :: b64_bytes rest
  | [a; b; c] => [a * 4 + b / 16; (b mod 16) * 16 + c / 4]
  | [a; b] => [a * 4 + b / 16]
  | _ => []
  end.

(** [Buffer.from(s, "base64")]: the URL-safe [-] and [_] count as [+]
    and [/], decoding stops at the first [=], and the other characters
    outside the alphabet are skipped. *)
Definition b64_decode (s : string) : list Z :=
  b64_bytes (omap b64_value
               (take_until (Ascii.eqb "="%char) (list_ascii_of_string s))).

Definition b64_char (v : Z) : ascii :=
  ascii_of_nat (Z.to_nat
    (if v <? 26 then v + 65
     else if v <? 52 then v + 71
     else if v <? 62 then v - 4
     else if v =? 62 then 43 else 47)).

Fixpoint b64_chars (bs : list Z) : list ascii :=
  match bs with
  | a :: b :: c :: rest =>
      b64_char (a / 4) :: b64_char ((a mod 4) * 16 + b / 16)
      :: b64_char ((b mod 16) * 4 + c / 64) :: b64_char (c mod 64)
      :: b64_chars rest
  | [a; b] =>
      [b64_char (a / 4); b64_char ((a mod 4) * 16 + b / 16);
       b64_char ((b mod 16) * 4); "="%char]
  | [a] => [b64_char (a / 4); b64_char ((a mod 4) * 16); "="%char; "="%char]
  | [] => []
  end.

(** [buf.toString("base64")]. *)
Definition b64_encode (bs : list Z) : string := string_of_list_ascii (b64_chars bs).

(** A Node runtime whose file system accepts ([fs_ok = true]) or refuses
    every operation, at a fixed clock reading. *)
Definition node (fs_ok : bool) (clock : N) : Node :=
  mkNode "/srv/mask-editor" posix_join posix_name b64_decode b64_encode clock
         (fun _ => fs_ok) (fun _ _ => fs_ok).

(** A Node runtime whose output directory exists and whose files cannot
    be written. *)
Definition read_only_node (clock : N) : Node :=
  mkNode "/srv/mask-editor" posix_join posix_name b64_decode b64_encode clock
         (fun _ => true) (fun _ _ => false).

(** The stand-in codec. *)
Definition container_ok (w h c : Z) (px : list Z) : bool :=
  (0 <? w) && (0 <? h) && ((c =? 3) || (c =? 4))
  && (Z.of_nat (length px) =? w * h * c).

(** Channel [k] of pixel [(x, y)] of a [c]-channel image; a missing alpha
    channel reads as opaque. *)
Definition channel (w c : Z) (px : list Z) (x y k : Z) : Z :=
  if c <=? k then 255 else default 0 (px !! Z.to_nat ((y * w + x) * c + k)).

Definition demo_metadata (buf : list Z) : option (option Z * option Z) :=
  match buf with
  | w :: h :: c :: px =>
      if container_ok w h c px then Some (Some w, Some h) else None
  | _ => None
  end.

Definition demo_rawRGBA (buf : list Z) : option (list Z) :=
  match buf with
  | w :: h :: c :: px =>
      if container_ok w h c px
      then Some (map (fun i => channel w c px ((i / 4) mod w) ((i / 4) / w) (i mod 4))
                     (range (w * h * 4)))
      else None
  | _ => None
  end.

(** Nearest-neighbour resize to [tw] x [th] (the source size where a
    target side is undefined), then the mean of the colour channels. *)
Definition demo_rawGray (buf : list Z) (tw th : option Z) : option (list Z) :=
  match buf with
  | w :: h :: c :: px =>
      if container_ok w h c px
      then
        let tw := default w tw in
        let th := default h th in
        if (0 <? tw) && (0 <? th)
        then Some (map (fun i =>
                     let x := (i mod tw) * w / tw in
                     let y := (i / tw) * h / th in
                     (channel w c px x y 0 + channel w c px x y 1
                      + channel w c px x y 2) / 3)
                   (range (tw * th)))
        else None
      else None
  | _ => None
  end.

(** The encoder refuses a raw buffer whose size is not
    [width * height * 4], and undefined dimensions. *)
Definition demo_pngFromRaw (data : list Z) (w h : option Z) : option (list Z) :=
  match w, h with
  | Some w, Some h =>
      if container_ok w h 4 data then Some (w :: h :: 4 :: data) else None
  | _, _ => None
  end.

Definition sharp : Sharp :=
  mkSharp demo_metadata demo_rawRGBA demo_rawGray demo_pngFromRaw.




(** [o[key]] on an object with string fields. *)
Fixpoint field (key : string) (o : list (string * string)) : option string :=
  match o with
  | (k, v) :: o' => if String.eqb k key then Some v else field key o'
  | [] => None
  end.

(** A browser whose PNG encoder writes the stand-in container and whose
    host calls the save-mask tool on [node true clock] and hands its
    result on. *)
Definition browser (clock : N) : Browser :=
  mkBrowser
    (fun c => "data:image/png;base64,"
              ++ b64_encode (c_width c :: c_height c :: 4 :: c_data c))
    (fun c =>
       let r := snd (callTool (saveMask (node true clock) (call_maskDataUrl c)
                                 (Some (call_originalFileName c)))) in
       inr (mkToolReply (isError r)
              (match structuredContent r with
               | [] => None
               | fields =>
                   Some (match field "filePath" fields with
                         | Some path => FilePathText path
                         | None => NoFilePath
                         end)
               end))).

(** A page with an image of 4 x 2 loaded in a wrapper of 2 x 2, whose mask
    canvas is painted (alpha 102) at the display pixel (0, 1) only. *)
Definition mask_canvas : Canvas :=
  mkCanvas 2 2 [0; 0; 0; 0;  0; 0; 0; 0;  255; 0; 0; 102;  0; 0; 0; 0].

Definition page (painted : bool) : Page :=
  mkPage
    (mkSession (Some (mkImage 4 2)) "photo.png" false 30 painted
               (mkImageRect (of_Z 0) (of_Z 1) (of_Z 2) (of_Z 1)))
    (mkDom 2 2 mask_canvas "Image loaded: 4x2" "status-bar" false "Confirm Mask")
    [] [].

End Demo.

(** ** Vocabulary of the statements *)

(** The pixel of an RGBA buffer of row length [w] at [(x, y)]. *)
Definition pixel_at (data : list Z) (w x y : Z) : option (Z * Z * Z * Z) :=
  let i := Z.to_nat ((y * w + x) * 4) in
  match data !! i, data !! (i + 1)%nat, data !! (i + 2)%nat, data !! (i + 3)%nat with
  | Some r, Some g, Some b, Some a => Some (r, g, b, a)
  | _, _, _, _ => None
  end.

Definition opaque_white : Z * Z * Z * Z := (255, 255, 255, 255).
Definition opaque_black : Z * Z * Z * Z := (0, 0, 0, 255).

(** The test of the rasterizer's loop body for the native pixel [(x, y)]:
    the two conditions of [paintPixel], conjoined. *)
Definition covered (r : DisplayRect) (wrapperW wrapperH : Z)
    (maskData : list Z) (y x : Z) : bool :=
  let displayX := round (add (mul (of_Z x) (scale r)) (offsetX r)) in
  let displayY := round (add (mul (of_Z y) (scale r)) (offsetY r)) in
  geb displayX (of_Z 0) && ltb displayX (of_Z wrapperW)
  && geb displayY (of_Z 0) && ltb displayY (of_Z wrapperH)
  && positive_value
       (typed_get maskData
          (add (mul (add (mul displayY (of_Z wrapperW)) displayX) (of_Z 4)) (of_Z 3))).

(** A number that is an integer, as that integer. *)
Definition as_Z (a : jsnum) : option Z :=
  match a with
  | Fin q => if Qeq_bool q (inject_Z (Qfloor q)) then Some (Qfloor q) else None
  | _ => None
  end.

(** The display coordinate of the native coordinate [x]:
    [Math.round(x * scale + offset)], as the loop computes it. *)
Definition displayCoord (scale offset : jsnum) (x : Z) : jsnum :=
  round (add (mul (of_Z x) scale) offset).

(** The specification's reading of the same test: the display coordinate
    of [(x, y)] under the rectangle [r] is a pixel of the viewport and the
    mask canvas has non-zero alpha there. *)
Definition selected (mask : Canvas) (Wv Hv : Z) (r : DisplayRect) (x y : Z) : bool :=
  match as_Z (displayCoord (scale r) (offsetX r) x),
        as_Z (displayCoord (scale r) (offsetY r) y) with
  | Some dx, Some dy =>
      (0 <=? dx) && (dx <? Wv) && (0 <=? dy) && (dy <? Hv)
      && (0 <? canvas_byte mask dx dy 3)
  | _, _ => false
  end.

(** A non-empty string of word characters: what [(\w+)] captures. *)
Definition word_string (s : string) : Prop :=
  s <> EmptyString /\ forall_chars is_word_char s = true.

(** A non-empty string without line terminators: what [(.+)] captures. *)
Definition payload_string (s : string) : Prop :=
  s <> EmptyString
  /\ forall_chars (fun c => negb (is_line_terminator c)) s = true.

(** [s] has the form [data:image/<ext>;base64,<payload>]. *)
Definition is_data_url (s ext payload : string) : Prop :=
  s = ("data:image/" ++ ext ++ ";base64," ++ payload)%string
  /\ word_string ext /\ payload_string payload.

(** A string over the base64 alphabet. *)
Definition base64_string (s : string) : Prop :=
  forall_chars is_base64_char s = true.

(** The data URL prefix for an image type. *)
Definition data_url_prefix (ext : string) : string :=
  ("data:image/" ++ ext ++ ";base64,")%string.

(** The name the save-mask tool gives the file: the base name, the text
    [_mask_], the timestamp in decimal, a dot, the extension. *)
Definition mask_file_name (baseName : string) (timestamp : N) (ext : string) : string :=
  (baseName ++ "_mask_" ++ decimal timestamp ++ "." ++ ext)%string.

(** The structured error the save-mask tool answers a malformed data URL
    with. *)
Definition invalid_format_result : Server.CallToolResult :=
  Server.mkCallToolResult
    ["Invalid mask data URL format"%string]
    [("status", "error"); ("filePath", EmptyString)]%string true.

(** The base name of the saved file: the fallback for an absent or empty
    [originalFileName], the parsed name otherwise. *)
Definition base_name (E : Server.Node) (originalFileName : option string) : string :=
  match originalFileName with
  | None => "mask"%string
  | Some EmptyString => "mask"%string
  | Some name => Server.path_parse_name E name
  end.

(** The path of the saved file. *)
Definition mask_file_path (E : Server.Node) (originalFileName : option string)
    (ext : string) : string :=
  Server.path_join E (Server.OUTPUT_DIR E)
    (mask_file_name (base_name E originalFileName) (Server.date_now E) ext).

(** What a run of the save-mask tool that saves a mask does and returns. *)
Definition saved_run (E : Server.Node) (filePath : string) (bytes : list Z)
  : Server.IO Server.CallToolResult :=
  ([Server.Mkdir (Server.OUTPUT_DIR E); Server.WriteFile filePath bytes;
    Server.ConsoleLog ("Mask saved to: " ++ filePath)%string],
   inr (Server.mkCallToolResult
          ["Mask saved to " ++ filePath]%string
          [("status", "saved"); ("filePath", filePath)]%string false)).

(** What the apply-mask handler makes of the encoder's answer: the PNG as
    a data URL in a success result, or a thrown rejection. *)
Definition encode_result (E : Server.Node) (png : option (list Z))
  : Server.IO Server.CallToolResult :=
  match png with
  | Some png =>
      let resultBase64 :=
        ("data:image/png;base64," ++ Server.base64_encode E png)%string in
      ([], inr (Server.mkCallToolResult [resultBase64]
                  [("result"%string, resultBase64)] false))
  | None => ([], inl "sharp.toBuffer(png)"%string)
  end.

(** ** The handler of the [open-mask-editor] tool

    It does no I/O: the result only depends on whether an image came with
    the call. *)
Definition openMaskEditor (image : option string) : Server.CallToolResult :=
  let message :=
    if Server.truthy image
    then "Mask editor opened with image. Paint a selection and click Confirm."%string
    else "Mask editor opened. Drop an image onto the canvas to begin."%string in
  Server.mkCallToolResult [message] [("status", "ready"); ("message", message)]%string false.

(** ** The rest of the client: painting, clearing, loading and resizing

    The handlers of [mcp-app.ts] that change the mask canvas and the session
    variables.  What the 2D context rasterizes (filling and stroking a
    path, scaling a decoded snapshot) and whether [localStorage] accepts a
    write are operations of the interface [Painter]; everything the
    handlers decide themselves is modelled as written.

    Asynchronous steps are events of their own: a started image load or
    snapshot decode is recorded as in flight and its [onload] runs when the
    event of its completion is handled.  The brush slider delivers integer
    values ([parseInt] of a range input); reading a dropped or chosen file
    into a data URL (the FileReader in front of [loadImageFromSrc]) and the
    host's styling are left out. *)

Module Editor.

(** A point of the mask canvas. *)
Definition Point : Type := (jsnum * jsnum)%type.

(** The commands the handlers add to the context's current path. *)
Inductive PathItem : Type :=
  | MoveTo (p : Point)
  | LineTo (p : Point)
  | Arc (center : Point) (radius : jsnum).

(** The pointer position of a mouse event or of a touch, and the origin of
    [maskCanvas.getBoundingClientRect()] when the event is handled. *)
Record Pointer : Type := mkPointer {
  clientX : jsnum;
  clientY : jsnum;
  rectLeft : jsnum;
  rectTop : jsnum
}.

(** [getCanvasPos(e)]. *)
Definition getCanvasPos (e : Pointer) : Point :=
  (sub (clientX e) (rectLeft e), sub (clientY e) (rectTop e)).

(** The remap a resize leaves to the snapshot's [onload]: the snapshot's
    data URL, the old image rectangle and the new one. *)
Record Remap : Type := mkRemap {
  remap_snapshot : string;
  remap_old : ImageRect;
  remap_new : ImageRect
}.

(** A load started by [loadImageFromSrc(src, fileName, persist)]. *)
Record LoadRequest : Type := mkLoadRequest {
  load_src : string;
  load_fileName : option string;
  load_persist : bool
}.

(** What the handlers leave to the browser:
    - [fillPath c path]: [ctx.fill()] of the current path with the brush's
      colour;
    - [strokePath c path width]: [ctx.stroke()] with round caps and joins;
    - [drawSnapshot url old new c]: [ctx.drawImage(img, old..., new...)]
      for the image decoded from [url];
    - [storage_accepts key value]: whether [localStorage.setItem] takes the
      write (it throws when the quota is exceeded). *)
Record Painter : Type := mkPainter {
  fillPath : Canvas -> list PathItem -> Canvas;
  strokePath : Canvas -> list PathItem -> Z -> Canvas;
  drawSnapshot : string -> ImageRect -> ImageRect -> Canvas -> Canvas;
  storage_accepts : string -> string -> bool
}.

(** The editor: the page, the mask context's current path and line width,
    the clear button and the drop zone, [localStorage] (latest write first),
    the image loads and the snapshot remaps still in flight (oldest
    first). *)
Record State : Type := mkState {
  page : Page;
  ctxPath : list PathItem;
  ctxLineWidth : Z;
  clearDisabled : bool;
  dropZoneHidden : bool;
  storage : list (string * string);
  pendingLoads : list LoadRequest;
  pendingRemaps : list Remap
}.

(** A canvas of [w] x [h] transparent black pixels. *)
Definition transparent (w h : Z) : Canvas :=
  mkCanvas w h (map (fun _ => 0) (range (w * h * 4))).

(** The editor when the script has run, on the DOM [d] of the page and
    the stored items of earlier sessions: no image, the file name
    ["image"], brush size 30, no paint, no image rectangle; the mask
    context has an empty path and the default line width 1. *)
Definition initial (d : Dom) (stored : list (string * string)) : State :=
  mkState
    (mkPage
       (mkSession None "image" false 30 false
                  (mkImageRect (of_Z 0) (of_Z 0) (of_Z 0) (of_Z 0)))
       d [] [])
    [] 1 true false stored [] [].

(** *** Updates of the parts of the state *)

Definition with_page (f : Page -> Page) (s : State) : State :=
  mkState (f (page s)) (ctxPath s) (ctxLineWidth s) (clearDisabled s)
          (dropZoneHidden s) (storage s) (pendingLoads s) (pendingRemaps s).

Definition with_session (f : Session -> Session) : State -> State :=
  with_page (fun p => mkPage (f (session p)) (dom p) (serverCalls p) (console p)).

Definition with_dom (f : Dom -> Dom) : State -> State :=
  with_page (fun p => mkPage (session p) (f (dom p)) (serverCalls p) (console p)).

Definition with_maskCanvas (f : Canvas -> Canvas) : State -> State :=
  with_dom (fun d =>
    mkDom (wrapperW d) (wrapperH d) (f (maskCanvas d)) (statusText d)
          (statusClass d) (confirmDisabled d) (confirmText d)).

Definition with_path (f : list PathItem -> list PathItem) (s : State) : State :=
  mkState (page s) (f (ctxPath s)) (ctxLineWidth s) (clearDisabled s)
          (dropZoneHidden s) (storage s) (pendingLoads s) (pendingRemaps s).

(** [maskCtx.lineWidth = v]: zero and negative widths are ignored. *)
Definition setLineWidth (v : Z) (s : State) : State :=
  mkState (page s) (ctxPath s) (if 0 <? v then v else ctxLineWidth s)
          (clearDisabled s) (dropZoneHidden s) (storage s)
          (pendingLoads s) (pendingRemaps s).

Definition set_loadedImage (img : Image) : State -> State :=
  with_session (fun x =>
    mkSession (Some img) (originalFileName x) (isDrawing x) (brushSize x)
              (hasMaskContent x) (currentImageRect x)).

Definition set_originalFileName (name : string) : State -> State :=
  with_session (fun x =>
    mkSession (loadedImage x) name (isDrawing x) (brushSize x)
              (hasMaskContent x) (currentImageRect x)).

Definition set_isDrawing (b : bool) : State -> State :=
  with_session (fun x =>
    mkSession (loadedImage x) (originalFileName x) b (brushSize x)
              (hasMaskContent x) (currentImageRect x)).

Definition set_brushSize (v : Z) : State -> State :=
  with_session (fun x =>
    mkSession (loadedImage x) (originalFileName x) (isDrawing x) v
              (hasMaskContent x) (currentImageRect x)).

Definition set_hasMaskContent (b : bool) : State -> State :=
  with_session (fun x =>
    mkSession (loadedImage x) (originalFileName x) (isDrawing x) (brushSize x)
              b (currentImageRect x)).

Definition set_currentImageRect (r : ImageRect) : State -> State :=
  with_session (fun x =>
    mkSession (loadedImage x) (originalFileName x) (isDrawing x) (brushSize x)
              (hasMaskContent x) r).

(** A page-level handler that cannot throw, run on the editor. *)
Definition on_page (m : Client.Js unit) : State -> State :=
  with_page (fun p => snd (m p)).

Definition setStatus (msg type : string) : State -> State :=
  on_page (Client.setStatus msg type).

(** *** The mask context *)

Definition beginPath : State -> State := with_path (fun _ => []).
Definition moveTo (p : Point) : State -> State := with_path (fun path => path ++ [MoveTo p]).
Definition lineTo (p : Point) : State -> State := with_path (fun path => path ++ [LineTo p]).
Definition arc (c : Point) (radius : jsnum) : State -> State :=
  with_path (fun path => path ++ [Arc c radius]).

Definition fill (P : Painter) (s : State) : State :=
  with_maskCanvas (fun c => fillPath P c (ctxPath s)) s.

Definition stroke (P : Painter) (s : State) : State :=
  with_maskCanvas (fun c => strokePath P c (ctxPath s) (ctxLineWidth s)) s.

(** Assigning [canvas.width] and [canvas.height]: the canvas is cleared to
    transparent black and its context is reset (empty path, line width 1). *)
Definition resizeMaskCanvas (w h : Z) (s : State) : State :=
  let s1 := with_maskCanvas (fun _ => transparent w h) s in
  mkState (page s1) [] 1 (clearDisabled s1) (dropZoneHidden s1) (storage s1)
          (pendingLoads s1) (pendingRemaps s1).

(** *** Brush tool *)

(** [drawDot(x, y)].  [ctx.arc] throws IndexSizeError for a negative
    radius, before anything is filled or [hasMaskContent] is set; the two
    listeners that call [drawDot] do so last, so the throw just ends
    them. *)
Definition drawDot (P : Painter) (p : Point) (s : State) : State :=
  let s1 := beginPath s in
  let radius := div (of_Z (brushSize (session (page s)))) (of_Z 2) in
  if ltb radius (of_Z 0) then s1
  else
    let s2 := arc p radius s1 in
    let s3 := fill P s2 in
    set_hasMaskContent true s3.

(** The [mousedown] and [touchstart] listeners. *)
Definition pointerDown (P : Painter) (e : Pointer) (s : State) : State :=
  match loadedImage (session (page s)) with
  | None => s
  | Some _ =>
      let s1 := set_isDrawing true s in
      let pos := getCanvasPos e in
      let s2 := beginPath s1 in
      let s3 := moveTo pos s2 in
      drawDot P pos s3
  end.

(** The [mousemove] and [touchmove] listeners. *)
Definition pointerMove (P : Painter) (e : Pointer) (s : State) : State :=
  if negb (isDrawing (session (page s))) then s
  else
    let pos := getCanvasPos e in
    let s1 := lineTo pos s in
    let s2 := stroke P s1 in
    let s3 := beginPath s2 in
    let s4 := moveTo pos s3 in
    set_hasMaskContent true s4.

(** The [mouseup] and [touchend] listeners of the window. *)
Definition pointerUp (s : State) : State :=
  if isDrawing (session (page s))
  then beginPath (set_isDrawing false s)
  else s.

(** The [input] listener of the brush slider, for the parsed value (the
    label's text is not part of the state). *)
Definition brushInput (value : Z) (s : State) : State :=
  setLineWidth value (set_brushSize value s).

(** *** Clearing *)

(** [clearMask()]. *)
Definition clearMask (s : State) : State :=
  let s1 := with_maskCanvas (fun c =>
              mkCanvas (c_width c) (c_height c) (map (fun _ => 0) (c_data c))) s in
  let s2 := setLineWidth (brushSize (session (page s1))) s1 in
  set_hasMaskContent false s2.

(** The [click] listener of the clear button. *)
Definition clearClick (s : State) : State :=
  setStatus "Mask cleared" EmptyString (clearMask s).

(** *** Canvas sizing *)

Definition rect_of (r : DisplayRect) : ImageRect :=
  mkImageRect (offsetX r) (offsetY r) (drawW r) (drawH r).

(** [resizeCanvases()]. *)
Definition resizeCanvases (B : Browser) (s : State) : State :=
  match loadedImage (session (page s)) with
  | None => s
  | Some img =>
      let wrapperW := wrapperW (dom (page s)) in
      let wrapperH := wrapperH (dom (page s)) in
      let r := displayTransform wrapperW wrapperH
                 (naturalWidth img) (naturalHeight img) in
      let oldRect := currentImageRect (session (page s)) in
      let maskSnapshot :=
        if hasMaskContent (session (page s)) && gtb (r_drawW oldRect) (of_Z 0)
        then Some (toDataURL_png B (maskCanvas (dom (page s))))
        else None in
      let s1 := resizeMaskCanvas wrapperW wrapperH s in
      let s2 := setLineWidth (brushSize (session (page s1))) s1 in
      let s3 := set_currentImageRect (rect_of r) s2 in
      if Server.truthy maskSnapshot
      then mkState (page s3) (ctxPath s3) (ctxLineWidth s3) (clearDisabled s3)
                   (dropZoneHidden s3) (storage s3) (pendingLoads s3)
                   (pendingRemaps s3
                    ++ [mkRemap (default EmptyString maskSnapshot) oldRect (rect_of r)])
      else s3
  end.

(** The snapshot's [onload]: the oldest remap in flight is drawn. *)
Definition snapshotLoaded (P : Painter) (s : State) : State :=
  match pendingRemaps s with
  | [] => s
  | m :: rest =>
      let s1 := with_maskCanvas
                  (drawSnapshot P (remap_snapshot m) (remap_old m) (remap_new m)) s in
      mkState (page s1) (ctxPath s1) (ctxLineWidth s1) (clearDisabled s1)
              (dropZoneHidden s1) (storage s1) (pendingLoads s1) rest
  end.

(** The [ResizeObserver] callback, once the wrapper has its new client
    size. *)
Definition wrapperResized (B : Browser) (w h : Z) (s : State) : State :=
  let s1 := with_dom (fun d =>
              mkDom w h (maskCanvas d) (statusText d) (statusClass d)
                    (confirmDisabled d) (confirmText d)) s in
  match loadedImage (session (page s1)) with
  | Some _ => resizeCanvases B s1
  | None => s1
  end.

(** *** Loading an image *)

(** [localStorage.getItem(key)] and [localStorage.setItem(key, value)];
    [None] from [setItem] is the quota error. *)
Fixpoint getItem (key : string) (items : list (string * string)) : option string :=
  match items with
  | (k, v) :: rest => if String.eqb k key then Some v else getItem key rest
  | [] => None
  end.

Definition setItem (P : Painter) (key value : string) (items : list (string * string))
  : option (list (string * string)) :=
  if storage_accepts P key value then Some ((key, value) :: items) else None.

(** The [try] block that persists the last image; the [catch] ignores the
    error, keeping what was written before it. *)
Definition persistImage (P : Painter) (src : string) (fileName : option string)
    (items : list (string * string)) : list (string * string) :=
  match setItem P "maskEditor_imageSrc" src items with
  | None => items
  | Some items1 =>
      match setItem P "maskEditor_fileName" (default "image"%string fileName) items1 with
      | None => items1
      | Some items2 => items2
      end
  end.

(** [loadImageFromSrc(src, fileName, persist)]: the load is started. *)
Definition loadImageFromSrc (src : string) (fileName : option string) (persist : bool)
    (s : State) : State :=
  mkState (page s) (ctxPath s) (ctxLineWidth s) (clearDisabled s) (dropZoneHidden s)
          (storage s) (pendingLoads s ++ [mkLoadRequest src fileName persist])
          (pendingRemaps s).

(** The [onload] of a started load, for the decoded image. *)
Definition imageLoaded (B : Browser) (P : Painter) (req : LoadRequest) (img : Image)
    (s : State) : State :=
  let s1 := set_loadedImage img s in
  let s2 := if Server.truthy (load_fileName req)
            then set_originalFileName (default EmptyString (load_fileName req)) s1
            else s1 in
  let s3 := set_currentImageRect (mkImageRect (of_Z 0) (of_Z 0) (of_Z 0) (of_Z 0)) s2 in
  let s4 := mkState (page s3) (ctxPath s3) (ctxLineWidth s3) (clearDisabled s3) true
                    (storage s3) (pendingLoads s3) (pendingRemaps s3) in
  let s5 := clearMask s4 in
  let s6 := resizeCanvases B s5 in
  let s7 := mkState (page s6) (ctxPath s6) (ctxLineWidth s6) false (dropZoneHidden s6)
                    (storage s6) (pendingLoads s6) (pendingRemaps s6) in
  let s8 := on_page (Client.setConfirmDisabled false) s7 in
  let s9 := setStatus ("Image loaded: " ++ decimal (Z.to_N (naturalWidth img)) ++ "x"
                       ++ decimal (Z.to_N (naturalHeight img)))%string EmptyString s8 in
  if load_persist req
  then mkState (page s9) (ctxPath s9) (ctxLineWidth s9) (clearDisabled s9)
               (dropZoneHidden s9)
               (persistImage P (load_src req) (load_fileName req) (storage s9))
               (pendingLoads s9) (pendingRemaps s9)
  else s9.

(** The [onerror] of a started load. *)
Definition imageFailed (s : State) : State :=
  setStatus "Failed to load image" "error" s.

(** The [k]-th load in flight completes: its request leaves the list and
    its [onload] (with the decoded image) or [onerror] runs. *)
Definition completeLoad (B : Browser) (P : Painter) (k : nat) (decoded : option Image)
    (s : State) : State :=
  match pendingLoads s !! k with
  | None => s
  | Some req =>
      let s1 := mkState (page s) (ctxPath s) (ctxLineWidth s) (clearDisabled s)
                        (dropZoneHidden s) (storage s) (delete k (pendingLoads s))
                        (pendingRemaps s) in
      match decoded with
      | Some img => imageLoaded B P req img s1
      | None => imageFailed s1
      end
  end.

(** *** App lifecycle *)

(** [app.ontoolinput], for the [image] argument. *)
Definition toolInput (image : option string) (s : State) : State :=
  if Server.truthy image
  then setStatus "Image received from host" EmptyString
         (loadImageFromSrc (default EmptyString image) (Some "provided-image"%string) true s)
  else s.

(** [app.ontoolresult], for the [message] of the structured content. *)
Definition toolResult (message : option string) (s : State) : State :=
  if Server.truthy message
  then setStatus (default EmptyString message) EmptyString s
  else s.

(** [app.onerror]. *)
Definition appError (s : State) : State :=
  setStatus "App error occurred" "error" s.

(** The continuation of [app.connect()]: the last image is restored from
    [localStorage] when no image is loaded. *)
Definition connected (s : State) : State :=
  let savedSrc := getItem "maskEditor_imageSrc" (storage s) in
  let savedName := default "image"%string (getItem "maskEditor_fileName" (storage s)) in
  if Server.truthy savedSrc
     && negb (bool_decide (is_Some (loadedImage (session (page s)))))
  then loadImageFromSrc (default EmptyString savedSrc) (Some savedName) false s
  else s.

(** The click on the confirm button, on the editor. *)
Definition confirmClick (B : Browser) : State -> State :=
  on_page (Client.confirmClick B).

(** *** Events *)

Inductive Event : Type :=
  | MouseDown (e : Pointer)
  | MouseMove (e : Pointer)
  | MouseUp
  | TouchStart (e : Pointer)
  | TouchMove (e : Pointer)
  | TouchEnd
  | BrushInput (value : Z)
  | ClearClick
  | ConfirmClick
  | WrapperResized (w h : Z)
  | SnapshotLoaded
  | LoadCompleted (k : nat) (decoded : option Image)
  | ToolInput (image : option string)
  | ToolResult (message : option string)
  | AppError
  | Connected.

(** The listener an event runs. *)
Definition handle (B : Browser) (P : Painter) (ev : Event) (s : State) : State :=
  match ev with
  | MouseDown e | TouchStart e => pointerDown P e s
  | MouseMove e | TouchMove e => pointerMove P e s
  | MouseUp | TouchEnd => pointerUp s
  | BrushInput v => brushInput v s
  | ClearClick => clearClick s
  | ConfirmClick => confirmClick B s
  | WrapperResized w h => wrapperResized B w h s
  | SnapshotLoaded => snapshotLoaded P s
  | LoadCompleted k decoded => completeLoad B P k decoded s
  | ToolInput image => toolInput image s
  | ToolResult message => toolResult message s
  | AppError => appError s
  | Connected => connected s
  end.

(** The editor after a sequence of events. *)
Definition run (B : Browser) (P : Painter) (events : list Event) (s : State) : State :=
  fold_left (fun s ev => handle B P ev s) events s.

End Editor.

(** ** More pages and instances to run the handlers on *)

Module Demo2.

(** A page with an image of 1 x 1 in the wrapper of 2 x 2 of [Demo.page]. *)
Definition small_page (painted : bool) : Page :=
  mkPage
    (mkSession (Some (mkImage 1 1)) "dot.png" false 30 painted
               (mkImageRect (of_Z 1) (of_Z 1) (of_Z 1) (of_Z 1)))
    (mkDom 2 2 Demo.mask_canvas "Image loaded: 1x1" "status-bar" false "Confirm Mask")
    [] [].

(** The page of [Demo.page] with paint, in a wrapper collapsed to width 0. *)
Definition flat_page : Page :=
  mkPage (session (Demo.page true))
         (mkDom 0 2 Demo.mask_canvas EmptyString "status-bar" false "Confirm Mask")
         [] [].

(** A rasterizer that floods the canvas with the brush's colour on every
    fill and stroke and ignores snapshots, and a storage that takes every
    write. *)
Definition flood (c : Canvas) : Canvas :=
  mkCanvas (c_width c) (c_height c) (map (fun i => if i mod 4 =? 0 then 255 else if i mod 4 =? 3 then 102 else 0) (range (Z.of_nat (length (c_data c))))).

Definition painter : Editor.Painter :=
  Editor.mkPainter (fun c _ => flood c) (fun c _ _ => flood c) (fun _ _ _ c => c)
                   (fun _ _ => true).

(** The editor on [Demo.page], after the load of its image. *)
Definition editor (painted : bool) : Editor.State :=
  Editor.mkState (Demo.page painted) [] 30 false true [] [] [].

(** The editor before any image is loaded, on the DOM of [Demo.page]. *)
Definition fresh : Editor.State := Editor.initial (dom (Demo.page false)) [].

(** A pointer at the client position [(x, y)] over a canvas at the origin. *)
Definition pointer (x y : Z) : Editor.Pointer :=
  Editor.mkPointer (of_Z x) (of_Z y) (of_Z 0) (of_Z 0).

(** A request to load the data URL of a photo dropped as a file. *)
Definition request : Editor.LoadRequest :=
  Editor.mkLoadRequest "data:image/png;base64,AAEC" (Some "photo.png"%string) true.

End Demo2.

(** ** Vocabulary of the further statements *)

(** The offsets and the drawn size of a rectangle whose numbers are all
    integers. *)
Definition rect_of_transform (r : DisplayRect) : option (Z * Z * Z * Z) :=
  match as_Z (offsetX r), as_Z (offsetY r), as_Z (drawW r), as_Z (drawH r) with
  | Some ox, Some oy, Some dw, Some dh => Some (ox, oy, dw, dh)
  | _, _, _, _ => None
  end.

(** [Math.round(x * scale + offset)] when nothing overflows: the product
    and the sum, each rounded to binary64, then rounded half up. *)
Definition displayCoordZ (s : Q) (o x : Z) : Z :=
  Qround_half_up (rnd (rnd (inject_Z x * s) + inject_Z o)).

(** What every reachable editor state satisfies: paint and an ongoing
    stroke presuppose a loaded image, and with an image loaded the mask
    context strokes with the brush's size (when that is a valid width). *)
Definition editor_invariant (s : Editor.State) : Prop :=
  let x := session (Editor.page s) in
  (hasMaskContent x = true -> is_Some (loadedImage x))
  /\ (isDrawing x = true -> is_Some (loadedImage x))
  /\ (is_Some (loadedImage x) -> 0 < brushSize x ->
      Editor.ctxLineWidth s = brushSize x).


(** A canvas without any content: every byte of its store is 0. *)
Definition blank (c : Canvas) : Prop :=
  forall (i : nat) (v : Z), c_data c !! i = Some v -> v = 0.

(** The paths stroked by successive pointer moves to the points [ps], when
    the first move finds the path [start] on the context: every move adds
    its line to the path it finds, strokes it, and leaves a path that
    starts at its own point. *)
Fixpoint segments (start : list Editor.PathItem) (ps : list Editor.Point)
  : list (list Editor.PathItem) :=
  match ps with
  | [] => []
  | p :: rest => (start ++ [Editor.LineTo p]) :: segments [Editor.MoveTo p] rest
  end.

(** The events of the pointer: presses, moves and releases of mouse and
    touch. *)
Definition is_pointer_event (ev : Editor.Event) : bool :=
  match ev with
  | Editor.MouseDown _ | Editor.MouseMove _ | Editor.MouseUp
  | Editor.TouchStart _ | Editor.TouchMove _ | Editor.TouchEnd => true
  | _ => false
  end.

Definition is_connected (ev : Editor.Event) : bool :=
  match ev with
  | Editor.Connected => true
  | _ => false
  end.

(** The editor's state without the contents of [localStorage]. *)
Definition forget_storage (s : Editor.State) : Editor.State :=
  Editor.mkState (Editor.page s) (Editor.ctxPath s) (Editor.ctxLineWidth s)
                 (Editor.clearDisabled s) (Editor.dropZoneHidden s) []
                 (Editor.pendingLoads s) (Editor.pendingRemaps s).

(** Two browsers' canvases rasterize alike (their storages may differ). *)
Definition same_rasterizer (P P' : Editor.Painter) : Prop :=
  (forall c path, Editor.fillPath P c path = Editor.fillPath P' c path)
  /\ (forall c path width,
        Editor.strokePath P c path width = Editor.strokePath P' c path width)
  /\ (forall url old new c,
        Editor.drawSnapshot P url old new c = Editor.drawSnapshot P' url old new c).

(** The field [key] of a structured content. *)
Definition structured_field (key : string) (o : list (string * string)) : option string :=
  Demo.field key o.
(** * Properties *)

(** ** Rounding to binary64 *)

Lemma pow2_pos (k : Z) : (0 < pow2 k)%Q.
Proof. apply Qpower_0_lt. reflexivity. Qed.

Lemma pow2_add (a b : Z) : (pow2 (a + b) == pow2 a * pow2 b)%Q.
Proof. apply Qpower_plus. discriminate. Qed.

Lemma pow2_le (a b : Z) : a <= b -> (pow2 a <= pow2 b)%Q.
Proof. intros H. apply Qpower_le_compat_l; [exact H | discriminate]. Qed.

Lemma pow2_of_Z (k : Z) : 0 <= k -> (pow2 k == inject_Z (2 ^ k))%Q.
Proof. intros H. unfold pow2. rewrite Zpower_Qpower by exact H. reflexivity. Qed.

(** The nearest integer is within one half. *)
Lemma round_half_even_bounds (q : Q) :
  (q - (1 # 2) <= inject_Z (round_half_even q) <= q + (1 # 2))%Q.
Proof.
  unfold round_half_even.
  pose proof (Qfloor_le q) as Hlo. pose proof (Qlt_floor q) as Hhi.
  rewrite inject_Z_plus in Hhi. change (inject_Z 1) with 1%Q in *.
  destruct (Qcompare_spec (q - inject_Z (Qfloor q)) (1 # 2)) as [He | Hl | Hg].
  - destruct (Z.even (Qfloor q)); rewrite ?inject_Z_plus; change (inject_Z 1) with 1%Q; split; lra.
  - split; lra.
  - rewrite inject_Z_plus. change (inject_Z 1) with 1%Q. split; lra.
Qed.

Lemma round_half_even_floor (q : Q) : Qfloor q <= round_half_even q.
Proof.
  unfold round_half_even.
  destruct (q - inject_Z (Qfloor q) ?= 1 # 2)%Q; [destruct (Z.even _)| |]; lia.
Qed.

Lemma round_half_even_ge (q : Q) (n : Z) :
  (inject_Z n <= q)%Q -> n <= round_half_even q.
Proof.
  intros H. pose proof (round_half_even_floor q).
  apply Qfloor_resp_le in H. rewrite Qfloor_Z in H. lia.
Qed.

Lemma round_half_even_int (q : Q) (n : Z) :
  (q == inject_Z n)%Q -> round_half_even q = n.
Proof.
  intros H. unfold round_half_even.
  assert (Hf : Qfloor q = n) by (rewrite H; apply Qfloor_Z).
  rewrite Hf.
  destruct (Qcompare_spec (q - inject_Z n) (1 # 2)) as [He | Hl | Hg];
    [exfalso; lra | reflexivity | exfalso; lra].
Qed.

(** Comparing two quotients with positive denominators. *)
Lemma Qdiv_le_cross (a b c d : Q) :
  (0 < b)%Q -> (0 < d)%Q -> (a * d <= c * b)%Q -> (a / b <= c / d)%Q.
Proof.
  intros Hb Hd H.
  apply Qle_shift_div_l; [exact Hd|].
  setoid_replace (a / b * d)%Q with (a * d / b)%Q using relation Qeq by (field; lra).
  apply Qle_shift_div_r; [exact Hb | exact H].
Qed.

Lemma ilog2_le (q : Q) : (0 < q)%Q -> (pow2 (ilog2 q) <= q)%Q.
Proof.
  intros Hq. unfold ilog2.
  destruct (Qle_bool (pow2 _) q) eqn:Htest; [apply Qle_bool_iff, Htest|].
  clear Htest. destruct q as [n d].
  assert (Hn : 0 < n).
  { unfold Qlt in Hq. cbn in Hq. lia. }
  cbn [Qnum Qden].
  pose proof (Z.log2_spec n Hn) as [Hlo _].
  pose proof (Z.log2_spec (Z.pos d) ltac:(lia)) as [_ Hhi].
  pose proof (Z.log2_nonneg n). pose proof (Z.log2_nonneg (Z.pos d)).
  set (a := Z.log2 n) in *. set (b := Z.log2 (Z.pos d)) in *.
  replace (a - b - 1) with (a - Z.succ b) by lia.
  unfold pow2. rewrite Qpower_minus by discriminate.
  fold (pow2 a). fold (pow2 (Z.succ b)). rewrite !pow2_of_Z by lia.
  rewrite (Qmake_Qdiv n d).
  apply Qdiv_le_cross.
  - change 0%Q with (inject_Z 0). rewrite <- Zlt_Qlt. lia.
  - change 0%Q with (inject_Z 0). rewrite <- Zlt_Qlt. lia.
  - rewrite <- !inject_Z_mult, <- Zle_Qle. nia.
Qed.

Lemma eps64_pos : (0 < eps64)%Q.
Proof. apply pow2_pos. Qed.

(** Correct rounding in the normal range: the error is at most one part
    in [2^53]. *)
Lemma round64_pos_error (q : Q) :
  (pow2 (-1022) <= q)%Q ->
  (q * (1 - eps64) <= round64_pos q <= q * (1 + eps64))%Q.
Proof.
  intros Hq.
  assert (Hq0 : (0 < q)%Q) by (eapply Qlt_le_trans; [apply (pow2_pos (-1022)) | exact Hq]).
  unfold round64_pos. cbv zeta.
  set (e := Z.max (ilog2 q) (-1022)).
  assert (He : (pow2 e <= q)%Q).
  { unfold e. destruct (Z.max_spec (ilog2 q) (-1022)) as [[_ ->] | [_ ->]];
      [exact Hq | apply ilog2_le, Hq0]. }
  set (u := pow2 (e - 52)).
  assert (Hu : (0 < u)%Q) by apply pow2_pos.
  assert (Hue : (u == pow2 e * (2 * eps64))%Q).
  { unfold u, eps64. replace (e - 52) with (e + -52) by lia.
    rewrite pow2_add. apply Qmult_comp; [reflexivity|]. reflexivity. }
  pose proof (round_half_even_bounds (q / u)) as [Hlo Hhi].
  set (m := inject_Z (round_half_even (q / u))) in *.
  assert (Ht : (q / u * u == q)%Q) by (field; lra).
  set (t := (q / u)%Q) in *.
  pose proof eps64_pos as Heps.
  assert (Hmu : (q - u * (1 # 2) <= m * u <= q + u * (1 # 2))%Q).
  { split; nra. }
  assert (Hhalf : (u * (1 # 2) <= q * eps64)%Q).
  { rewrite Hue. setoid_replace (pow2 e * (2 * eps64) * (1 # 2))%Q
      with (pow2 e * eps64)%Q using relation Qeq by ring.
    apply Qmult_le_compat_r; [exact He | lra]. }
  split; lra.
Qed.

Lemma round64_pos_nonneg (q : Q) : (0 <= q)%Q -> (0 <= round64_pos q)%Q.
Proof.
  intros Hq. unfold round64_pos. cbv zeta.
  set (u := pow2 _). assert (Hu : (0 < u)%Q) by apply pow2_pos.
  apply Qmult_le_0_compat; [|lra].
  change 0%Q with (inject_Z 0). rewrite <- Zle_Qle.
  apply round_half_even_ge. change (inject_Z 0) with 0%Q.
  apply Qle_shift_div_l; [exact Hu | lra].
Qed.

(** Rounding does not take a number below 1 that was not. *)
Lemma round64_pos_ge_1 (q : Q) : (1 <= q)%Q -> (1 <= round64_pos q)%Q.
Proof.
  intros Hq. assert (Hq0 : (0 < q)%Q) by lra.
  unfold round64_pos. cbv zeta.
  set (e := Z.max (ilog2 q) (-1022)).
  set (u := pow2 (e - 52)). assert (Hu : (0 < u)%Q) by apply pow2_pos.
  destruct (Z_le_gt_dec e 52) as [He | He].
  - (* the spacing divides 1 *)
    assert (Hk : (pow2 (52 - e) * u == 1)%Q).
    { unfold u. rewrite <- pow2_add. replace (52 - e + (e - 52)) with 0 by lia.
      reflexivity. }
    assert (Hm : 2 ^ (52 - e) <= round_half_even (q / u)).
    { apply round_half_even_ge. rewrite <- pow2_of_Z by lia.
      apply Qle_shift_div_l; [exact Hu|]. rewrite Hk. exact Hq. }
    rewrite Zle_Qle, <- pow2_of_Z in Hm by lia.
    apply (Qmult_le_compat_r _ _ u) in Hm; [|lra].
    rewrite Hk in Hm. exact Hm.
  - assert (Hle : (pow2 e <= q)%Q).
    { unfold e. rewrite Z.max_l by lia. apply ilog2_le, Hq0. }
    assert (Hk : (pow2 52 * u == pow2 e)%Q).
    { unfold u. rewrite <- pow2_add. replace (52 + (e - 52)) with e by lia.
      reflexivity. }
    assert (Hm : 2 ^ 52 <= round_half_even (q / u)).
    { apply round_half_even_ge. rewrite <- pow2_of_Z by lia.
      apply Qle_shift_div_l; [exact Hu|]. rewrite Hk. exact Hle. }
    rewrite Zle_Qle, <- pow2_of_Z in Hm by lia.
    apply (Qmult_le_compat_r _ _ u) in Hm; [|lra].
    rewrite Hk in Hm.
    eapply Qle_trans; [|exact Hm].
    change 1%Q with (pow2 0). apply pow2_le. lia.
Qed.

Lemma Qsign_Gt (q : Q) : (0 < q)%Q -> Qsign q = Gt.
Proof. intros H. unfold Qsign. apply Qgt_alt. exact H. Qed.

Lemma round64_of_pos (q : Q) : (0 < q)%Q -> round64 q = round64_pos q.
Proof. intros H. unfold round64. rewrite (Qsign_Gt q H). reflexivity. Qed.

Lemma round64_nonneg (q : Q) : (0 <= q)%Q -> (0 <= round64 q)%Q.
Proof.
  intros Hq. unfold round64, Qsign.
  destruct (Qcompare_spec q 0) as [He | Hl | Hg]; [lra | lra |].
  apply round64_pos_nonneg, Hq.
Qed.

(** [2 * q] is an integer. *)
Lemma exact64_spec (q : Q) :
  exact64 q = true <-> exists m : Z, (2 * q == inject_Z m)%Q.
Proof.
  unfold exact64. destruct q as [n d]. cbn [Qnum Qden]. split.
  - intros H. apply Z.eqb_eq in H. exists (2 * n / Z.pos d).
    pose proof (Z.div_mod (2 * n) (Z.pos d) ltac:(lia)) as Hdm. rewrite H in Hdm.
    unfold Qeq. cbn [Qnum Qden Qmult inject_Z]. rewrite Pos.mul_1_l. lia.
  - intros [m Hm]. unfold Qeq in Hm. cbn in Hm. apply Z.eqb_eq.
    apply Z.mod_divide; [lia|]. exists m. lia.
Qed.

Lemma exact64_comp (p q : Q) : (p == q)%Q -> exact64 p = exact64 q.
Proof.
  intros H.
  destruct (exact64 p) eqn:Hp, (exact64 q) eqn:Hq; try reflexivity.
  - apply exact64_spec in Hp as [m Hm]. rewrite H in Hm.
    assert (Ht : exact64 q = true) by (apply exact64_spec; eauto). congruence.
  - apply exact64_spec in Hq as [m Hm]. rewrite <- H in Hm.
    assert (Ht : exact64 p = true) by (apply exact64_spec; eauto). congruence.
Qed.

Lemma exact64_Z (z : Z) : exact64 (inject_Z z) = true.
Proof. apply exact64_spec. exists (2 * z). rewrite inject_Z_mult. reflexivity. Qed.

(** The rounded result of an operation, when its exact result is not
    negative: not negative either, or an overflow. *)
Lemma fl_nonneg (q : Q) :
  (0 <= q)%Q -> fl q = PosInf \/ exists r, fl q = Fin r /\ (0 <= r)%Q.
Proof.
  intros Hq. unfold fl. destruct (exact64 q); [right; eauto|]. cbv zeta.
  pose proof (round64_nonneg q Hq) as Hr.
  destruct (Qle_bool (pow2 1024) (round64 q)); [left; reflexivity|].
  destruct (Qle_bool (round64 q) (- pow2 1024)) eqn:Hneg; [|right; eauto].
  apply Qle_bool_iff in Hneg. pose proof (pow2_pos 1024). lra.
Qed.

Lemma fl_ge_1 (q : Q) :
  (1 <= q)%Q -> fl q = PosInf \/ exists r, fl q = Fin r /\ (1 <= r)%Q.
Proof.
  intros Hq. unfold fl. destruct (exact64 q); [right; eauto|]. cbv zeta.
  assert (Hr : (1 <= round64 q)%Q).
  { rewrite round64_of_pos by lra. apply round64_pos_ge_1, Hq. }
  destruct (Qle_bool (pow2 1024) (round64 q)); [left; reflexivity|].
  destruct (Qle_bool (round64 q) (- pow2 1024)) eqn:Hneg; [|right; eauto].
  apply Qle_bool_iff in Hneg. pose proof (pow2_pos 1024). lra.
Qed.

Lemma rnd_ge_1 (q : Q) : (1 <= q)%Q -> (1 <= rnd q)%Q.
Proof.
  intros Hq. unfold rnd. destruct (exact64 q); [exact Hq|].
  rewrite round64_of_pos by lra. apply round64_pos_ge_1, Hq.
Qed.

(** In the normal range the result is finite and carries the relative
    error of one rounding. *)
Lemma rnd_error (q : Q) :
  (pow2 (-1022) <= q)%Q ->
  (q * (1 - eps64) <= rnd q <= q * (1 + eps64))%Q.
Proof.
  intros Hq. pose proof (pow2_pos (-1022)). pose proof eps64_pos.
  unfold rnd. destruct (exact64 q).
  - split; nra.
  - rewrite round64_of_pos by lra. apply round64_pos_error, Hq.
Qed.

Lemma fl_finite (q : Q) :
  (pow2 (-1022) <= q)%Q -> (q <= pow2 1023)%Q -> fl q = Fin (rnd q).
Proof.
  intros Hlo Hhi. unfold fl, rnd. destruct (exact64 q) eqn:He; [reflexivity|].
  cbv zeta.
  assert (Hr := rnd_error q Hlo). unfold rnd in Hr. rewrite He in Hr.
  pose proof (pow2_pos (-1022)).
  assert (Heps : (eps64 < 1)%Q) by reflexivity.
  assert (Htop : (pow2 1024 == 2 * pow2 1023)%Q).
  { change 1024 with (1 + 1023). rewrite pow2_add. reflexivity. }
  destruct (Qle_bool (pow2 1024) (round64 q)) eqn:Hover.
  { apply Qle_bool_iff in Hover. exfalso. pose proof eps64_pos. nra. }
  destruct (Qle_bool (round64 q) (- pow2 1024)) eqn:Hneg; [|reflexivity].
  apply Qle_bool_iff in Hneg. exfalso. pose proof (pow2_pos 1024).
  pose proof eps64_pos. nra.
Qed.

Lemma round64_pos_exact (q : Q) :
  exact64 q = true -> (0 < q)%Q -> (q < pow2 52)%Q -> (round64_pos q == q)%Q.
Proof.
  intros Hex Hq0 Hq. apply exact64_spec in Hex as [m Hm].
  unfold round64_pos. cbv zeta.
  set (e := Z.max (ilog2 q) (-1022)).
  assert (He : e <= 51).
  { unfold e. apply Z.max_lub; [|lia].
    destruct (Z_le_gt_dec (ilog2 q) 51) as [H | H]; [exact H | exfalso].
    pose proof (ilog2_le q Hq0) as Hlo.
    pose proof (pow2_le 52 (ilog2 q) ltac:(lia)). lra. }
  set (u := pow2 (e - 52)). assert (Hu : (0 < u)%Q) by apply pow2_pos.
  assert (Hk : (pow2 (51 - e) * u == 1 # 2)%Q).
  { unfold u. rewrite <- pow2_add. replace (51 - e + (e - 52)) with (-1) by lia.
    reflexivity. }
  assert (Hint : (q / u == inject_Z (m * 2 ^ (51 - e)))%Q).
  { rewrite inject_Z_mult, <- pow2_of_Z, <- Hm by lia.
    apply Qmult_inj_r with (z := u); [lra|].
    setoid_replace (q / u * u)%Q with q using relation Qeq by (field; lra).
    setoid_replace (2 * q * pow2 (51 - e) * u)%Q with (2 * q * (pow2 (51 - e) * u))%Q
      using relation Qeq by ring.
    rewrite Hk. ring. }
  rewrite (round_half_even_int _ _ Hint), <- Hint. field. lra.
Qed.

(** Below [2^52] binary64 holds every number with at most one fractional
    bit: there the rounding leaves such a number as it is. *)
Lemma round64_exact (q : Q) :
  exact64 q = true -> (- pow2 52 < q)%Q -> (q < pow2 52)%Q -> (round64 q == q)%Q.
Proof.
  intros Hex Hlo Hhi. unfold round64, Qsign.
  destruct (Qcompare_spec q 0) as [He | Hl | Hg].
  - symmetry. exact He.
  - assert (Hex' : exact64 (- q) = true).
    { apply exact64_spec in Hex as [m Hm]. apply exact64_spec. exists (- m).
      rewrite inject_Z_opp, <- Hm. ring. }
    rewrite (round64_pos_exact (- q) Hex') by lra. ring.
  - apply round64_pos_exact; assumption.
Qed.


Lemma fl_exact (q : Q) : exact64 q = true -> fl q = Fin q.
Proof. intros H. unfold fl. rewrite H. reflexivity. Qed.

(** A quotient and a product, rounded: 15/22 is not a binary64 value, and
    11 times its rounding is just below 7.5. *)
Example fl_15_22 :
  fl (15 # 22) = Fin (6141272219141585 # 9007199254740992)
  /\ fl (11 * (6141272219141585 # 9007199254740992))
     = Fin (8444249301319679 # 1125899906842624)
  /\ (8444249301319679 # 1125899906842624 < 15 # 2)%Q.
Proof. vm_compute. repeat split; reflexivity. Qed.

(** ** Arithmetic of [jsnum] on integers *)

Section NumberFacts.

Lemma Qsign_pos (z : Z) : 0 < z -> Qsign (inject_Z z) = Gt.
Proof.
  intros Hz. unfold Qsign. apply Qgt_alt. change 0%Q with (inject_Z 0).
  rewrite <- Zlt_Qlt. exact Hz.
Qed.

Lemma mul_of_Z (a b : Z) : mul (of_Z a) (of_Z b) = of_Z (a * b).
Proof.
  unfold mul, of_Z. rewrite fl_exact; [reflexivity|].
  rewrite <- inject_Z_mult. apply exact64_Z.
Qed.

Lemma add_of_Z (a b : Z) : add (of_Z a) (of_Z b) = of_Z (a + b).
Proof.
  unfold add, of_Z. rewrite fl_exact.
  - unfold inject_Z, Qplus. cbn [Qnum Qden]. f_equal. f_equal. lia.
  - rewrite <- inject_Z_plus. apply exact64_Z.
Qed.

Lemma sub_of_Z (a b : Z) : sub (of_Z a) (of_Z b) = of_Z (a - b).
Proof.
  unfold sub, neg, of_Z. change (Fin (- inject_Z b)) with (of_Z (- b)).
  fold (of_Z a). rewrite add_of_Z. reflexivity.
Qed.

Lemma div_of_Z (a b : Z) :
  0 < b -> div (of_Z a) (of_Z b) = fl (inject_Z a / inject_Z b).
Proof. intros Hb. unfold div, of_Z. rewrite (Qsign_pos b Hb). reflexivity. Qed.

Lemma Qcompare_inject_Z (a b : Z) : (inject_Z a ?= inject_Z b)%Q = (a ?= b).
Proof. unfold Qcompare, inject_Z. cbn [Qnum Qden]. rewrite !Z.mul_1_r. reflexivity. Qed.

Lemma ltb_of_Z (a b : Z) : ltb (of_Z a) (of_Z b) = (a <? b).
Proof.
  unfold ltb, of_Z. rewrite Qcompare_inject_Z, Z.ltb_compare. reflexivity.
Qed.

Lemma geb_of_Z (a b : Z) : geb (of_Z a) (of_Z b) = (b <=? a).
Proof.
  unfold geb, leb, of_Z. rewrite Qcompare_inject_Z, Z.leb_compare. reflexivity.
Qed.

Lemma to_index_of_Z (z : Z) :
  to_index (of_Z z) = if 0 <=? z then Some (Z.to_nat z) else None.
Proof.
  unfold to_index, of_Z. rewrite Qfloor_Z.
  replace (Qeq_bool (inject_Z z) (inject_Z z)) with true; [reflexivity|].
  symmetry. apply Qeq_bool_iff. reflexivity.
Qed.

Lemma as_Z_of_Z (z : Z) : as_Z (of_Z z) = Some z.
Proof.
  unfold as_Z, of_Z. rewrite Qfloor_Z.
  replace (Qeq_bool (inject_Z z) (inject_Z z)) with true; [reflexivity|].
  symmetry. apply Qeq_bool_iff. reflexivity.
Qed.

Lemma Qfloor_unique (q : Q) (n : Z) :
  (inject_Z n <= q)%Q -> (q < inject_Z (n + 1))%Q -> Qfloor q = n.
Proof.
  intros Hlo Hhi.
  assert (n <= Qfloor q).
  { rewrite <- (Qfloor_Z n). apply Qfloor_resp_le. exact Hlo. }
  assert (Qfloor q < n + 1).
  { rewrite Zlt_Qlt. eapply Qle_lt_trans; [apply Qfloor_le | exact Hhi]. }
  lia.
Qed.

Lemma Qround_half_up_Z (n : Z) : Qround_half_up (inject_Z n) = n.
Proof.
  unfold Qround_half_up. apply Qfloor_unique.
  - rewrite <- (Qplus_0_r (inject_Z n)) at 1.
    apply Qplus_le_r. discriminate.
  - rewrite inject_Z_plus. apply Qplus_lt_r. reflexivity.
Qed.

Lemma Qround_half_up_le (p q : Q) :
  (p <= q)%Q -> Qround_half_up p <= Qround_half_up q.
Proof.
  intros H. unfold Qround_half_up. apply Qfloor_resp_le.
  apply Qplus_le_l. exact H.
Qed.

Lemma Qround_half_up_nonneg (q : Q) : (0 <= q)%Q -> 0 <= Qround_half_up q.
Proof.
  intros H. change 0 with (Qround_half_up (inject_Z 0)) at 1.
  - apply Qround_half_up_le. exact H.
Qed.

Lemma Qround_half_up_comp (p q : Q) : (p == q)%Q -> Qround_half_up p = Qround_half_up q.
Proof. intros H. unfold Qround_half_up. rewrite H. reflexivity. Qed.

(** A number less than one half above [n] rounds to [n] at most, and a
    number not more than one half below [n] to [n] at least. *)
Lemma Qround_half_up_below (p : Q) (n : Z) :
  (p < inject_Z n + (1 # 2))%Q -> Qround_half_up p <= n.
Proof.
  intros H. unfold Qround_half_up.
  pose proof (Qfloor_le (p + (1 # 2))) as Hf.
  assert (Hlt : (inject_Z (Qfloor (p + (1 # 2))) < inject_Z (n + 1))%Q).
  { rewrite inject_Z_plus. change (inject_Z 1) with 1%Q. lra. }
  rewrite <- Zlt_Qlt in Hlt. lia.
Qed.

Lemma Qround_half_up_above (p : Q) (n : Z) :
  (inject_Z n - (1 # 2) <= p)%Q -> n <= Qround_half_up p.
Proof.
  intros H. unfold Qround_half_up.
  rewrite <- (Qfloor_Z n). apply Qfloor_resp_le. lra.
Qed.


(** Half of an integer, rounded half up. *)
Lemma Qround_half_up_half (d : Z) :
  Qround_half_up (inject_Z d / inject_Z 2) = (d + 1) / 2.
Proof.
  unfold Qround_half_up. apply Qfloor_unique.
  - assert (H : 2 * ((d + 1) / 2) <= d + 1) by (apply Z.mul_div_le; lia).
    rewrite Zle_Qle, inject_Z_mult, inject_Z_plus in H.
    change (inject_Z 2) with 2%Q in *. change (inject_Z 1) with 1%Q in *.
    unfold Qdiv. change (/ 2)%Q with (1 # 2)%Q. lra.
  - assert (H : d + 1 < 2 * ((d + 1) / 2 + 1)).
    { pose proof (Z.mod_pos_bound (d + 1) 2 ltac:(lia)).
      pose proof (Z.div_mod (d + 1) 2 ltac:(lia)). lia. }
    rewrite Zlt_Qlt, inject_Z_mult, !inject_Z_plus in H.
    rewrite inject_Z_plus.
    change (inject_Z 2) with 2%Q in *. change (inject_Z 1) with 1%Q in *.
    unfold Qdiv. change (/ 2)%Q with (1 # 2)%Q. lra.
Qed.

(** A centring offset: half the margin, rounded half up. *)
Lemma offset_of_Z (V d : Z) :
  round (div (sub (of_Z V) (of_Z d)) (of_Z 2)) = of_Z ((V - d + 1) / 2).
Proof.
  rewrite sub_of_Z, div_of_Z by lia. rewrite fl_exact.
  - unfold round. rewrite Qround_half_up_half. reflexivity.
  - apply exact64_spec. exists (V - d). change (inject_Z 2) with 2%Q. field.
Qed.

(** [Math.min] of finite numbers is one of them and below each. *)
Lemma min2_finite (a b : Q) :
  exists s, min2 (Fin a) (Fin b) = Fin s
    /\ (s <= a)%Q /\ (s <= b)%Q /\ (s = a \/ s = b).
Proof.
  unfold min2, leb.
  destruct (Qcompare_spec a b) as [Hab | Hab | Hab].
  - exists a. repeat split; auto using Qle_refl. rewrite Hab. apply Qle_refl.
  - exists a. repeat split; auto using Qle_refl, Qlt_le_weak.
  - exists b. repeat split; auto using Qle_refl, Qlt_le_weak.
Qed.

Lemma min3_finite (a b c : Q) :
  exists s, min3 (Fin a) (Fin b) (Fin c) = Fin s
    /\ (s <= a)%Q /\ (s <= b)%Q /\ (s <= c)%Q
    /\ (s = a \/ s = b \/ s = c).
Proof.
  unfold min3.
  destruct (min2_finite a b) as (m & -> & Hma & Hmb & Hm).
  destruct (min2_finite m c) as (s & -> & Hsm & Hsc & Hs).
  exists s. split; [reflexivity|].
  repeat split; eauto using Qle_trans.
  destruct Hs as [-> | ->]; tauto.
Qed.

(** [Math.min] when an argument may have overflowed. *)
Lemma min2_overflow_l (b : Q) : min2 PosInf (Fin b) = Fin b.
Proof. reflexivity. Qed.

Lemma min2_overflow_r (a : Q) : min2 (Fin a) PosInf = Fin a.
Proof. reflexivity. Qed.

End NumberFacts.

(** ** The display transform *)

(** The rectangle once the scale and the two products are known. *)
Lemma displayTransform_of_scale (Wv Hv Wi Hi : Z) (s pw ph : Q) :
  0 < Wi -> 0 < Hi ->
  min3 (fl (inject_Z Wv / inject_Z Wi)) (fl (inject_Z Hv / inject_Z Hi)) (of_Z 1)
    = Fin s ->
  fl (inject_Z Wi * s) = Fin pw ->
  fl (inject_Z Hi * s) = Fin ph ->
  displayTransform Wv Hv Wi Hi
  = mkDisplayRect (Fin s) (of_Z (Qround_half_up pw)) (of_Z (Qround_half_up ph))
      (of_Z ((Wv - Qround_half_up pw + 1) / 2))
      (of_Z ((Hv - Qround_half_up ph + 1) / 2)).
Proof.
  intros HWi HHi Hs Hpw Hph. unfold displayTransform. cbv zeta.
  rewrite !div_of_Z by assumption. rewrite Hs.
  change (mul (of_Z Wi) (Fin s)) with (fl (inject_Z Wi * s)).
  change (mul (of_Z Hi) (Fin s)) with (fl (inject_Z Hi * s)).
  rewrite Hpw, Hph.
  change (round (Fin pw)) with (of_Z (Qround_half_up pw)).
  change (round (Fin ph)) with (of_Z (Qround_half_up ph)).
  rewrite !offset_of_Z. reflexivity.
Qed.

Lemma inject_Z_pos (z : Z) : 0 < z -> (0 < inject_Z z)%Q.
Proof. intros H. change 0%Q with (inject_Z 0). rewrite <- Zlt_Qlt. exact H. Qed.

Lemma inject_Z_nonneg (z : Z) : 0 <= z -> (0 <= inject_Z z)%Q.
Proof. intros H. change 0%Q with (inject_Z 0). rewrite <- Zle_Qle. exact H. Qed.

(** Sizes as rationals: at least 1 and below [2^32]. *)
Lemma inject_Z_size (z : Z) :
  0 < z < 2 ^ 32 -> (1 <= inject_Z z)%Q /\ (inject_Z z <= 4294967296)%Q.
Proof.
  intros [Hlo Hhi]. split.
  - change 1%Q with (inject_Z 1). rewrite <- Zle_Qle. lia.
  - change 4294967296%Q with (inject_Z 4294967296). rewrite <- Zle_Qle.
    change (2 ^ 32) with 4294967296 in Hhi. lia.
Qed.

Lemma eps64_value : (eps64 == 1 # 9007199254740992)%Q.
Proof. reflexivity. Qed.

(** The quotient of two sizes is in the normal range: its rounding is
    finite and within one part in [2^53]. *)
Lemma quotient_rounded (V W : Z) :
  0 < V < 2 ^ 32 -> 0 < W < 2 ^ 32 ->
  fl (inject_Z V / inject_Z W) = Fin (rnd (inject_Z V / inject_Z W))
  /\ (inject_Z V / inject_Z W * (1 - eps64) <= rnd (inject_Z V / inject_Z W)
      <= inject_Z V / inject_Z W * (1 + eps64))%Q
  /\ (pow2 (-33) <= rnd (inject_Z V / inject_Z W))%Q.
Proof.
  intros HV HW.
  destruct (inject_Z_size V HV) as [Hv1 Hv2].
  destruct (inject_Z_size W HW) as [Hw1 Hw2].
  set (q := (inject_Z V / inject_Z W)%Q).
  assert (Hc32 : (pow2 (-32) == 1 # 4294967296)%Q) by reflexivity.
  assert (Hc33 : (pow2 (-33) == 1 # 8589934592)%Q) by reflexivity.
  assert (Hlo : (pow2 (-32) <= q)%Q).
  { apply Qle_shift_div_l; [lra|]. rewrite Hc32. lra. }
  assert (Hhi : (q <= 4294967296)%Q).
  { apply Qle_shift_div_r; [lra|]. lra. }
  assert (Hmin : (pow2 (-1022) <= q)%Q).
  { eapply Qle_trans; [apply (pow2_le (-1022) (-32)); lia | exact Hlo]. }
  assert (Hmax : (q <= pow2 1023)%Q).
  { eapply Qle_trans; [exact Hhi|].
    change 4294967296%Q with (pow2 32). apply pow2_le. lia. }
  pose proof (rnd_error q Hmin) as Herr.
  split; [apply fl_finite; assumption|]. split; [exact Herr|].
  pose proof eps64_value as He. rewrite Hc33. rewrite Hc32 in Hlo.
  destruct Herr as [Herr _]. nra.
Qed.

(** So is the product of a size and a scale. *)
Lemma product_rounded (W : Z) (s : Q) :
  0 < W < 2 ^ 32 -> (pow2 (-33) <= s)%Q -> (s <= 1)%Q ->
  fl (inject_Z W * s) = Fin (rnd (inject_Z W * s))
  /\ (inject_Z W * s * (1 - eps64) <= rnd (inject_Z W * s)
      <= inject_Z W * s * (1 + eps64))%Q.
Proof.
  intros HW Hs0 Hs1.
  destruct (inject_Z_size W HW) as [Hw1 Hw2].
  assert (Hc33 : (pow2 (-33) == 1 # 8589934592)%Q) by reflexivity.
  rewrite Hc33 in Hs0.
  set (p := (inject_Z W * s)%Q).
  assert (Hlo : (pow2 (-33) <= p)%Q) by (rewrite Hc33; unfold p; nra).
  assert (Hhi : (p <= 4294967296)%Q) by (unfold p; nra).
  assert (Hmin : (pow2 (-1022) <= p)%Q).
  { eapply Qle_trans; [apply (pow2_le (-1022) (-33)); lia | exact Hlo]. }
  assert (Hmax : (p <= pow2 1023)%Q).
  { eapply Qle_trans; [exact Hhi|].
    change 4294967296%Q with (pow2 32). apply pow2_le. lia. }
  split; [apply fl_finite; assumption | apply rnd_error; assumption].
Qed.

(** A drawn side is at most the side whose quotient bounds the scale. *)
Lemma draw_side_le (W V : Z) (s qv p : Q) :
  0 < W -> 0 < V < 2 ^ 32 -> (0 <= s)%Q -> (s <= qv)%Q ->
  (qv <= inject_Z V / inject_Z W * (1 + eps64))%Q ->
  (p <= inject_Z W * s * (1 + eps64))%Q ->
  Qround_half_up p <= V.
Proof.
  intros HW HV Hs0 Hs Hqv Hp.
  destruct (inject_Z_size V HV) as [Hv1 Hv2].
  pose proof (inject_Z_pos W HW) as Hw.
  pose proof eps64_value as He.
  set (w := inject_Z W) in *. set (v := inject_Z V) in *.
  assert (Ht : (v / w * w == v)%Q) by (field; lra).
  set (t := (v / w)%Q) in *.
  assert (H1 : (w * s <= v * (1 + eps64))%Q) by nra.
  assert (H2 : (p <= v * (1 + eps64) * (1 + eps64))%Q) by nra.
  apply Qround_half_up_below. fold v. nra.
Qed.

(** A side whose own rounded quotient is the scale is drawn in full. *)
Lemma draw_side_ge (W V : Z) (s p : Q) :
  0 < W -> 0 < V < 2 ^ 32 ->
  (inject_Z V / inject_Z W * (1 - eps64) <= s)%Q ->
  (inject_Z W * s * (1 - eps64) <= p)%Q ->
  V <= Qround_half_up p.
Proof.
  intros HW HV Hs Hp.
  destruct (inject_Z_size V HV) as [Hv1 Hv2].
  pose proof (inject_Z_pos W HW) as Hw.
  pose proof eps64_value as He.
  set (w := inject_Z W) in *. set (v := inject_Z V) in *.
  assert (Ht : (v / w * w == v)%Q) by (field; lra).
  set (t := (v / w)%Q) in *.
  assert (H1 : (v * (1 - eps64) <= w * s)%Q) by nra.
  assert (H2 : (v * (1 - eps64) * (1 - eps64) <= p)%Q) by nra.
  apply Qround_half_up_above. fold v. nra.
Qed.

(** The rectangle for sizes of the DOM (positive, below [2^32]): the
    scale is the least of the two rounded quotients and 1; each drawn side
    is the rounded product, rounded half up; the drawn sides fit the
    viewport and the image, and the side that decides the scale is drawn
    in full. *)
Lemma displayTransform_bounded (Wv Hv Wi Hi : Z) :
  0 < Wi < 2 ^ 32 -> 0 < Hi < 2 ^ 32 -> 0 < Wv < 2 ^ 32 -> 0 < Hv < 2 ^ 32 ->
  exists (s : Q) (dw dh : Z),
    displayTransform Wv Hv Wi Hi
      = mkDisplayRect (Fin s) (of_Z dw) (of_Z dh)
          (of_Z ((Wv - dw + 1) / 2)) (of_Z ((Hv - dh + 1) / 2))
    /\ dw = Qround_half_up (rnd (inject_Z Wi * s))
    /\ dh = Qround_half_up (rnd (inject_Z Hi * s))
    /\ (s = rnd (inject_Z Wv / inject_Z Wi) \/ s = rnd (inject_Z Hv / inject_Z Hi)
        \/ s = inject_Z 1)
    /\ (s <= rnd (inject_Z Wv / inject_Z Wi))%Q
    /\ (s <= rnd (inject_Z Hv / inject_Z Hi))%Q
    /\ (pow2 (-33) <= s <= 1)%Q
    /\ 0 <= dw <= Wv /\ 0 <= dh <= Hv /\ dw <= Wi /\ dh <= Hi
    /\ (s = rnd (inject_Z Wv / inject_Z Wi) -> dw = Wv)
    /\ (s = rnd (inject_Z Hv / inject_Z Hi) -> dh = Hv)
    /\ (s = inject_Z 1 -> dw = Wi /\ dh = Hi).
Proof.
  intros HWi HHi HWv HHv.
  destruct (quotient_rounded Wv Wi HWv HWi) as (Hqw & [Hqw1 Hqw2] & Hqw0).
  destruct (quotient_rounded Hv Hi HHv HHi) as (Hqh & [Hqh1 Hqh2] & Hqh0).
  set (qw := rnd (inject_Z Wv / inject_Z Wi)) in *.
  set (qh := rnd (inject_Z Hv / inject_Z Hi)) in *.
  destruct (min3_finite qw qh (inject_Z 1)) as (s & Hmin & Hsw & Hsh & Hs1 & Hsel).
  change (inject_Z 1) with 1%Q in Hs1.
  assert (Hs0 : (pow2 (-33) <= s)%Q).
  { destruct Hsel as [-> | [-> | ->]]; [assumption | assumption |].
    apply (pow2_le (-33) 0). lia. }
  assert (Hspos : (0 <= s)%Q).
  { pose proof (pow2_pos (-33)). lra. }
  destruct (product_rounded Wi s HWi Hs0 Hs1) as (Hpw & Hpw1 & Hpw2).
  destruct (product_rounded Hi s HHi Hs0 Hs1) as (Hph & Hph1 & Hph2).
  exists s, (Qround_half_up (rnd (inject_Z Wi * s))),
    (Qround_half_up (rnd (inject_Z Hi * s))).
  pose proof eps64_value as He.
  pose proof (inject_Z_pos Wi ltac:(lia)) as Hwi.
  pose proof (inject_Z_pos Hi ltac:(lia)) as Hhi.
  assert (Hone : forall W : Z, 0 < W ->
            (inject_Z W / inject_Z W == 1)%Q).
  { intros W HW. pose proof (inject_Z_pos W HW). field. lra. }
  split.
  { apply displayTransform_of_scale; try lia; try assumption.
    rewrite Hqw, Hqh. exact Hmin. }
  do 2 (split; [reflexivity|]).
  split; [exact Hsel|]. split; [exact Hsw|]. split; [exact Hsh|].
  split; [split; assumption|].
  assert (Hdw : Qround_half_up (rnd (inject_Z Wi * s)) <= Wv).
  { apply (draw_side_le Wi Wv s qw); try assumption; lia. }
  assert (Hdh : Qround_half_up (rnd (inject_Z Hi * s)) <= Hv).
  { apply (draw_side_le Hi Hv s qh); try assumption; lia. }
  assert (Hdw0 : 0 <= Qround_half_up (rnd (inject_Z Wi * s))).
  { apply Qround_half_up_nonneg. nra. }
  assert (Hdh0 : 0 <= Qround_half_up (rnd (inject_Z Hi * s))).
  { apply Qround_half_up_nonneg. nra. }
  assert (HdwI : Qround_half_up (rnd (inject_Z Wi * s)) <= Wi).
  { apply (draw_side_le Wi Wi s 1); try assumption; try lia.
    rewrite (Hone Wi) by lia. lra. }
  assert (HdhI : Qround_half_up (rnd (inject_Z Hi * s)) <= Hi).
  { apply (draw_side_le Hi Hi s 1); try assumption; try lia.
    rewrite (Hone Hi) by lia. lra. }
  split; [lia|]. split; [lia|]. split; [exact HdwI|]. split; [exact HdhI|].
  split; [|split].
  - intros Heq. apply Z.le_antisymm; [exact Hdw|].
    apply (draw_side_ge Wi Wv s); try assumption; try lia.
    rewrite Heq. exact Hqw1.
  - intros Heq. apply Z.le_antisymm; [exact Hdh|].
    apply (draw_side_ge Hi Hv s); try assumption; try lia.
    rewrite Heq. exact Hqh1.
  - intros Heq. split; (apply Z.le_antisymm; [assumption|]).
    + apply (draw_side_ge Wi Wi s); try assumption; try lia.
      rewrite (Hone Wi) by lia. rewrite Heq. change (inject_Z 1) with 1%Q. lra.
    + apply (draw_side_ge Hi Hi s); try assumption; try lia.
      rewrite (Hone Hi) by lia. rewrite Heq. change (inject_Z 1) with 1%Q. lra.
Qed.

(** The scenario of an image of 100 x 50 in a viewport of 200 x 200. *)
Example displayTransform_100x50_in_200x200 :
  displayTransform 200 200 100 50
  = mkDisplayRect (of_Z 1) (of_Z 100) (of_Z 50) (of_Z 50) (of_Z 75).
Proof. vm_compute. reflexivity. Qed.

(** An image of 11 x 22 in a viewport of 8 x 15: the scale is the rounded
    15/22, the product 11 * scale falls just below 7.5, and the image is
    drawn 7 wide, one pixel from the left. *)
Example displayTransform_11x22_in_8x15 :
  displayTransform 8 15 11 22
  = mkDisplayRect (Fin (6141272219141585 # 9007199254740992))
                  (of_Z 7) (of_Z 15) (of_Z 1) (of_Z 0).
Proof. vm_compute. reflexivity. Qed.

(** An image of 2000 x 1000 in a viewport of 1001 x 700 is drawn 500 high. *)
Example displayTransform_2000x1000_in_1001x700 :
  drawW (displayTransform 1001 700 2000 1000) = of_Z 1001
  /\ drawH (displayTransform 1001 700 2000 1000) = of_Z 500
  /\ offsetY (displayTransform 1001 700 2000 1000) = of_Z 100.
Proof. vm_compute. repeat split; reflexivity. Qed.


(** C2.  For image dimensions (Wi, Hi) and viewport dimensions (Wv, Hv)
    that are positive (and below 2^32, as the DOM's are) the display
    transform returns finite numbers, computed in binary64 as the
    formulas say: the scale is min(Wv/Wi, Hv/Hi, 1) of the rounded
    quotients (each within one part in 2^53 of the exact one); drawW and
    drawH are the rounded products Wi*scale and Hi*scale, rounded half up
    by [Math.round]; the offsets are (Wv-drawW)/2 and (Hv-drawH)/2 rounded
    half up; and 0 < scale <= 1, 0 <= drawW <= Wv, 0 <= drawH <= Hv,
    0 <= offsetX, 0 <= offsetY. *)
Theorem displayTransform_fits (Wi Hi Wv Hv : Z) :
  0 < Wi < 2 ^ 32 -> 0 < Hi < 2 ^ 32 -> 0 < Wv < 2 ^ 32 -> 0 < Hv < 2 ^ 32 ->
  exists (s : Q) (dw dh ox oy : Z),
    displayTransform Wv Hv Wi Hi
      = mkDisplayRect (Fin s) (of_Z dw) (of_Z dh) (of_Z ox) (of_Z oy)
    /\ (s == Qmin (Qmin (rnd (inject_Z Wv / inject_Z Wi))
                        (rnd (inject_Z Hv / inject_Z Hi))) 1)%Q
    /\ (inject_Z Wv / inject_Z Wi * (1 - eps64) <= rnd (inject_Z Wv / inject_Z Wi)
        <= inject_Z Wv / inject_Z Wi * (1 + eps64))%Q
    /\ (inject_Z Hv / inject_Z Hi * (1 - eps64) <= rnd (inject_Z Hv / inject_Z Hi)
        <= inject_Z Hv / inject_Z Hi * (1 + eps64))%Q
    /\ dw = Qround_half_up (rnd (inject_Z Wi * s))
    /\ dh = Qround_half_up (rnd (inject_Z Hi * s))
    /\ (inject_Z Wi * s * (1 - eps64) <= rnd (inject_Z Wi * s)
        <= inject_Z Wi * s * (1 + eps64))%Q
    /\ (inject_Z Hi * s * (1 - eps64) <= rnd (inject_Z Hi * s)
        <= inject_Z Hi * s * (1 + eps64))%Q
    /\ ox = Qround_half_up ((inject_Z Wv - inject_Z dw) / inject_Z 2)
    /\ oy = Qround_half_up ((inject_Z Hv - inject_Z dh) / inject_Z 2)
    /\ (0 < s <= 1)%Q
    /\ 0 <= dw <= Wv /\ 0 <= dh <= Hv /\ 0 <= ox /\ 0 <= oy.
Proof.
  intros HWi HHi HWv HHv.
  destruct (displayTransform_bounded Wv Hv Wi Hi HWi HHi HWv HHv)
    as (s & dw & dh & Heq & Hdw & Hdh & Hsel & Hsw & Hsh & [Hs0 Hs1]
        & Hbw & Hbh & _).
  destruct (quotient_rounded Wv Wi HWv HWi) as (_ & Hqw & _).
  destruct (quotient_rounded Hv Hi HHv HHi) as (_ & Hqh & _).
  destruct (product_rounded Wi s HWi Hs0 Hs1) as (_ & Hpw).
  destruct (product_rounded Hi s HHi Hs0 Hs1) as (_ & Hph).
  assert (Hhalf : forall V d : Z,
            (V - d + 1) / 2
            = Qround_half_up ((inject_Z V - inject_Z d) / inject_Z 2)).
  { intros V d. rewrite <- Qround_half_up_half. apply Qround_half_up_comp.
    unfold Zminus. rewrite inject_Z_plus, inject_Z_opp. reflexivity. }
  exists s, dw, dh, ((Wv - dw + 1) / 2), ((Hv - dh + 1) / 2).
  split; [exact Heq|]. split.
  { apply Qle_antisym.
    - apply Q.min_glb; [apply Q.min_glb|]; assumption.
    - destruct Hsel as [-> | [-> | ->]].
      + eapply Qle_trans; [apply Q.le_min_l|apply Q.le_min_l].
      + eapply Qle_trans; [apply Q.le_min_l|apply Q.le_min_r].
      + apply Q.le_min_r. }
  split; [exact Hqw|]. split; [exact Hqh|].
  split; [exact Hdw|]. split; [exact Hdh|].
  split; [exact Hpw|]. split; [exact Hph|].
  split; [apply Hhalf|]. split; [apply Hhalf|].
  split; [split; [|exact Hs1]|].
  { pose proof (pow2_pos (-33)). lra. }
  split; [exact Hbw|]. split; [exact Hbh|].
  split; apply Z.div_pos; lia.
Qed.

Lemma displayTransform_fits_witness :
  exists (s : Q) (dw dh ox oy : Z),
    displayTransform 100 100 300 200
      = mkDisplayRect (Fin s) (of_Z dw) (of_Z dh) (of_Z ox) (of_Z oy)
    /\ (s == Qmin (Qmin (rnd (inject_Z 100 / inject_Z 300))
                        (rnd (inject_Z 100 / inject_Z 200))) 1)%Q
    /\ (inject_Z 100 / inject_Z 300 * (1 - eps64) <= rnd (inject_Z 100 / inject_Z 300)
        <= inject_Z 100 / inject_Z 300 * (1 + eps64))%Q
    /\ (inject_Z 100 / inject_Z 200 * (1 - eps64) <= rnd (inject_Z 100 / inject_Z 200)
        <= inject_Z 100 / inject_Z 200 * (1 + eps64))%Q
    /\ dw = Qround_half_up (rnd (inject_Z 300 * s))
    /\ dh = Qround_half_up (rnd (inject_Z 200 * s))
    /\ (inject_Z 300 * s * (1 - eps64) <= rnd (inject_Z 300 * s)
        <= inject_Z 300 * s * (1 + eps64))%Q
    /\ (inject_Z 200 * s * (1 - eps64) <= rnd (inject_Z 200 * s)
        <= inject_Z 200 * s * (1 + eps64))%Q
    /\ ox = Qround_half_up ((inject_Z 100 - inject_Z dw) / inject_Z 2)
    /\ oy = Qround_half_up ((inject_Z 100 - inject_Z dh) / inject_Z 2)
    /\ (0 < s <= 1)%Q
    /\ 0 <= dw <= 100 /\ 0 <= dh <= 100 /\ 0 <= ox /\ 0 <= oy.
Proof. apply (displayTransform_fits 300 200 100 100); lia. Defined.

(** An image of width 0 in a viewport of 200 x 200: the quotient 200/0 is
    +Infinity, the scale is 1, and the drawn height is the image's height,
    not 0. *)
Lemma displayTransform_zero_image_width :
  displayTransform 200 200 0 100
    = mkDisplayRect (of_Z 1) (of_Z 0) (of_Z 100) (of_Z 100) (of_Z 50)
  /\ ~ (drawW (displayTransform 200 200 0 100) = of_Z 0
        /\ drawH (displayTransform 200 200 0 100) = of_Z 0).
Proof.
  assert (H : displayTransform 200 200 0 100
              = mkDisplayRect (of_Z 1) (of_Z 0) (of_Z 100) (of_Z 100) (of_Z 50))
    by (vm_compute; reflexivity).
  split; [exact H|]. rewrite H. cbn [drawW drawH].
  intros [_ Hh]. discriminate Hh.
Qed.

(** An image of width 0 in a viewport of width 0: 0/0 is NaN and so is
    every number of the rectangle. *)
Example displayTransform_zero_by_zero :
  displayTransform 0 200 0 100 = mkDisplayRect NaN NaN NaN NaN NaN.
Proof. vm_compute. reflexivity. Qed.

(** [Math.min] with a zero among numbers that are not negative (an
    overflowed quotient being +Infinity). *)
Lemma min2_zero_l (z : Q) (b : jsnum) :
  (z == 0)%Q -> (b = PosInf \/ exists r, b = Fin r /\ (0 <= r)%Q) ->
  exists s, min2 (Fin z) b = Fin s /\ (s == 0)%Q.
Proof.
  intros Hz [-> | (r & -> & Hr)].
  - exists z. split; [reflexivity | exact Hz].
  - destruct (min2_finite z r) as (s & Hs & Hsz & Hsr & [-> | ->]).
    + exists z. split; [exact Hs | exact Hz].
    + exists r. split; [exact Hs|]. lra.
Qed.

Lemma min2_zero_r (z : Q) (a : jsnum) :
  (z == 0)%Q -> (a = PosInf \/ exists r, a = Fin r /\ (0 <= r)%Q) ->
  exists s, min2 a (Fin z) = Fin s /\ (s == 0)%Q.
Proof.
  intros Hz [-> | (r & -> & Hr)].
  - exists z. split; [reflexivity | exact Hz].
  - destruct (min2_finite r z) as (s & Hs & Hsr & Hsz & [-> | ->]).
    + exists r. split; [exact Hs|]. lra.
    + exists z. split; [exact Hs | exact Hz].
Qed.

(** The quotient of a size that is not negative by a positive one. *)
Lemma quotient_nonneg (V W : Z) :
  0 <= V -> 0 < W ->
  fl (inject_Z V / inject_Z W) = PosInf
  \/ exists r, fl (inject_Z V / inject_Z W) = Fin r /\ (0 <= r)%Q.
Proof.
  intros HV HW. apply fl_nonneg.
  apply Qle_shift_div_l; [apply inject_Z_pos, HW|].
  rewrite Qmult_0_l. apply inject_Z_nonneg, HV.
Qed.

Lemma quotient_zero (W : Z) :
  0 < W -> exists z, fl (inject_Z 0 / inject_Z W) = Fin z /\ (z == 0)%Q.
Proof.
  intros HW. exists (inject_Z 0 / inject_Z W)%Q.
  assert (Hz : (inject_Z 0 / inject_Z W == 0)%Q).
  { unfold Qdiv. apply Qmult_0_l. }
  split; [|exact Hz].
  apply fl_exact. rewrite (exact64_comp _ 0 Hz). reflexivity.
Qed.

(** A product with a scale that is zero. *)
Lemma product_zero (W : Z) (s : Q) :
  (s == 0)%Q -> round (mul (of_Z W) (Fin s)) = of_Z 0.
Proof.
  intros Hs.
  assert (Hz : (inject_Z W * s == 0)%Q) by (rewrite Hs; apply Qmult_0_r).
  change (mul (of_Z W) (Fin s)) with (fl (inject_Z W * s)).
  rewrite fl_exact by (rewrite (exact64_comp _ 0 Hz); reflexivity).
  unfold round. rewrite (Qround_half_up_comp _ 0 Hz). reflexivity.
Qed.

(** C8 (as the code has it).  The transform is a total function: a
    division by zero yields an infinity or NaN and nothing faults.  When
    the viewport has a zero side and the image has positive sides, the
    scale is 0 and drawW = drawH = 0. *)
Theorem displayTransform_zero_viewport (Wi Hi Wv Hv : Z) :
  0 < Wi -> 0 < Hi -> 0 <= Wv -> 0 <= Hv -> Wv = 0 \/ Hv = 0 ->
  exists s : Q,
    scale (displayTransform Wv Hv Wi Hi) = Fin s /\ (s == 0)%Q
    /\ drawW (displayTransform Wv Hv Wi Hi) = of_Z 0
    /\ drawH (displayTransform Wv Hv Wi Hi) = of_Z 0.
Proof.
  intros HWi HHi HWv HHv Hzero.
  assert (Hscale : exists s,
            min3 (fl (inject_Z Wv / inject_Z Wi)) (fl (inject_Z Hv / inject_Z Hi))
                 (of_Z 1) = Fin s /\ (s == 0)%Q).
  { unfold min3.
    assert (H0 : exists s0,
              min2 (fl (inject_Z Wv / inject_Z Wi)) (fl (inject_Z Hv / inject_Z Hi))
              = Fin s0 /\ (s0 == 0)%Q).
    { destruct Hzero as [-> | ->].
      - destruct (quotient_zero Wi HWi) as (z & -> & Hz).
        apply min2_zero_l; [exact Hz | apply quotient_nonneg; assumption].
      - destruct (quotient_zero Hi HHi) as (z & -> & Hz).
        apply min2_zero_r; [exact Hz | apply quotient_nonneg; assumption]. }
    destruct H0 as (s0 & -> & Hs0).
    apply min2_zero_l; [exact Hs0|]. right. exists (inject_Z 1).
    split; [reflexivity | discriminate]. }
  destruct Hscale as (s & Hs & Hs0).
  unfold displayTransform. cbv zeta. cbn [scale drawW drawH].
  rewrite !div_of_Z by assumption. rewrite Hs.
  exists s. rewrite !product_zero by exact Hs0. auto.
Qed.

Lemma displayTransform_zero_viewport_witness :
  exists s : Q,
    scale (displayTransform 0 200 30 100) = Fin s /\ (s == 0)%Q
    /\ drawW (displayTransform 0 200 30 100) = of_Z 0
    /\ drawH (displayTransform 0 200 30 100) = of_Z 0.
Proof. apply (displayTransform_zero_viewport 30 100 0 200); lia. Defined.

(** ** Loops and typed arrays *)

Ltac Zify.zify_post_hook ::= Z.to_euclidean_division_equations.

Lemma length_range (n : Z) : length (range n) = Z.to_nat n.
Proof. unfold range. rewrite length_map, length_seq. reflexivity. Qed.

Lemma lookup_range (n : Z) (i : nat) :
  (i < Z.to_nat n)%nat -> range n !! i = Some (Z.of_nat i).
Proof.
  intros Hi. unfold range. rewrite list_lookup_fmap, lookup_seq_lt by exact Hi.
  reflexivity.
Qed.

Lemma range_succ (n : Z) : 0 <= n -> range (n + 1) = range n ++ [n].
Proof.
  intros Hn. unfold range.
  replace (Z.to_nat (n + 1)) with (S (Z.to_nat n)) by lia.
  rewrite seq_S, map_app. cbn. rewrite Z2Nat.id by exact Hn. reflexivity.
Qed.

Lemma for_range_0 {S : Type} (body : Z -> S -> S) (s0 : S) :
  for_range 0 body s0 = s0.
Proof. reflexivity. Qed.

Lemma for_range_succ {S : Type} (n : Z) (body : Z -> S -> S) (s0 : S) :
  0 <= n -> for_range (n + 1) body s0 = body n (for_range n body s0).
Proof.
  intros Hn. unfold for_range. rewrite range_succ by exact Hn.
  rewrite fold_left_app. reflexivity.
Qed.

Lemma length_typed_set (buf : list Z) (i v : Z) :
  length (typed_set buf i v) = length buf.
Proof. unfold typed_set. destruct (0 <=? i); [apply length_insert|reflexivity]. Qed.

Lemma lookup_typed_set (buf : list Z) (i v : Z) (j : nat) :
  0 <= i -> (Z.to_nat i < length buf)%nat ->
  typed_set buf i v !! j = if decide (j = Z.to_nat i) then Some v else buf !! j.
Proof.
  intros Hi Hlen. unfold typed_set.
  destruct (Z.leb_spec 0 i); [|lia].
  case_decide as Hj.
  - subst j. apply list_lookup_insert_eq. exact Hlen.
  - apply list_lookup_insert_ne. congruence.
Qed.

(** Row and column of the pixel a byte index belongs to. *)
Lemma pixel_of_index (w y x j : Z) :
  0 <= x < w -> 0 <= y -> 0 <= j ->
  (j / 4 = y * w + x <-> (j / 4) / w = y /\ (j / 4) mod w = x).
Proof.
  intros Hx Hy Hj. split.
  - intros ->. split.
    + rewrite Z.div_add_l by lia. rewrite Z.div_small by lia. lia.
    + rewrite Z.add_comm, Z.mod_add by lia. apply Z.mod_small. lia.
  - intros [<- <-]. rewrite Z.mul_comm. apply Z.div_mod. lia.
Qed.

(** ** The rasterizer's loops *)

Section Rasterizer.

Variable r : DisplayRect.
Variables Wv Hv w h : Z.
Variable maskData : list Z.
Hypothesis w_pos : 0 < w.
Hypothesis h_pos : 0 < h.

Local Abbreviation paint := (Client.paintPixel r Wv Hv w maskData).
Local Abbreviation cov := (covered r Wv Hv maskData).

Lemma paintPixel_covered (y x : Z) (data : list Z) :
  paint y x data =
  if cov y x
  then let idx := (y * w + x) * 4 in
       typed_set (typed_set (typed_set (typed_set data idx 255) (idx + 1) 255)
                            (idx + 2) 255) (idx + 3) 255
  else data.
Proof.
  unfold Client.paintPixel, covered. cbv zeta.
  destruct (geb _ _ && ltb _ _ && geb _ _ && ltb _ _); reflexivity.
Qed.

Lemma length_paintPixel (y x : Z) (data : list Z) :
  length (paint y x data) = length data.
Proof.
  rewrite paintPixel_covered. destruct (cov y x); [|reflexivity].
  cbv zeta. rewrite !length_typed_set. reflexivity.
Qed.

(** One step of the scan changes the four bytes of its own pixel, and
    only when the pixel is covered. *)
Lemma lookup_paintPixel (y x : Z) (data : list Z) (j : nat) :
  0 <= x < w -> 0 <= y < h -> length data = Z.to_nat (w * h * 4) ->
  paint y x data !! j =
  if cov y x && (Z.of_nat j / 4 =? y * w + x) then Some 255 else data !! j.
Proof.
  intros Hx Hy Hlen.
  assert (Hp : 0 <= y * w + x < w * h) by nia.
  rewrite paintPixel_covered. destruct (cov y x); [|reflexivity].
  cbv zeta.
  rewrite !lookup_typed_set by (rewrite ?length_typed_set; lia).
  cbn [andb].
  destruct (Z.eqb_spec (Z.of_nat j / 4) (y * w + x)) as [He | He];
    repeat case_decide; try reflexivity; exfalso; lia.
Qed.

(** The inner loop over the first [n] columns of row [y]. *)
Lemma lookup_row_scan (y n : Z) (data : list Z) (j : nat) :
  0 <= y < h -> 0 <= n <= w -> length data = Z.to_nat (w * h * 4) ->
  let out := for_range n (fun x d => paint y x d) data in
  length out = length data
  /\ out !! j =
     if ((Z.of_nat j / 4) / w =? y) && ((Z.of_nat j / 4) mod w <? n)
        && cov y ((Z.of_nat j / 4) mod w)
     then Some 255 else data !! j.
Proof.
  intros Hy [Hn0 Hnw] Hlen. revert Hnw.
  pattern n. apply natlike_ind; [| |exact Hn0]; clear n Hn0.
  - intros _. cbv zeta. rewrite for_range_0. split; [reflexivity|].
    destruct (Z.ltb_spec ((Z.of_nat j / 4) mod w) 0) as [Hlt | _].
    + exfalso. pose proof (Z.mod_pos_bound (Z.of_nat j / 4) w w_pos). lia.
    + rewrite andb_false_r. reflexivity.
  - intros n Hn0 IH Hnw. cbv zeta. change (Z.succ n) with (n + 1) in *.
    unfold Z.succ in *.
    destruct IH as [IHlen IH]; [lia|].
    rewrite for_range_succ by exact Hn0. split.
    + rewrite length_paintPixel. exact IHlen.
    + rewrite lookup_paintPixel by (try rewrite IHlen; lia || assumption).
      rewrite IH.
      pose proof (pixel_of_index w y n (Z.of_nat j)) as Hpix.
      destruct (Z.eqb_spec (Z.of_nat j / 4) (y * w + n)) as [He | He].
      * apply Hpix in He; [|lia ..]. destruct He as [He1 He2].
        rewrite He1, He2, Z.eqb_refl.
        destruct (Z.ltb_spec n (n + 1)) as [_ | ?]; [|lia].
        destruct (Z.ltb_spec n n) as [? | _]; [lia|].
        cbn [andb]. rewrite andb_true_r. destruct (cov y n); reflexivity.
      * rewrite andb_false_r.
        destruct (Z.eqb_spec ((Z.of_nat j / 4) / w) y) as [Hr | Hr]; [|reflexivity].
        cbn [andb].
        destruct (Z.ltb_spec ((Z.of_nat j / 4) mod w) n) as [Hc | Hc].
        -- destruct (Z.ltb_spec ((Z.of_nat j / 4) mod w) (n + 1)); [reflexivity|lia].
        -- destruct (Z.ltb_spec ((Z.of_nat j / 4) mod w) (n + 1)) as [Hc' | Hc'];
             [|reflexivity].
           exfalso. apply He, Hpix; lia.
Qed.

(** The outer loop over the first [m] rows. *)
Lemma lookup_scan (m : Z) (data : list Z) (j : nat) :
  0 <= m <= h -> length data = Z.to_nat (w * h * 4) ->
  let out := for_range m (fun y d => for_range w (fun x d' => paint y x d') d) data in
  length out = length data
  /\ out !! j =
     if ((Z.of_nat j / 4) / w <? m)
        && cov ((Z.of_nat j / 4) / w) ((Z.of_nat j / 4) mod w)
     then Some 255 else data !! j.
Proof.
  intros [Hm0 Hmh] Hlen. revert Hmh.
  pattern m. apply natlike_ind; [| |exact Hm0]; clear m Hm0.
  - intros _. cbv zeta. rewrite for_range_0. split; [reflexivity|].
    destruct (Z.ltb_spec ((Z.of_nat j / 4) / w) 0) as [Hlt | _]; [|reflexivity].
    exfalso. pose proof (Z.div_pos (Z.of_nat j / 4) w). lia.
  - intros m Hm0 IH Hmh. cbv zeta. unfold Z.succ in *.
    destruct IH as [IHlen IH]; [lia|].
    rewrite for_range_succ by exact Hm0.
    destruct (lookup_row_scan m w
                (for_range m (fun y d => for_range w (fun x d' => paint y x d') d) data) j)
      as [Hlen' Hrow]; [lia | lia | rewrite IHlen; exact Hlen |].
    split; [rewrite Hlen'; exact IHlen|].
    rewrite Hrow, IH.
    pose proof (Z.mod_pos_bound (Z.of_nat j / 4) w w_pos) as Hmod.
    destruct (Z.ltb_spec ((Z.of_nat j / 4) mod w) w) as [_ | ?]; [|lia].
    rewrite andb_true_r.
    destruct (Z.eqb_spec ((Z.of_nat j / 4) / w) m) as [He | He].
    + rewrite He.
      destruct (Z.ltb_spec m (m + 1)) as [_ | ?]; [|lia].
      destruct (Z.ltb_spec m m) as [? | _]; [lia|].
      cbn [andb]. reflexivity.
    + cbn [andb].
      destruct (Z.ltb_spec ((Z.of_nat j / 4) / w) m);
        destruct (Z.ltb_spec ((Z.of_nat j / 4) / w) (m + 1)); try reflexivity; lia.
Qed.

End Rasterizer.

(** ** Image data *)

Lemma getImageData_positive (c : Canvas) (sw sh : Z) :
  0 < sw -> 0 < sh ->
  getImageData c sw sh
  = Some (mkImageData sw sh (map (image_data_byte c sw) (range (sw * sh * 4)))).
Proof.
  intros Hw Hh. unfold getImageData.
  destruct (Z.eqb_spec sw 0); [lia|]. destruct (Z.eqb_spec sh 0); [lia|].
  reflexivity.
Qed.

(** Splitting a byte index of a [w]-wide image into column, row, channel. *)
Lemma index_split (w h i : Z) :
  0 < w -> 0 <= i < w * h * 4 ->
  0 <= (i / 4) mod w < w /\ 0 <= (i / 4) / w < h
  /\ ((i / 4) / w * w + (i / 4) mod w) * 4 + i mod 4 = i.
Proof.
  intros Hw Hi.
  assert (H4 : 0 <= i / 4 < w * h) by lia.
  split; [apply Z.mod_pos_bound; exact Hw|]. split.
  - split; [apply Z.div_pos; lia|].
    apply Z.div_lt_upper_bound; lia.
  - pose proof (Z.div_mod (i / 4) w). lia.
Qed.

(** Joining column, row and channel into a byte index. *)
Lemma index_join (w x y k : Z) :
  0 <= x < w -> 0 <= y -> 0 <= k < 4 ->
  let i := (y * w + x) * 4 + k in
  (i / 4) mod w = x /\ (i / 4) / w = y /\ i mod 4 = k.
Proof.
  intros Hx Hy Hk. cbv zeta.
  assert (H4 : ((y * w + x) * 4 + k) / 4 = y * w + x) by lia.
  rewrite H4. split; [|split; [|lia]].
  - rewrite Z.add_comm, Z.mod_add by lia. apply Z.mod_small. lia.
  - rewrite Z.div_add_l by lia. rewrite Z.div_small by lia. lia.
Qed.

Lemma lookup_image_data (c : Canvas) (sw sh x y k : Z) :
  0 <= x < sw -> 0 <= y < sh -> 0 <= k < 4 ->
  map (image_data_byte c sw) (range (sw * sh * 4)) !! Z.to_nat ((y * sw + x) * 4 + k)
  = Some (canvas_byte c x y k).
Proof.
  intros Hx Hy Hk.
  assert (Hi : 0 <= (y * sw + x) * 4 + k < sw * sh * 4) by nia.
  rewrite list_lookup_fmap, lookup_range by lia.
  cbn. rewrite Z2Nat.id by lia. unfold image_data_byte.
  destruct (index_join sw x y k) as (-> & -> & ->); try lia. reflexivity.
Qed.

(** Reading back the freshly filled temporary canvas gives its store. *)
Lemma image_data_blackCanvas (w h : Z) :
  0 < w ->
  map (image_data_byte (blackCanvas w h) w) (range (w * h * 4))
  = c_data (blackCanvas w h).
Proof.
  intros Hw. cbn [blackCanvas c_data].
  apply list_eq. intros j. rewrite !list_lookup_fmap.
  destruct (range (w * h * 4) !! j) as [i|] eqn:Hj; [|reflexivity].
  cbn. f_equal.
  assert (Hjlt : (j < Z.to_nat (w * h * 4))%nat).
  { rewrite <- length_range. eapply lookup_lt_Some, Hj. }
  rewrite lookup_range in Hj by exact Hjlt. injection Hj as <-.
  destruct (index_split w h (Z.of_nat j)) as (Hx & Hy & Hsum); [lia | lia |].
  unfold image_data_byte, canvas_byte. cbn [blackCanvas c_width c_height c_data].
  destruct (Z.leb_spec 0 ((Z.of_nat j / 4) mod w)); [|lia].
  destruct (Z.ltb_spec ((Z.of_nat j / 4) mod w) w); [|lia].
  destruct (Z.leb_spec 0 ((Z.of_nat j / 4) / w)); [|lia].
  destruct (Z.ltb_spec ((Z.of_nat j / 4) / w) h); [|lia].
  cbn [andb]. rewrite Hsum, Nat2Z.id.
  rewrite list_lookup_fmap, lookup_range by exact Hjlt. reflexivity.
Qed.

Lemma lookup_blackCanvas (w h : Z) (j : nat) :
  (j < Z.to_nat (w * h * 4))%nat ->
  c_data (blackCanvas w h) !! j = Some (if Z.of_nat j mod 4 =? 3 then 255 else 0).
Proof.
  intros Hj. cbn [blackCanvas c_data].
  rewrite list_lookup_fmap, lookup_range by exact Hj. reflexivity.
Qed.

(** ** The loop's test, read on the canvas *)

(** A rounded number is an integer, or it fails the loop's range test. *)
Lemma round_cases (a : jsnum) :
  (exists d : Z, round a = of_Z d)
  \/ (as_Z (round a) = None
      /\ forall W : Z, geb (round a) (of_Z 0) && ltb (round a) (of_Z W) = false).
Proof.
  destruct a as [| | |q].
  - right. split; [reflexivity | intros W; reflexivity].
  - right. split; [reflexivity | intros W; reflexivity].
  - right. split; [reflexivity | intros W; reflexivity].
  - left. exists (Qround_half_up q). reflexivity.
Qed.

Lemma covered_selected (r : DisplayRect) (mask : Canvas) (Wv Hv : Z) (x y : Z) :
  0 < Wv -> 0 < Hv ->
  covered r Wv Hv (map (image_data_byte mask Wv) (range (Wv * Hv * 4))) y x
  = selected mask Wv Hv r x y.
Proof.
  intros HWv HHv. unfold covered, selected, displayCoord. cbv zeta.
  set (a := add (mul (of_Z x) (scale r)) (offsetX r)).
  set (b := add (mul (of_Z y) (scale r)) (offsetY r)).
  destruct (round_cases a) as [[dx ->] | [-> Ha]]; [|rewrite Ha; reflexivity].
  rewrite as_Z_of_Z.
  destruct (round_cases b) as [[dy ->] | [-> Hb]].
  - rewrite as_Z_of_Z.
    rewrite !geb_of_Z, !ltb_of_Z, !mul_of_Z, !add_of_Z, !mul_of_Z, !add_of_Z.
    destruct (Z.leb_spec 0 dx); [|reflexivity].
    destruct (Z.ltb_spec dx Wv); [|reflexivity].
    destruct (Z.leb_spec 0 dy); [|reflexivity].
    destruct (Z.ltb_spec dy Hv); [|reflexivity].
    cbn [andb]. unfold typed_get. rewrite to_index_of_Z.
    destruct (Z.leb_spec 0 ((dy * Wv + dx) * 4 + 3)); [|nia].
    rewrite lookup_image_data by lia. reflexivity.
  - rewrite <- !andb_assoc.
    rewrite (andb_assoc (geb (round b) (of_Z 0))), Hb.
    cbn [andb]. rewrite !andb_false_r. reflexivity.
Qed.

(** ** The rasterized mask *)

(** The scan over an opaque black buffer leaves, at each native pixel,
    opaque white where the loop's test holds and opaque black elsewhere. *)
Lemma rasterize_pixels (r : DisplayRect) (Wv Hv w h : Z) (maskData : list Z) :
  0 < w -> 0 < h ->
  let out := Client.rasterize r Wv Hv w h maskData (c_data (blackCanvas w h)) in
  length out = Z.to_nat (w * h * 4)
  /\ forall x y, 0 <= x < w -> 0 <= y < h ->
       pixel_at out w x y
       = Some (if covered r Wv Hv maskData y x then opaque_white else opaque_black).
Proof.
  intros Hw Hh. cbv zeta.
  assert (Hlen : length (c_data (blackCanvas w h)) = Z.to_nat (w * h * 4)).
  { cbn [blackCanvas c_data]. rewrite length_map, length_range. reflexivity. }
  assert (Hscan := fun j =>
    lookup_scan r Wv Hv w h maskData Hw Hh h (c_data (blackCanvas w h)) j
                ltac:(lia) Hlen).
  cbv zeta in Hscan. unfold Client.rasterize. split.
  - destruct (Hscan 0%nat) as [-> _]. exact Hlen.
  - intros x y Hx Hy.
    assert (Hbyte : forall k : nat, (k < 4)%nat ->
      for_range h (fun y0 d => for_range w
        (fun x0 d' => Client.paintPixel r Wv Hv w maskData y0 x0 d') d)
        (c_data (blackCanvas w h)) !! (Z.to_nat ((y * w + x) * 4) + k)%nat
      = Some (if covered r Wv Hv maskData y x then 255
              else if (k =? 3)%nat then 255 else 0)).
    { intros k Hk. destruct (Hscan (Z.to_nat ((y * w + x) * 4) + k)%nat) as [_ ->].
      assert (Hj : Z.of_nat (Z.to_nat ((y * w + x) * 4) + k) = (y * w + x) * 4 + Z.of_nat k)
        by nia.
      rewrite Hj.
      destruct (index_join w x y (Z.of_nat k)) as (-> & -> & Hmod); try lia.
      destruct (Z.ltb_spec y h); [|lia]. cbn [andb].
      destruct (covered r Wv Hv maskData y x); [reflexivity|].
      rewrite lookup_blackCanvas by nia. rewrite Hj, Hmod.
      do 4 (destruct k as [|k]; [reflexivity|]). lia. }
    unfold pixel_at. cbv zeta.
    rewrite <- (Nat.add_0_r (Z.to_nat ((y * w + x) * 4))) at 1.
    rewrite !Hbyte by lia. cbn [Nat.eqb].
    destruct (covered r Wv Hv maskData y x); reflexivity.
Qed.

(** C1.  With an image of positive native size Wi x Hi loaded and a
    viewport of positive size Wv x Hv, the rasterizer returns a Wi x Hi
    canvas (whose PNG [generateMaskDataUrl] returns) in which the native
    pixel (x, y) is opaque white (255,255,255,255) exactly when its display
    coordinate (round(x*scale+offsetX), round(y*scale+offsetY)), computed
    in binary64 from the numbers of the display transform as the loop
    does, lies in [0,Wv) x [0,Hv) and the mask canvas has non-zero alpha
    there, and is opaque black (0,0,0,255) otherwise. *)
Theorem generateMaskDataUrl_binary_mask (B : Browser) (p : Page) (img : Image) :
  loadedImage (session p) = Some img ->
  0 < naturalWidth img -> 0 < naturalHeight img ->
  0 < wrapperW (dom p) -> 0 < wrapperH (dom p) ->
  exists out : list Z,
    let Wi := naturalWidth img in
    let Hi := naturalHeight img in
    let Wv := wrapperW (dom p) in
    let Hv := wrapperH (dom p) in
    Client.nativeMaskCanvas p = (inr (mkCanvas Wi Hi out), p)
    /\ Client.generateMaskDataUrl B p = (inr (toDataURL_png B (mkCanvas Wi Hi out)), p)
    /\ length out = Z.to_nat (Wi * Hi * 4)
    /\ forall x y, 0 <= x < Wi -> 0 <= y < Hi ->
         pixel_at out Wi x y
         = Some (if selected (maskCanvas (dom p)) Wv Hv
                      (displayTransform Wv Hv Wi Hi) x y
                 then opaque_white else opaque_black).
Proof.
  intros Himg HWi HHi HWv HHv.
  set (r := displayTransform (wrapperW (dom p)) (wrapperH (dom p))
              (naturalWidth img) (naturalHeight img)) in *.
  set (maskData := map (image_data_byte (maskCanvas (dom p)) (wrapperW (dom p)))
                       (range (wrapperW (dom p) * wrapperH (dom p) * 4))).
  destruct (rasterize_pixels r (wrapperW (dom p)) (wrapperH (dom p))
              (naturalWidth img) (naturalHeight img) maskData HWi HHi)
    as [Hlen Hpix].
  exists (Client.rasterize r (wrapperW (dom p)) (wrapperH (dom p))
       (naturalWidth img) (naturalHeight img) maskData
       (c_data (blackCanvas (naturalWidth img) (naturalHeight img)))).
  cbv zeta.
  assert (Hcanvas : Client.nativeMaskCanvas p
            = (inr (mkCanvas (naturalWidth img) (naturalHeight img)
                 (Client.rasterize r (wrapperW (dom p)) (wrapperH (dom p))
                    (naturalWidth img) (naturalHeight img) maskData
                    (c_data (blackCanvas (naturalWidth img) (naturalHeight img))))), p)).
  { unfold Client.nativeMaskCanvas, Client.bind, Client.get.
    rewrite Himg. unfold Client.getImageDataJs.
    rewrite !getImageData_positive by assumption.
    unfold Client.ret. cbn [id_data].
    rewrite image_data_blackCanvas by assumption. reflexivity. }
  repeat split; try assumption.
  - unfold Client.generateMaskDataUrl, Client.bind. rewrite Hcanvas. reflexivity.
  - intros x y Hx Hy. rewrite Hpix by assumption.
    unfold maskData. rewrite (covered_selected r) by assumption.
    reflexivity.
Qed.

Lemma generateMaskDataUrl_binary_mask_witness :
  exists out : list Z,
    Client.nativeMaskCanvas (Demo.page true) = (inr (mkCanvas 4 2 out), Demo.page true)
    /\ Client.generateMaskDataUrl (Demo.browser 17) (Demo.page true)
       = (inr (toDataURL_png (Demo.browser 17) (mkCanvas 4 2 out)), Demo.page true)
    /\ length out = Z.to_nat (4 * 2 * 4)
    /\ forall x y, 0 <= x < 4 -> 0 <= y < 2 ->
         pixel_at out 4 x y
         = Some (if selected Demo.mask_canvas 2 2 (displayTransform 2 2 4 2) x y
                 then opaque_white else opaque_black).
Proof.
  apply (generateMaskDataUrl_binary_mask (Demo.browser 17) (Demo.page true) (mkImage 4 2));
    [reflexivity | cbn; lia ..].
Defined.

(** On that page the image is drawn at half size, one display row down:
    the native pixel (0, 0) lands on the painted display pixel (0, 1) and
    is the only white one. *)
Example nativeMaskCanvas_demo :
  Client.nativeMaskCanvas (Demo.page true)
  = (inr (mkCanvas 4 2
       [255; 255; 255; 255;  0; 0; 0; 255;  0; 0; 0; 255;  0; 0; 0; 255;
        0; 0; 0; 255;  0; 0; 0; 255;  0; 0; 0; 255;  0; 0; 0; 255]),
     Demo.page true).
Proof. vm_compute. reflexivity. Qed.

(** An image of 22 x 1 in a viewport of 15 x 1, painted at the display
    column 7 only: the scale is the rounded 15/22, the native columns 10
    and 11 both land on column 7 (11 times the scale falls just below
    7.5) and are white, their neighbours are black. *)
Example nativeMaskCanvas_22x1_in_15x1 :
  match fst (Client.nativeMaskCanvas
               (mkPage
                  (mkSession (Some (mkImage 22 1)) "photo.png" false 30 true
                     (mkImageRect (of_Z 0) (of_Z 0) (of_Z 15) (of_Z 1)))
                  (mkDom 15 1
                     (mkCanvas 15 1 (map (fun i => if i =? 31 then 102 else 0) (range 60)))
                     "Image loaded: 22x1" "status-bar" false "Confirm Mask")
                  [] [])) with
  | inr c =>
      map (fun x => pixel_at (c_data c) 22 x 0) [9; 10; 11; 12]
      = [Some opaque_black; Some opaque_white; Some opaque_white; Some opaque_black]
  | inl _ => False
  end.
Proof. vm_compute. reflexivity. Qed.

(** With a wrapper (or an image) that has a zero side, [getImageData]
    throws and no mask is produced. *)
Lemma nativeMaskCanvas_zero_side (p : Page) (img : Image) :
  loadedImage (session p) = Some img ->
  wrapperW (dom p) = 0 \/ wrapperH (dom p) = 0
  \/ naturalWidth img = 0 \/ naturalHeight img = 0 ->
  Client.nativeMaskCanvas p = (inl "IndexSizeError"%string, p).
Proof.
  intros Himg Hzero.
  unfold Client.nativeMaskCanvas, Client.bind, Client.get, Client.getImageDataJs.
  rewrite Himg. unfold getImageData.
  destruct (Z.eqb_spec (wrapperW (dom p)) 0); [reflexivity|].
  destruct (Z.eqb_spec (wrapperH (dom p)) 0); [reflexivity|].
  cbn [orb Client.ret].
  destruct (Z.eqb_spec (naturalWidth img) 0); [reflexivity|].
  destruct (Z.eqb_spec (naturalHeight img) 0); [reflexivity|].
  exfalso. tauto.
Qed.

(** ** The rasterizer reads the page and leaves it as it was *)

Lemma nativeMaskCanvas_page (p : Page) : snd (Client.nativeMaskCanvas p) = p.
Proof.
  unfold Client.nativeMaskCanvas, Client.bind, Client.get, Client.getImageDataJs.
  destruct (loadedImage (session p)) as [img|]; [|reflexivity].
  destruct (getImageData (maskCanvas (dom p)) _ _); [|reflexivity].
  destruct (getImageData (blackCanvas _ _) _ _); reflexivity.
Qed.

Lemma generateMaskDataUrl_page (B : Browser) (p : Page) :
  snd (Client.generateMaskDataUrl B p) = p.
Proof.
  unfold Client.generateMaskDataUrl, Client.bind.
  pose proof (nativeMaskCanvas_page p) as H.
  destruct (Client.nativeMaskCanvas p) as [[e | c] p']; cbn in *; exact H.
Qed.

(** C9.  Running the rasterization twice in a row, the second run starting
    from the page the first one left, gives the same native mask (and the
    same data URL, or the same error) both times, and the page, with its
    mask canvas, wrapper size and image, is left unchanged by each run. *)
Theorem rasterization_repeatable (B : Browser) (p : Page) :
  let first := Client.nativeMaskCanvas p in
  let second := Client.nativeMaskCanvas (snd first) in
  let first_url := Client.generateMaskDataUrl B p in
  let second_url := Client.generateMaskDataUrl B (snd first_url) in
  snd first = p /\ snd second = p /\ fst second = fst first
  /\ snd first_url = p /\ snd second_url = p /\ fst second_url = fst first_url.
Proof.
  cbv zeta. rewrite !nativeMaskCanvas_page, !generateMaskDataUrl_page.
  repeat split; reflexivity.
Qed.

(** ** The confirm button *)

(** C4.  A click on the confirm button while no image is loaded or while
    [hasMaskContent] is false returns at once: no server call is made, the
    session variables are unchanged, and the status bar shows the error
    "Paint a selection on the image first"; nothing else on the page
    changes. *)
Theorem confirmClick_without_selection (B : Browser) (p : Page) :
  loadedImage (session p) = None \/ hasMaskContent (session p) = false ->
  exists p',
    Client.confirmClick B p = (inr tt, p')
    /\ session p' = session p
    /\ serverCalls p' = serverCalls p
    /\ console p' = console p
    /\ statusText (dom p') = "Paint a selection on the image first"%string
    /\ statusClass (dom p') = "status-bar error"%string
    /\ wrapperW (dom p') = wrapperW (dom p)
    /\ wrapperH (dom p') = wrapperH (dom p)
    /\ maskCanvas (dom p') = maskCanvas (dom p)
    /\ confirmDisabled (dom p') = confirmDisabled (dom p)
    /\ confirmText (dom p') = confirmText (dom p).
Proof.
  intros Hguard.
  assert (Htest : negb (bool_decide (is_Some (loadedImage (session p))))
                  || negb (hasMaskContent (session p)) = true).
  { destruct Hguard as [-> | ->].
    - reflexivity.
    - apply orb_true_r. }
  unfold Client.confirmClick, Client.bind at 1, Client.get.
  rewrite Htest.
  eexists. split; [reflexivity|].
  cbn. repeat split; reflexivity.
Qed.

Lemma confirmClick_without_selection_witness :
  exists p',
    Client.confirmClick (Demo.browser 17) (Demo.page false) = (inr tt, p')
    /\ session p' = session (Demo.page false)
    /\ serverCalls p' = serverCalls (Demo.page false)
    /\ console p' = console (Demo.page false)
    /\ statusText (dom p') = "Paint a selection on the image first"%string
    /\ statusClass (dom p') = "status-bar error"%string
    /\ wrapperW (dom p') = wrapperW (dom (Demo.page false))
    /\ wrapperH (dom p') = wrapperH (dom (Demo.page false))
    /\ maskCanvas (dom p') = maskCanvas (dom (Demo.page false))
    /\ confirmDisabled (dom p') = confirmDisabled (dom (Demo.page false))
    /\ confirmText (dom p') = confirmText (dom (Demo.page false)).
Proof.
  apply (confirmClick_without_selection (Demo.browser 17) (Demo.page false)).
  right. reflexivity.
Defined.

(** With an image loaded and paint on the mask, the same click does reach
    the server: one [save-mask] call carrying the file name, and the
    status bar reports the saved path. *)
Example confirmClick_with_selection :
  let p' := snd (Client.confirmClick (Demo.browser 17) (Demo.page true)) in
  map (fun c => (call_name c, call_originalFileName c)) (serverCalls p')
    = [("save-mask", "photo.png")]%string
  /\ statusText (dom p')
     = "Mask saved: /srv/mask-editor/output/photo_mask_17.png"%string
  /\ statusClass (dom p') = "status-bar success"%string
  /\ confirmDisabled (dom p') = false.
Proof. vm_compute. auto. Qed.

(** ** The two regular expressions *)

Section PatternFacts.

Local Open Scope string_scope.

Lemma append_assoc (a b c : string) : (a ++ b) ++ c = a ++ (b ++ c).
Proof. induction a as [|x a IH]; cbn; [reflexivity|]. rewrite IH. reflexivity. Qed.

Lemma strip_literal_app (lit s : string) : strip_literal lit (lit ++ s) = Some s.
Proof.
  induction lit as [|a lit IH]; cbn; [reflexivity|].
  rewrite Ascii.eqb_refl. exact IH.
Qed.

Lemma strip_literal_inv (lit s rest : string) :
  strip_literal lit s = Some rest -> s = lit ++ rest.
Proof.
  revert s. induction lit as [|a lit IH]; intros s H; cbn in *.
  - congruence.
  - destruct s as [|b s]; [discriminate|].
    destruct (Ascii.eqb_spec a b) as [-> | _]; [|discriminate].
    rewrite (IH s H). reflexivity.
Qed.

Lemma span_word_inv (s run rest : string) :
  span_word s = (run, rest) ->
  s = run ++ rest /\ forall_chars is_word_char run = true.
Proof.
  revert run rest. induction s as [|c s IH]; intros run rest H; cbn in H.
  - injection H as <- <-. split; reflexivity.
  - destruct (is_word_char c) eqn:Hc.
    + destruct (span_word s) as [run' rest'] eqn:Hs.
      injection H as <- <-. destruct (IH run' rest' eq_refl) as [-> Hrun].
      split; [reflexivity|]. cbn. rewrite Hc. exact Hrun.
    + injection H as <- <-. split; reflexivity.
Qed.

(** A run of word characters followed by a semicolon is found whole. *)
Lemma span_word_app (run rest : string) :
  forall_chars is_word_char run = true ->
  span_word (run ++ String ";" rest) = (run, String ";" rest).
Proof.
  induction run as [|c run IH]; intros H; cbn in *.
  - reflexivity.
  - apply andb_prop in H. destruct H as [Hc Hrun].
    rewrite Hc, (IH Hrun). reflexivity.
Qed.

Lemma eqb_empty (s : string) : String.eqb s EmptyString = false <-> s <> EmptyString.
Proof.
  destruct s; cbn; split; intros H; try congruence; try discriminate.
Qed.

Lemma match_prefix_app (ext rest : string) :
  word_string ext -> match_prefix (data_url_prefix ext ++ rest) = Some (ext, rest).
Proof.
  intros [Hne Hw]. unfold match_prefix, data_url_prefix.
  rewrite !append_assoc, strip_literal_app.
  change (";base64," ++ rest) with (String ";" ("base64," ++ rest)).
  rewrite span_word_app by exact Hw.
  apply eqb_empty in Hne. rewrite Hne.
  change (String ";" ("base64," ++ rest)) with (";base64," ++ rest).
  rewrite strip_literal_app. reflexivity.
Qed.

Lemma match_prefix_inv (s ext rest : string) :
  match_prefix s = Some (ext, rest) ->
  s = data_url_prefix ext ++ rest /\ word_string ext.
Proof.
  unfold match_prefix, data_url_prefix. intros H.
  destruct (strip_literal "data:image/" s) as [s1|] eqn:H1; [|discriminate].
  destruct (span_word s1) as [run s2] eqn:H2.
  destruct (String.eqb run EmptyString) eqn:Hne; [discriminate|].
  destruct (strip_literal ";base64," s2) as [s3|] eqn:H3; [|discriminate].
  injection H as <- <-.
  apply strip_literal_inv in H1, H3. apply span_word_inv in H2.
  destruct H2 as [-> Hw]. subst. split.
  - rewrite !append_assoc. reflexivity.
  - split; [apply eqb_empty; exact Hne | exact Hw].
Qed.

(** The [match] succeeds exactly on the strings of the pattern, with the
    extension and the payload as its groups. *)
Lemma match_data_url_iff (s ext payload : string) :
  match_data_url s = Some (ext, payload) <-> is_data_url s ext payload.
Proof.
  unfold match_data_url, is_data_url, payload_string. split.
  - destruct (match_prefix s) as [[e p]|] eqn:Hm; [|discriminate].
    destruct (negb (String.eqb p EmptyString)) eqn:Hne; [|discriminate]. cbn [andb].
    destruct (forall_chars _ p) eqn:Hp; [|discriminate].
    intros H. injection H as <- <-.
    apply match_prefix_inv in Hm. destruct Hm as [-> Hw].
    unfold data_url_prefix. rewrite !append_assoc.
    repeat split; try assumption; try apply Hw.
    apply eqb_empty. apply negb_true_iff. exact Hne.
  - intros (-> & Hw & Hne & Hp).
    replace ("data:image/" ++ ext ++ ";base64," ++ payload)
      with (data_url_prefix ext ++ payload)
      by (unfold data_url_prefix; rewrite !append_assoc; reflexivity).
    rewrite match_prefix_app by exact Hw.
    apply eqb_empty in Hne. rewrite Hne, Hp. reflexivity.
Qed.

Lemma match_data_url_None (s : string) :
  match_data_url s = None <-> ~ exists ext payload, is_data_url s ext payload.
Proof.
  split.
  - intros H (ext & payload & Hd). apply match_data_url_iff in Hd. congruence.
  - intros H. destruct (match_data_url s) as [[ext payload]|] eqn:Hm; [|reflexivity].
    exfalso. apply H. exists ext, payload. apply match_data_url_iff. exact Hm.
Qed.

(** A prefix is stripped, whatever follows it. *)
Lemma stripPrefix_prefixed (ext rest : string) :
  word_string ext -> stripPrefix (data_url_prefix ext ++ rest) = rest.
Proof.
  intros Hw. unfold stripPrefix. rewrite match_prefix_app by exact Hw. reflexivity.
Qed.

(** A base64 payload has no prefix to strip: the colon is not in the
    alphabet. *)
Lemma stripPrefix_base64 (s : string) : base64_string s -> stripPrefix s = s.
Proof.
  intros Hb. unfold stripPrefix.
  destruct (match_prefix s) as [[ext rest]|] eqn:Hm; [|reflexivity].
  exfalso. apply match_prefix_inv in Hm. destruct Hm as [-> _].
  unfold base64_string, data_url_prefix in Hb. cbn in Hb. discriminate Hb.
Qed.

(** Inputs at the edge of the pattern: an image type that is not a run of
    word characters, an empty payload, and a payload with a line feed are
    no match; the prefix of such an image type is not stripped either. *)
Example match_data_url_edge_cases :
  match_data_url "data:image/png;base64,AAEC" = Some ("png", "AAEC")
  /\ match_data_url "data:image/svg+xml;base64,AAEC" = None
  /\ match_data_url "data:image/png;base64," = None
  /\ match_data_url ("data:image/png;base64,AA" ++ String "010" "EC") = None
  /\ match_data_url "image/png;base64,AAEC" = None
  /\ stripPrefix "data:image/svg+xml;base64,AAEC" = "data:image/svg+xml;base64,AAEC"
  /\ stripPrefix "data:image/jpeg;base64,AAEC" = "AAEC".
Proof. repeat split; reflexivity. Qed.

End PatternFacts.

(** ** The save-mask tool *)

Section SaveMask.

Import Server.
Local Open Scope string_scope.

Variable E : Node.

Lemma base_name_truthy (originalFileName : option string) :
  (if truthy originalFileName
   then path_parse_name E (default EmptyString originalFileName) else "mask")
  = base_name E originalFileName.
Proof. destruct originalFileName as [[|c s]|]; reflexivity. Qed.

(** The handler once the output directory exists, case by case. *)
Lemma saveMask_cases (maskDataUrl : string) (originalFileName : option string) :
  mkdir_ok E (OUTPUT_DIR E) = true ->
  saveMask E maskDataUrl originalFileName =
  match match_data_url maskDataUrl with
  | None => ([Mkdir (OUTPUT_DIR E)], inr invalid_format_result)
  | Some (ext, payload) =>
      let filePath := mask_file_path E originalFileName ext in
      if writeFile_ok E filePath (base64_decode E payload)
      then saved_run E filePath (base64_decode E payload)
      else ([Mkdir (OUTPUT_DIR E)], inl "fs.writeFile")
  end.
Proof.
  intros Hmk. unfold saveMask, mkdir, bind at 1. rewrite Hmk. cbn [perform].
  destruct (match_data_url maskDataUrl) as [[ext payload]|]; [|reflexivity].
  cbv zeta. rewrite base_name_truthy.
  unfold mask_file_path, mask_file_name, writeFile, bind, saved_run.
  destruct (writeFile_ok E _ _); reflexivity.
Qed.

(** When the directory cannot be created the handler throws before it
    looks at its input. *)
Lemma saveMask_mkdir_refused (maskDataUrl : string) (originalFileName : option string) :
  mkdir_ok E (OUTPUT_DIR E) = false ->
  saveMask E maskDataUrl originalFileName = ([], inl "fs.mkdir").
Proof. intros Hmk. unfold saveMask, mkdir, bind at 1. rewrite Hmk. reflexivity. Qed.

End SaveMask.

(** Two calls on which the file system refuses the handler: one whose
    [maskDataUrl] is not a data URL, when the output directory cannot be
    created, and one whose [maskDataUrl] is a data URL, when the file
    cannot be written.  The handler throws in both, and the tool's result
    has neither status nor filePath. *)
Lemma saveMask_refused_by_file_system :
  ((~ exists ext payload, is_data_url "garbage" ext payload)
   /\ Server.saveMask (Demo.node false 17) "garbage" None
      = ([], inl "fs.mkdir"%string)
   /\ Server.callTool (Server.saveMask (Demo.node false 17) "garbage" None)
      = ([], Server.mkCallToolResult ["fs.mkdir"%string] [] true))
  /\ (is_data_url "data:image/png;base64,AAEC" "png" "AAEC"
      /\ Server.saveMask (Demo.read_only_node 17) "data:image/png;base64,AAEC" None
         = ([Server.Mkdir "/srv/mask-editor/output"], inl "fs.writeFile"%string)
      /\ Server.callTool
           (Server.saveMask (Demo.read_only_node 17) "data:image/png;base64,AAEC" None)
         = ([Server.Mkdir "/srv/mask-editor/output"],
            Server.mkCallToolResult ["fs.writeFile"%string] [] true)).
Proof.
  split; split.
  - intros (ext & payload & H). apply match_data_url_iff in H.
    vm_compute in H. discriminate H.
  - split; vm_compute; reflexivity.
  - apply match_data_url_iff. vm_compute. reflexivity.
  - split; vm_compute; reflexivity.
Qed.

(** C5 (as the code has it).  The save-mask handler creates its output
    directory before it looks at [maskDataUrl], and catches nothing.
    Once the directory is created: for every [maskDataUrl] that is not of
    the form data:image/<ext>;base64,<payload> the handler returns the
    structured error (isError true, status "error", empty filePath)
    without throwing and without writing a file, the creation of the
    directory being its only effect; for every [maskDataUrl] of that form
    it writes the decoded payload to its file and returns status "saved"
    when the file system accepts that write, and throws without writing
    when it does not.  When the directory cannot be created the handler
    throws before any effect, whatever [maskDataUrl] is.  A throw of the
    handler reaches the caller as the result the MCP server makes of it
    (isError true, the error's message, no status and no filePath). *)
Theorem saveMask_validates (E : Server.Node) (maskDataUrl : string)
    (originalFileName : option string) :
  (Server.mkdir_ok E (Server.OUTPUT_DIR E) = true ->
     ((~ exists ext payload, is_data_url maskDataUrl ext payload) ->
        Server.saveMask E maskDataUrl originalFileName
        = ([Server.Mkdir (Server.OUTPUT_DIR E)], inr invalid_format_result)
        /\ Server.isError invalid_format_result = true
        /\ Server.structuredContent invalid_format_result
           = [("status", "error"); ("filePath", EmptyString)]%string)
     /\ (forall ext payload, is_data_url maskDataUrl ext payload ->
           let filePath := mask_file_path E originalFileName ext in
           let bytes := Server.base64_decode E payload in
           (Server.writeFile_ok E filePath bytes = true ->
              Server.saveMask E maskDataUrl originalFileName
              = saved_run E filePath bytes)
           /\ (Server.writeFile_ok E filePath bytes = false ->
                 Server.saveMask E maskDataUrl originalFileName
                 = ([Server.Mkdir (Server.OUTPUT_DIR E)], inl "fs.writeFile"%string)
                 /\ Server.callTool (Server.saveMask E maskDataUrl originalFileName)
                    = ([Server.Mkdir (Server.OUTPUT_DIR E)],
                       Server.mkCallToolResult ["fs.writeFile"%string] [] true))))
  /\ (Server.mkdir_ok E (Server.OUTPUT_DIR E) = false ->
        Server.saveMask E maskDataUrl originalFileName = ([], inl "fs.mkdir"%string)
        /\ Server.callTool (Server.saveMask E maskDataUrl originalFileName)
           = ([], Server.mkCallToolResult ["fs.mkdir"%string] [] true)).
Proof.
  split.
  - intros Hmk. split.
    + intros Hno. apply match_data_url_None in Hno.
      rewrite saveMask_cases, Hno by exact Hmk. auto.
    + intros ext payload Hd. apply match_data_url_iff in Hd. cbv zeta.
      rewrite saveMask_cases, Hd by exact Hmk. cbv zeta.
      split; intros Hwr; rewrite Hwr; [reflexivity | split; reflexivity].
  - intros Hmk. rewrite saveMask_mkdir_refused by exact Hmk.
    split; reflexivity.
Qed.

Lemma saveMask_validates_witness :
  Server.saveMask (Demo.node true 17) "garbage" (Some "photo.png"%string)
  = ([Server.Mkdir (Server.OUTPUT_DIR (Demo.node true 17))],
     inr invalid_format_result)
  /\ Server.saveMask (Demo.node true 17) "data:image/png;base64,AAEC"
       (Some "photo.png"%string)
     = saved_run (Demo.node true 17)
         (mask_file_path (Demo.node true 17) (Some "photo.png"%string) "png")
         (Server.base64_decode (Demo.node true 17) "AAEC")
  /\ Server.saveMask (Demo.read_only_node 17) "data:image/png;base64,AAEC"
       (Some "photo.png"%string)
     = ([Server.Mkdir (Server.OUTPUT_DIR (Demo.read_only_node 17))],
        inl "fs.writeFile"%string)
  /\ Server.saveMask (Demo.node false 17) "garbage" (Some "photo.png"%string)
     = ([], inl "fs.mkdir"%string).
Proof.
  assert (Hgarbage : ~ exists ext payload, is_data_url "garbage" ext payload).
  { intros (ext & payload & H). apply match_data_url_iff in H.
    vm_compute in H. discriminate H. }
  assert (Hurl : is_data_url "data:image/png;base64,AAEC" "png" "AAEC").
  { apply match_data_url_iff. vm_compute. reflexivity. }
  split; [|split; [|split]].
  - destruct (saveMask_validates (Demo.node true 17) "garbage"
                (Some "photo.png"%string)) as [Hcreated _].
    destruct (Hcreated eq_refl) as [Hreject _].
    exact (proj1 (Hreject Hgarbage)).
  - destruct (saveMask_validates (Demo.node true 17) "data:image/png;base64,AAEC"
                (Some "photo.png"%string)) as [Hcreated _].
    destruct (Hcreated eq_refl) as [_ Haccept].
    exact (proj1 (Haccept "png"%string "AAEC"%string Hurl) eq_refl).
  - destruct (saveMask_validates (Demo.read_only_node 17) "data:image/png;base64,AAEC"
                (Some "photo.png"%string)) as [Hcreated _].
    destruct (Hcreated eq_refl) as [_ Haccept].
    exact (proj1 (proj2 (Haccept "png"%string "AAEC"%string Hurl) eq_refl)).
  - destruct (saveMask_validates (Demo.node false 17) "garbage"
                (Some "photo.png"%string)) as [_ Hrefused].
    exact (proj1 (Hrefused eq_refl)).
Defined.

(** A well-formed and a malformed call, run. *)
Example saveMask_saves :
  Server.saveMask (Demo.node true 1700000000000)
    "data:image/png;base64,AAEC" (Some "photo.png"%string)
  = saved_run (Demo.node true 1700000000000)
      "/srv/mask-editor/output/photo_mask_1700000000000.png" [0; 1; 2].
Proof. vm_compute. reflexivity. Qed.

Example saveMask_rejects :
  Server.saveMask (Demo.node true 17) "data:image/svg+xml;base64,AAEC" None
  = ([Server.Mkdir "/srv/mask-editor/output"], inr invalid_format_result).
Proof. vm_compute. reflexivity. Qed.

(** A call with the empty string as [originalFileName]: the name is
    present, its name without extension is empty, and yet the file is named
    after the fallback. *)
Lemma saveMask_empty_file_name :
  let E := Demo.node true 17 in
  Server.saveMask E "data:image/png;base64,AAEC" (Some EmptyString)
    = saved_run E "/srv/mask-editor/output/mask_mask_17.png" [0; 1; 2]
  /\ Server.path_parse_name E EmptyString = EmptyString
  /\ "/srv/mask-editor/output/mask_mask_17.png"%string
     <> Server.path_join E (Server.OUTPUT_DIR E)
          (mask_file_name (Server.path_parse_name E EmptyString) 17 "png").
Proof.
  cbv zeta. split; [vm_compute; reflexivity|]. split; [reflexivity|].
  vm_compute. discriminate.
Qed.

(** C7 (as the code has it).  For every save-mask call that returns a
    success, the data URL has the form data:image/<ext>;base64,<payload>
    and the handler creates the output directory, then writes the decoded
    payload to <output directory>/<baseName>_mask_<timestamp>.<ext>, where
    the timestamp is the clock's reading in decimal, and baseName is
    path.parse(originalFileName).name, or "mask" when originalFileName is
    absent or empty; the result carries that path. *)
Theorem saveMask_file_name (E : Server.Node) (maskDataUrl : string)
    (originalFileName : option string)
    (effects : list Server.Effect) (result : Server.CallToolResult) :
  Server.saveMask E maskDataUrl originalFileName = (effects, inr result) ->
  Server.isError result = false ->
  exists ext payload,
    is_data_url maskDataUrl ext payload
    /\ let baseName :=
         match originalFileName with
         | None => "mask"%string
         | Some name => if String.eqb name EmptyString then "mask"%string
                        else Server.path_parse_name E name
         end in
       let filePath :=
         Server.path_join E (Server.OUTPUT_DIR E)
           (baseName ++ "_mask_" ++ decimal (Server.date_now E) ++ "." ++ ext)%string in
       effects = [Server.Mkdir (Server.OUTPUT_DIR E);
                  Server.WriteFile filePath (Server.base64_decode E payload);
                  Server.ConsoleLog ("Mask saved to: " ++ filePath)%string]
       /\ Server.structuredContent result
          = [("status", "saved"); ("filePath", filePath)]%string.
Proof.
  intros Hrun Hok.
  destruct (Server.mkdir_ok E (Server.OUTPUT_DIR E)) eqn:Hmk.
  2:{ rewrite saveMask_mkdir_refused in Hrun by exact Hmk. discriminate. }
  rewrite saveMask_cases in Hrun by exact Hmk.
  destruct (match_data_url maskDataUrl) as [[ext payload]|] eqn:Hm.
  2:{ injection Hrun as <- <-. discriminate Hok. }
  cbv zeta in Hrun.
  destruct (Server.writeFile_ok E _ _); [|discriminate].
  unfold saved_run in Hrun. injection Hrun as <- <-.
  exists ext, payload. split; [apply match_data_url_iff; exact Hm|].
  cbv zeta.
  replace (match originalFileName with
           | Some name => if String.eqb name EmptyString then "mask"%string
                          else Server.path_parse_name E name
           | None => "mask"%string
           end) with (base_name E originalFileName)
    by (destruct originalFileName as [[|c s]|]; reflexivity).
  split; reflexivity.
Qed.

Lemma saveMask_file_name_witness :
  exists ext payload,
    is_data_url "data:image/png;base64,AAEC" ext payload
    /\ let baseName :=
         if String.eqb "photo.png" EmptyString then "mask"%string
         else Server.path_parse_name (Demo.node true 17) "photo.png" in
       let filePath :=
         Server.path_join (Demo.node true 17) (Server.OUTPUT_DIR (Demo.node true 17))
           (baseName ++ "_mask_" ++ decimal (Server.date_now (Demo.node true 17))
            ++ "." ++ ext)%string in
       fst (saved_run (Demo.node true 17)
              "/srv/mask-editor/output/photo_mask_17.png" [0; 1; 2])
       = [Server.Mkdir (Server.OUTPUT_DIR (Demo.node true 17));
          Server.WriteFile filePath (Server.base64_decode (Demo.node true 17) payload);
          Server.ConsoleLog ("Mask saved to: " ++ filePath)%string]
       /\ [("status", "saved");
           ("filePath", "/srv/mask-editor/output/photo_mask_17.png")]%string
          = [("status", "saved"); ("filePath", filePath)]%string.
Proof.
  apply (saveMask_file_name (Demo.node true 17) "data:image/png;base64,AAEC"
           (Some "photo.png"%string)
           (fst (saved_run (Demo.node true 17)
                   "/srv/mask-editor/output/photo_mask_17.png" [0; 1; 2]))
           (Server.mkCallToolResult
              ["Mask saved to /srv/mask-editor/output/photo_mask_17.png"%string]
              [("status", "saved");
               ("filePath", "/srv/mask-editor/output/photo_mask_17.png")]%string
              false));
    [vm_compute; reflexivity | reflexivity].
Defined.

(** ** The apply-mask tool *)

(** The alpha loop after [n] rounds: byte [j] holds the mask value of its
    pixel when it is the alpha byte of one of the first [n] pixels, and is
    untouched otherwise. *)
Lemma lookup_setAlpha (n : Z) (maskData imageData : list Z) (j : nat) :
  0 <= n -> (Z.to_nat (n * 4) <= length imageData)%nat ->
  let out := Server.setAlpha n maskData imageData in
  length out = length imageData
  /\ out !! j =
     if (Z.of_nat j mod 4 =? 3) && (Z.of_nat j / 4 <? n)
     then Some (default 0 (maskData !! Z.to_nat (Z.of_nat j / 4)))
     else imageData !! j.
Proof.
  intros Hn0. pattern n. apply natlike_ind; [| |exact Hn0]; clear n Hn0.
  - intros _. cbv zeta. unfold Server.setAlpha. rewrite for_range_0.
    split; [reflexivity|].
    destruct (Z.ltb_spec (Z.of_nat j / 4) 0); [lia|].
    rewrite andb_false_r. reflexivity.
  - intros n Hn0 IH Hlen. cbv zeta. unfold Z.succ in *.
    destruct IH as [IHlen IH]; [lia|].
    unfold Server.setAlpha in *. rewrite for_range_succ by exact Hn0.
    split; [rewrite length_typed_set; exact IHlen|].
    rewrite lookup_typed_set by (rewrite ?IHlen; lia).
    rewrite IH. case_decide as Hj.
    + assert (Hmod : Z.of_nat j mod 4 = 3) by lia.
      assert (Hdiv : Z.of_nat j / 4 = n) by lia.
      rewrite Hmod, Hdiv.
      destruct (Z.ltb_spec n (n + 1)); [reflexivity|lia].
    + destruct (Z.eqb_spec (Z.of_nat j mod 4) 3) as [Hmod | Hmod]; [|reflexivity].
      cbn [andb].
      destruct (Z.ltb_spec (Z.of_nat j / 4) n);
        destruct (Z.ltb_spec (Z.of_nat j / 4) (n + 1)); try reflexivity; lia.
Qed.

Section ApplyMask.

Import Server.

Variable E : Node.
Variable S : Sharp.
Variables image mask : string.

Local Abbreviation imageBuffer := (base64_decode E (stripPrefix image)).
Local Abbreviation maskBuffer := (base64_decode E (stripPrefix mask)).

(** The handler once the three decodes have succeeded. *)
Lemma applyMask_decoded (width height : option Z) (imageData maskData : list Z) :
  metadata S imageBuffer = Some (width, height) ->
  rawRGBA S imageBuffer = Some imageData ->
  rawGray S maskBuffer width height = Some maskData ->
  applyMask E S image mask
  = encode_result E (pngFromRaw S (composite width height imageData maskData)
                                width height).
Proof.
  intros Hmeta Hraw Hgray. unfold applyMask.
  rewrite Hmeta. cbn [await bind ret].
  rewrite Hraw. cbn [await bind ret]. rewrite Hgray. cbn [await bind ret].
  destruct (pngFromRaw S _ width height); reflexivity.
Qed.


End ApplyMask.

(** C3.  When the image decodes to a [width] x [height] RGBA buffer and the
    mask, resized to [width] x [height] and converted to grayscale, decodes
    to one intensity byte per pixel, the buffer the apply-mask handler
    encodes has, at every pixel index i, the mask's intensity as alpha and
    the image's own red, green and blue.  In particular an all-white mask
    (255) gives alpha 255 everywhere and an all-black mask (0) gives alpha
    0 everywhere. *)
Theorem applyMask_alpha_is_mask (E : Server.Node) (S : Server.Sharp)
    (image mask : string) (width height : Z) (imageData maskData : list Z) :
  Server.metadata S (Server.base64_decode E (stripPrefix image))
    = Some (Some width, Some height) ->
  Server.rawRGBA S (Server.base64_decode E (stripPrefix image)) = Some imageData ->
  Server.rawGray S (Server.base64_decode E (stripPrefix mask)) (Some width) (Some height)
    = Some maskData ->
  0 < width -> 0 < height ->
  length imageData = Z.to_nat (width * height * 4) ->
  length maskData = Z.to_nat (width * height) ->
  exists out : list Z,
    Server.applyMask E S image mask
    = encode_result E (Server.pngFromRaw S out (Some width) (Some height))
    /\ length out = Z.to_nat (width * height * 4)
    /\ (forall i : nat, (i < Z.to_nat (width * height))%nat ->
          out !! (4 * i + 3)%nat = maskData !! i
          /\ out !! (4 * i)%nat = imageData !! (4 * i)%nat
          /\ out !! (4 * i + 1)%nat = imageData !! (4 * i + 1)%nat
          /\ out !! (4 * i + 2)%nat = imageData !! (4 * i + 2)%nat)
    /\ (Forall (eq 255) maskData ->
          forall i : nat, (i < Z.to_nat (width * height))%nat ->
            out !! (4 * i + 3)%nat = Some 255)
    /\ (Forall (eq 0) maskData ->
          forall i : nat, (i < Z.to_nat (width * height))%nat ->
            out !! (4 * i + 3)%nat = Some 0).
Proof.
  intros Hmeta Hraw Hgray Hw Hh Hlen Hmlen.
  exists (Server.composite (Some width) (Some height) imageData maskData).
  assert (Hout := fun j => lookup_setAlpha (width * height) maskData imageData j
                             ltac:(nia) ltac:(lia)).
  cbv zeta in Hout. unfold Server.composite, Server.or_zero.
  assert (Halpha : forall i : nat, (i < Z.to_nat (width * height))%nat ->
            Server.setAlpha (width * height) maskData imageData !! (4 * i + 3)%nat
            = maskData !! i).
  { intros i Hi. destruct (Hout (4 * i + 3)%nat) as [_ ->].
    assert (Hmod : Z.of_nat (4 * i + 3) mod 4 = 3) by lia.
    assert (Hdiv : Z.of_nat (4 * i + 3) / 4 = Z.of_nat i) by lia.
    rewrite Hmod, Hdiv, Nat2Z.id.
    destruct (Z.ltb_spec (Z.of_nat i) (width * height)); [|lia]. cbn.
    destruct (lookup_lt_is_Some_2 maskData i) as [v ->]; [lia|]. reflexivity. }
  assert (Hrgb : forall (i k : nat), (k < 3)%nat ->
            Server.setAlpha (width * height) maskData imageData !! (4 * i + k)%nat
            = imageData !! (4 * i + k)%nat).
  { intros i k Hk. destruct (Hout (4 * i + k)%nat) as [_ ->].
    destruct (Z.eqb_spec (Z.of_nat (4 * i + k) mod 4) 3); [lia|]. reflexivity. }
  split.
  { apply (applyMask_decoded E S image mask (Some width) (Some height));
      assumption. }
  split.
  { destruct (Hout 0%nat) as [-> _]. exact Hlen. }
  split.
  { intros i Hi. split; [apply Halpha; exact Hi|].
    rewrite <- (Nat.add_0_r (4 * i)) at 1 2.
    rewrite !Hrgb by lia. auto. }
  split.
  - intros Hall i Hi. rewrite Halpha by exact Hi.
    destruct (lookup_lt_is_Some_2 maskData i) as [v Hv]; [lia|].
    rewrite Hv. f_equal. symmetry.
    eapply Forall_lookup_1 in Hall; [exact Hall | exact Hv].
  - intros Hall i Hi. rewrite Halpha by exact Hi.
    destruct (lookup_lt_is_Some_2 maskData i) as [v Hv]; [lia|].
    rewrite Hv. f_equal. symmetry.
    eapply Forall_lookup_1 in Hall; [exact Hall | exact Hv].
Qed.

Lemma applyMask_alpha_is_mask_witness :
  exists out : list Z,
    Server.applyMask (Demo.node true 17) Demo.sharp "AgEDChQeKDI8"%string "data:image/png;base64,AgEE/////wAAAP8="%string
    = encode_result (Demo.node true 17) (Server.pngFromRaw Demo.sharp out (Some 2) (Some 1))
    /\ length out = Z.to_nat (2 * 1 * 4)
    /\ (forall i : nat, (i < Z.to_nat (2 * 1))%nat ->
          out !! (4 * i + 3)%nat = [255; 0] !! i
          /\ out !! (4 * i)%nat = [10; 20; 30; 255; 40; 50; 60; 255] !! (4 * i)%nat
          /\ out !! (4 * i + 1)%nat = [10; 20; 30; 255; 40; 50; 60; 255] !! (4 * i + 1)%nat
          /\ out !! (4 * i + 2)%nat = [10; 20; 30; 255; 40; 50; 60; 255] !! (4 * i + 2)%nat)
    /\ (Forall (eq 255) [255; 0] ->
          forall i : nat, (i < Z.to_nat (2 * 1))%nat ->
            out !! (4 * i + 3)%nat = Some 255)
    /\ (Forall (eq 0) [255; 0] ->
          forall i : nat, (i < Z.to_nat (2 * 1))%nat ->
            out !! (4 * i + 3)%nat = Some 0).
Proof.
  apply (applyMask_alpha_is_mask (Demo.node true 17) Demo.sharp
           "AgEDChQeKDI8"%string "data:image/png;base64,AgEE/////wAAAP8="%string
           2 1 [10; 20; 30; 255; 40; 50; 60; 255] [255; 0]);
    first [lia | vm_compute; reflexivity].
Defined.

(** The same call, run: the first pixel keeps its colour with alpha 255,
    the second with alpha 0. *)
Example applyMask_demo :
  Server.applyMask (Demo.node true 17) Demo.sharp
    "AgEDChQeKDI8"%string "data:image/png;base64,AgEE/////wAAAP8="%string
  = encode_result (Demo.node true 17)
      (Some [2; 1; 4;  10; 20; 30; 255;  40; 50; 60; 0]).
Proof. vm_compute. reflexivity. Qed.

(** A call whose image does not decode: the handler throws, and returns
    no result at all. *)
Lemma applyMask_undecodable_image :
  Server.metadata Demo.sharp
    (Server.base64_decode (Demo.node true 17) (stripPrefix "AAEC")) = None
  /\ Server.applyMask (Demo.node true 17) Demo.sharp "AAEC" "AAEC"
     = ([], inl "sharp.metadata"%string)
  /\ ~ exists effects result,
        Server.applyMask (Demo.node true 17) Demo.sharp "AAEC" "AAEC"
        = (effects, inr result).
Proof.
  split; [reflexivity|]. split; [reflexivity|].
  intros (effects & result & H). vm_compute in H. discriminate H.
Qed.

(** The same call through the MCP server: the caller gets a failure
    result. *)
Example applyMask_undecodable_image_result :
  Server.callTool (Server.applyMask (Demo.node true 17) Demo.sharp "AAEC" "AAEC")
  = ([], Server.mkCallToolResult ["sharp.metadata"%string] [] true).
Proof. vm_compute. reflexivity. Qed.




(** C10.  For base64 payloads [image] and [mask], the apply-mask handler
    gives the same run whether or not either argument carries a
    data:image/<ext>;base64, prefix. *)
Theorem applyMask_prefix_insensitive (E : Server.Node) (S : Server.Sharp)
    (ext1 ext2 image mask : string) :
  word_string ext1 -> word_string ext2 ->
  base64_string image -> base64_string mask ->
  Server.applyMask E S (data_url_prefix ext1 ++ image) (data_url_prefix ext2 ++ mask)
    = Server.applyMask E S image mask
  /\ Server.applyMask E S (data_url_prefix ext1 ++ image) mask
     = Server.applyMask E S image mask
  /\ Server.applyMask E S image (data_url_prefix ext2 ++ mask)
     = Server.applyMask E S image mask.
Proof.
  intros Hw1 Hw2 Hi Hm. unfold Server.applyMask.
  rewrite !stripPrefix_prefixed by assumption.
  rewrite !stripPrefix_base64 by assumption.
  repeat split; reflexivity.
Qed.

Lemma applyMask_prefix_insensitive_witness :
  Server.applyMask (Demo.node true 17) Demo.sharp
    (data_url_prefix "png" ++ "AgEDChQeKDI8") (data_url_prefix "jpeg" ++ "AgEE/////wAAAP8=")
    = Server.applyMask (Demo.node true 17) Demo.sharp "AgEDChQeKDI8" "AgEE/////wAAAP8="
  /\ Server.applyMask (Demo.node true 17) Demo.sharp
       (data_url_prefix "png" ++ "AgEDChQeKDI8") "AgEE/////wAAAP8="
     = Server.applyMask (Demo.node true 17) Demo.sharp "AgEDChQeKDI8" "AgEE/////wAAAP8="
  /\ Server.applyMask (Demo.node true 17) Demo.sharp
       "AgEDChQeKDI8" (data_url_prefix "jpeg" ++ "AgEE/////wAAAP8=")
     = Server.applyMask (Demo.node true 17) Demo.sharp "AgEDChQeKDI8" "AgEE/////wAAAP8=".
Proof.
  apply (applyMask_prefix_insensitive (Demo.node true 17) Demo.sharp
           "png" "jpeg" "AgEDChQeKDI8" "AgEE/////wAAAP8=");
    first [reflexivity | split; [discriminate | reflexivity]].
Defined.

(** * Further properties of the code *)

(** ** The fitted rectangle *)

Lemma rect_of_transform_integers (s : Q) (dw dh ox oy : Z) :
  rect_of_transform (mkDisplayRect (Fin s) (of_Z dw) (of_Z dh) (of_Z ox) (of_Z oy))
  = Some (ox, oy, dw, dh).
Proof.
  unfold rect_of_transform. cbn [offsetX offsetY drawW drawH].
  rewrite !as_Z_of_Z. reflexivity.
Qed.

(** X1.  For sizes of the DOM (positive, below 2^32) the drawn rectangle,
    as binary64 gives it, lies inside the viewport, offsetX + drawW <= Wv
    and offsetY + drawH <= Hv, and it is centred: the left margin is the
    right margin or one more, and so is the top margin against the bottom
    one. *)
Theorem displayTransform_centred (Wi Hi Wv Hv : Z) :
  0 < Wi < 2 ^ 32 -> 0 < Hi < 2 ^ 32 -> 0 < Wv < 2 ^ 32 -> 0 < Hv < 2 ^ 32 ->
  exists dw dh ox oy : Z,
    rect_of_transform (displayTransform Wv Hv Wi Hi) = Some (ox, oy, dw, dh)
    /\ 0 <= ox /\ 0 <= oy /\ 0 <= dw /\ 0 <= dh
    /\ ox + dw <= Wv /\ oy + dh <= Hv
    /\ 0 <= ox - (Wv - dw - ox) <= 1
    /\ 0 <= oy - (Hv - dh - oy) <= 1.
Proof.
  intros HWi HHi HWv HHv.
  destruct (displayTransform_bounded Wv Hv Wi Hi HWi HHi HWv HHv)
    as (s & dw & dh & Heq & _ & _ & _ & _ & _ & _ & Hbw & Hbh & _).
  exists dw, dh, ((Wv - dw + 1) / 2), ((Hv - dh + 1) / 2). rewrite Heq.
  split; [apply rect_of_transform_integers|]. lia.
Qed.

Lemma displayTransform_centred_witness :
  exists dw dh ox oy : Z,
    rect_of_transform (displayTransform 8 15 11 22) = Some (ox, oy, dw, dh)
    /\ 0 <= ox /\ 0 <= oy /\ 0 <= dw /\ 0 <= dh
    /\ ox + dw <= 8 /\ oy + dh <= 15
    /\ 0 <= ox - (8 - dw - ox) <= 1
    /\ 0 <= oy - (15 - dh - oy) <= 1.
Proof. apply (displayTransform_centred 11 22 8 15); lia. Defined.

(** X2.  For sizes of the DOM the image is never drawn larger than it is,
    drawW <= Wi and drawH <= Hi; it is drawn at its native size or it
    fills the viewport's width or height exactly (the side whose quotient
    is the scale: the rounding errors of the quotient and of the product
    stay below one half); and an image that fits into the viewport is
    drawn at its native size. *)
Theorem displayTransform_tight_fit (Wi Hi Wv Hv : Z) :
  0 < Wi < 2 ^ 32 -> 0 < Hi < 2 ^ 32 -> 0 < Wv < 2 ^ 32 -> 0 < Hv < 2 ^ 32 ->
  exists dw dh ox oy : Z,
    rect_of_transform (displayTransform Wv Hv Wi Hi) = Some (ox, oy, dw, dh)
    /\ dw <= Wi /\ dh <= Hi
    /\ ((dw = Wi /\ dh = Hi) \/ dw = Wv \/ dh = Hv)
    /\ (Wi <= Wv -> Hi <= Hv -> dw = Wi /\ dh = Hi).
Proof.
  intros HWi HHi HWv HHv.
  destruct (displayTransform_bounded Wv Hv Wi Hi HWi HHi HWv HHv)
    as (s & dw & dh & Heq & Hdw & Hdh & Hsel & Hsw & Hsh & [Hs0 Hs1]
        & Hbw & Hbh & HdwI & HdhI & Hw & Hh & Hone).
  exists dw, dh, ((Wv - dw + 1) / 2), ((Hv - dh + 1) / 2). rewrite Heq.
  split; [apply rect_of_transform_integers|].
  split; [exact HdwI|]. split; [exact HdhI|]. split.
  - destruct Hsel as [He | [He | He]]; [right; left; auto | right; right; auto | left; auto].
  - intros HW HH.
    assert (Hge : forall V W : Z, 0 < W -> W <= V ->
              (1 <= rnd (inject_Z V / inject_Z W))%Q).
    { intros V W HW0 HVW. apply rnd_ge_1.
      apply Qle_shift_div_l; [apply inject_Z_pos, HW0|].
      rewrite Qmult_1_l, <- Zle_Qle. exact HVW. }
    pose proof (Hge Wv Wi ltac:(lia) HW) as Hqw.
    pose proof (Hge Hv Hi ltac:(lia) HH) as Hqh.
    assert (Hs : (1 <= s)%Q).
    { destruct Hsel as [-> | [-> | ->]]; [assumption | assumption | discriminate]. }
    destruct (product_rounded Wi s HWi Hs0 Hs1) as (_ & Hpw & _).
    destruct (product_rounded Hi s HHi Hs0 Hs1) as (_ & Hph & _).
    pose proof eps64_value as He.
    pose proof (inject_Z_pos Wi ltac:(lia)) as Hwi.
    pose proof (inject_Z_pos Hi ltac:(lia)) as Hhi.
    split; (apply Z.le_antisymm; [assumption|]).
    + subst dw. apply (draw_side_ge Wi Wi s); try lia; [|exact Hpw].
      setoid_replace (inject_Z Wi / inject_Z Wi)%Q with 1%Q using relation Qeq
        by (field; lra).
      lra.
    + subst dh. apply (draw_side_ge Hi Hi s); try lia; [|exact Hph].
      setoid_replace (inject_Z Hi / inject_Z Hi)%Q with 1%Q using relation Qeq
        by (field; lra).
      lra.
Qed.

Lemma displayTransform_tight_fit_witness :
  exists dw dh ox oy : Z,
    rect_of_transform (displayTransform 8 15 11 22) = Some (ox, oy, dw, dh)
    /\ dw <= 11 /\ dh <= 22
    /\ ((dw = 11 /\ dh = 22) \/ dw = 8 \/ dh = 15)
    /\ (11 <= 8 -> 22 <= 15 -> dw = 11 /\ dh = 22).
Proof. apply (displayTransform_tight_fit 11 22 8 15); lia. Defined.

(** ** The mask at native resolution *)

(** The rasterizer on a page with an image and a viewport of positive
    sizes. *)
Lemma nativeMaskCanvas_pixels (p : Page) (img : Image) :
  loadedImage (session p) = Some img ->
  0 < naturalWidth img -> 0 < naturalHeight img ->
  0 < wrapperW (dom p) -> 0 < wrapperH (dom p) ->
  exists out : list Z,
    Client.nativeMaskCanvas p
    = (inr (mkCanvas (naturalWidth img) (naturalHeight img) out), p)
    /\ forall x y, 0 <= x < naturalWidth img -> 0 <= y < naturalHeight img ->
         pixel_at out (naturalWidth img) x y
         = Some (if selected (maskCanvas (dom p)) (wrapperW (dom p)) (wrapperH (dom p))
                      (displayTransform (wrapperW (dom p)) (wrapperH (dom p))
                         (naturalWidth img) (naturalHeight img)) x y
                 then opaque_white else opaque_black).
Proof.
  intros Himg HWi HHi HWv HHv.
  set (r := displayTransform (wrapperW (dom p)) (wrapperH (dom p))
              (naturalWidth img) (naturalHeight img)) in *.
  set (maskData := map (image_data_byte (maskCanvas (dom p)) (wrapperW (dom p)))
                       (range (wrapperW (dom p) * wrapperH (dom p) * 4))).
  destruct (rasterize_pixels r (wrapperW (dom p)) (wrapperH (dom p))
              (naturalWidth img) (naturalHeight img) maskData HWi HHi)
    as [_ Hpix].
  exists (Client.rasterize r (wrapperW (dom p)) (wrapperH (dom p))
       (naturalWidth img) (naturalHeight img) maskData
       (c_data (blackCanvas (naturalWidth img) (naturalHeight img)))).
  split.
  - unfold Client.nativeMaskCanvas, Client.bind, Client.get.
    rewrite Himg. unfold Client.getImageDataJs.
    rewrite !getImageData_positive by assumption.
    unfold Client.ret. cbn [id_data].
    rewrite image_data_blackCanvas by assumption. reflexivity.
  - intros x y Hx Hy. rewrite Hpix by assumption.
    unfold maskData. rewrite (covered_selected r) by assumption.
    reflexivity.
Qed.

(** [Math.min] of 1 and two quotients that are at least 1 (an overflowed
    quotient being +Infinity). *)
Lemma min3_one (a b : jsnum) :
  (a = PosInf \/ exists r, a = Fin r /\ (1 <= r)%Q) ->
  (b = PosInf \/ exists r, b = Fin r /\ (1 <= r)%Q) ->
  exists s, min3 a b (of_Z 1) = Fin s /\ (s == 1)%Q.
Proof.
  intros Ha Hb. unfold min3.
  assert (Hm : min2 a b = PosInf \/ exists r, min2 a b = Fin r /\ (1 <= r)%Q).
  { destruct Ha as [-> | (ra & -> & Hra)], Hb as [-> | (rb & -> & Hrb)].
    - left. reflexivity.
    - right. exists rb. split; [reflexivity | exact Hrb].
    - right. exists ra. split; [reflexivity | exact Hra].
    - right. destruct (min2_finite ra rb) as (m & -> & _ & _ & [-> | ->]); eauto. }
  destruct Hm as [-> | (r & -> & Hr)].
  - exists (inject_Z 1). split; reflexivity.
  - destruct (min2_finite r (inject_Z 1)) as (s & Hs & _ & Hs1 & Hsel).
    exists s. split; [exact Hs|]. change (inject_Z 1) with 1%Q in *.
    destruct Hsel as [-> | ->]; [lra | reflexivity].
Qed.

Lemma quotient_ge_1 (W V : Z) : 0 < W -> W <= V -> (1 <= inject_Z V / inject_Z W)%Q.
Proof.
  intros HW HV. apply Qle_shift_div_l; [apply inject_Z_pos, HW|].
  rewrite Qmult_1_l. rewrite <- Zle_Qle. exact HV.
Qed.

(** A product with a scale that is 1. *)
Lemma product_one (W : Z) (s : Q) :
  (s == 1)%Q ->
  exists pw, fl (inject_Z W * s) = Fin pw /\ Qround_half_up pw = W.
Proof.
  intros Hs.
  assert (Hz : (inject_Z W * s == inject_Z W)%Q) by (rewrite Hs; apply Qmult_1_r).
  exists (inject_Z W * s)%Q. split.
  - apply fl_exact. rewrite (exact64_comp _ _ Hz). apply exact64_Z.
  - rewrite (Qround_half_up_comp _ _ Hz). apply Qround_half_up_Z.
Qed.

(** The rectangle of an image that fits into the viewport. *)
Lemma displayTransform_fitting (Wv Hv Wi Hi : Z) :
  0 < Wi -> 0 < Hi -> Wi <= Wv -> Hi <= Hv ->
  exists s : Q,
    (s == 1)%Q
    /\ displayTransform Wv Hv Wi Hi
       = mkDisplayRect (Fin s) (of_Z Wi) (of_Z Hi)
           (of_Z ((Wv - Wi + 1) / 2)) (of_Z ((Hv - Hi + 1) / 2)).
Proof.
  intros HWi HHi HW HH.
  destruct (min3_one (fl (inject_Z Wv / inject_Z Wi)) (fl (inject_Z Hv / inject_Z Hi)))
    as (s & Hmin & Hs).
  { apply fl_ge_1, quotient_ge_1; assumption. }
  { apply fl_ge_1, quotient_ge_1; assumption. }
  destruct (product_one Wi s Hs) as (pw & Hpw & Hrw).
  destruct (product_one Hi s Hs) as (ph & Hph & Hrh).
  exists s. split; [exact Hs|].
  rewrite (displayTransform_of_scale Wv Hv Wi Hi s pw ph) by assumption.
  rewrite Hrw, Hrh. reflexivity.
Qed.

(** At scale 1 the display coordinate is the native one, shifted. *)
Lemma displayCoord_scale_1 (s : Q) (o x : Z) :
  (s == 1)%Q -> displayCoord (Fin s) (of_Z o) x = of_Z (x + o).
Proof.
  intros Hs. unfold displayCoord.
  assert (Hz : (inject_Z x * s == inject_Z x)%Q) by (rewrite Hs; apply Qmult_1_r).
  change (mul (of_Z x) (Fin s)) with (fl (inject_Z x * s)).
  rewrite fl_exact by (rewrite (exact64_comp _ _ Hz); apply exact64_Z).
  change (add (Fin (inject_Z x * s)) (of_Z o))
    with (fl (inject_Z x * s + inject_Z o)).
  assert (Hz' : (inject_Z x * s + inject_Z o == inject_Z (x + o))%Q).
  { rewrite Hz, inject_Z_plus. reflexivity. }
  rewrite fl_exact by (rewrite (exact64_comp _ _ Hz'); apply exact64_Z).
  unfold round. rewrite (Qround_half_up_comp _ _ Hz'), Qround_half_up_Z.
  reflexivity.
Qed.

(** X3.  When the image fits into the viewport (Wi <= Wv and Hi <= Hv) the
    mask is the painted overlay cut out at the image's place: the native
    pixel (x, y) is white exactly when the mask canvas has non-zero alpha
    at (x + offsetX, y + offsetY), where the offsets are the integer
    quotients of Wv - Wi + 1 and Hv - Hi + 1 by 2. *)
Theorem nativeMask_at_native_size (p : Page) (img : Image) :
  loadedImage (session p) = Some img ->
  0 < naturalWidth img -> 0 < naturalHeight img ->
  naturalWidth img <= wrapperW (dom p) ->
  naturalHeight img <= wrapperH (dom p) ->
  exists out : list Z,
    Client.nativeMaskCanvas p
      = (inr (mkCanvas (naturalWidth img) (naturalHeight img) out), p)
    /\ forall x y, 0 <= x < naturalWidth img -> 0 <= y < naturalHeight img ->
         pixel_at out (naturalWidth img) x y
         = Some (if 0 <? canvas_byte (maskCanvas (dom p))
                           (x + (wrapperW (dom p) - naturalWidth img + 1) / 2)
                           (y + (wrapperH (dom p) - naturalHeight img + 1) / 2) 3
                 then opaque_white else opaque_black).
Proof.
  intros Himg HWi HHi HW HH.
  destruct (nativeMaskCanvas_pixels p img Himg HWi HHi ltac:(lia) ltac:(lia))
    as (out & Hrun & Hpix).
  destruct (displayTransform_fitting (wrapperW (dom p)) (wrapperH (dom p))
              (naturalWidth img) (naturalHeight img) HWi HHi HW HH)
    as (s & Hs1 & Heq).
  exists out. split; [exact Hrun|].
  intros x y Hx Hy. rewrite (Hpix x y Hx Hy), Heq.
  unfold selected. cbn [scale offsetX offsetY].
  rewrite !(displayCoord_scale_1 s _ _ Hs1), !as_Z_of_Z.
  set (ox := (wrapperW (dom p) - naturalWidth img + 1) / 2).
  set (oy := (wrapperH (dom p) - naturalHeight img + 1) / 2).
  assert (Hbx : 0 <= ox /\ ox + naturalWidth img <= wrapperW (dom p))
    by (subst ox; lia).
  assert (Hby : 0 <= oy /\ oy + naturalHeight img <= wrapperH (dom p))
    by (subst oy; lia).
  destruct (Z.leb_spec 0 (x + ox)); [|lia].
  destruct (Z.ltb_spec (x + ox) (wrapperW (dom p))); [|lia].
  destruct (Z.leb_spec 0 (y + oy)); [|lia].
  destruct (Z.ltb_spec (y + oy) (wrapperH (dom p))); [|lia].
  reflexivity.
Qed.

Lemma nativeMask_at_native_size_witness :
  exists out : list Z,
    Client.nativeMaskCanvas (Demo2.small_page true)
      = (inr (mkCanvas 1 1 out), Demo2.small_page true)
    /\ forall x y, 0 <= x < 1 -> 0 <= y < 1 ->
         pixel_at out 1 x y
         = Some (if 0 <? canvas_byte Demo.mask_canvas
                           (x + (2 - 1 + 1) / 2) (y + (2 - 1 + 1) / 2) 3
                 then opaque_white else opaque_black).
Proof.
  apply (nativeMask_at_native_size (Demo2.small_page true) (mkImage 1 1));
    [reflexivity | cbn; lia ..].
Defined.

(** ** Where native pixels land on the display *)

(** Sizes of a screen as rationals: below [2^20]. *)
Lemma inject_Z_screen (z : Z) :
  0 <= z < 2 ^ 20 -> (0 <= inject_Z z)%Q /\ (inject_Z z <= 1048575)%Q.
Proof.
  intros [Hlo Hhi]. split.
  - apply inject_Z_nonneg, Hlo.
  - change 1048575%Q with (inject_Z 1048575). rewrite <- Zle_Qle.
    change (2 ^ 20) with 1048576 in Hhi. lia.
Qed.

(** One rounding of a number that is zero or at least [2^-22], and at
    most [2^22]. *)
Lemma fl_screen (q : Q) :
  (q == 0 \/ pow2 (-22) <= q)%Q -> (q <= 4194304)%Q ->
  fl q = Fin (rnd q)
  /\ (q - q * eps64 <= rnd q <= q + q * eps64)%Q.
Proof.
  intros Hq Hhi. pose proof eps64_pos as Heps. pose proof (pow2_pos (-22)) as H22.
  destruct (exact64 q) eqn:He.
  - split; [unfold fl, rnd; rewrite He; reflexivity|].
    unfold rnd. rewrite He. destruct Hq as [Hq | Hq]; split; nra.
  - destruct Hq as [Hq | Hq].
    { rewrite (exact64_comp _ _ Hq) in He. discriminate He. }
    assert (Hmin : (pow2 (-1022) <= q)%Q).
    { eapply Qle_trans; [apply (pow2_le (-1022) (-22)); lia | exact Hq]. }
    assert (Hmax : (q <= pow2 1023)%Q).
    { eapply Qle_trans; [exact Hhi|].
      change 4194304%Q with (pow2 22). apply pow2_le. lia. }
    split; [apply fl_finite; assumption|].
    pose proof (rnd_error q Hmin). lra.
Qed.

(** The display coordinate on a screen: finite, and within [2^-31] of the
    exact [x * s + o]. *)
Lemma displayCoord_screen (s : Q) (o x : Z) :
  (pow2 (-21) <= s)%Q -> (s <= 1)%Q -> 0 <= o < 2 ^ 20 -> 0 <= x < 2 ^ 20 ->
  displayCoord (Fin s) (of_Z o) x = of_Z (displayCoordZ s o x)
  /\ (inject_Z x * s + inject_Z o - (1 # 2147483648)
      <= rnd (rnd (inject_Z x * s) + inject_Z o)
      <= inject_Z x * s + inject_Z o + (1 # 2147483648))%Q.
Proof.
  intros Hs0 Hs1 Ho Hx.
  destruct (inject_Z_screen o Ho) as [Ho0 Ho1].
  destruct (inject_Z_screen x Hx) as [Hx0 Hx1].
  pose proof eps64_value as He.
  assert (Hc21 : (pow2 (-21) == 1 # 2097152)%Q) by reflexivity.
  assert (Hc22 : (pow2 (-22) == 1 # 4194304)%Q) by reflexivity.
  rewrite Hc21 in Hs0.
  assert (Hxs : (inject_Z x * s == 0 \/ (1 # 2097152) <= inject_Z x * s)%Q).
  { destruct (Z.eq_dec x 0) as [-> | Hne].
    - left. apply Qmult_0_l.
    - right.
      assert (H1 : (1 <= inject_Z x)%Q).
      { change 1%Q with (inject_Z 1). rewrite <- Zle_Qle. lia. }
      nra. }
  destruct (fl_screen (inject_Z x * s)) as (Hm & Hm1 & Hm2).
  { rewrite Hc22. destruct Hxs as [Hz | Hz]; [left; exact Hz | right; lra]. }
  { nra. }
  set (m := rnd (inject_Z x * s)) in *.
  assert (Hmo : (m + inject_Z o == 0 \/ pow2 (-22) <= m + inject_Z o)%Q).
  { rewrite Hc22.
    destruct Hxs as [Hz | Hz]; [|right; nra].
    destruct (Z.eq_dec o 0) as [-> | Hne].
    - left. change (inject_Z 0) with 0%Q. nra.
    - right.
      assert (H1 : (1 <= inject_Z o)%Q).
      { change 1%Q with (inject_Z 1). rewrite <- Zle_Qle. lia. }
      nra. }
  destruct (fl_screen (m + inject_Z o) Hmo ltac:(nra)) as (Hc & Hc1 & Hc2).
  split.
  - unfold displayCoord, displayCoordZ.
    change (mul (of_Z x) (Fin s)) with (fl (inject_Z x * s)).
    rewrite Hm.
    change (add (Fin m) (of_Z o)) with (fl (m + inject_Z o)).
    rewrite Hc. reflexivity.
  - set (c := rnd (m + inject_Z o)) in *. split; nra.
Qed.

(** The rounded quotient of two screen sizes is at least [2^-21], and
    either at least 1 or at most [1 - 2^-21]. *)
Lemma quotient_gap (V W : Z) :
  0 < V < 2 ^ 20 -> 0 < W < 2 ^ 20 ->
  (pow2 (-21) <= rnd (inject_Z V / inject_Z W))%Q
  /\ ((1 <= rnd (inject_Z V / inject_Z W))%Q
      \/ (rnd (inject_Z V / inject_Z W) <= 1 - pow2 (-21))%Q).
Proof.
  intros HV HW.
  destruct (inject_Z_screen V ltac:(lia)) as [_ Hv1].
  destruct (inject_Z_screen W ltac:(lia)) as [_ Hw1].
  pose proof (inject_Z_pos V ltac:(lia)) as Hv0.
  pose proof (inject_Z_pos W ltac:(lia)) as Hw0.
  assert (Hvge : (1 <= inject_Z V)%Q).
  { change 1%Q with (inject_Z 1). rewrite <- Zle_Qle. lia. }
  pose proof eps64_value as He.
  assert (Hc21 : (pow2 (-21) == 1 # 2097152)%Q) by reflexivity.
  set (v := inject_Z V) in *. set (w := inject_Z W) in *.
  assert (Ht : (v / w * w == v)%Q) by (field; lra).
  assert (Ht0 : (0 < v / w)%Q) by (apply Qlt_shift_div_l; lra).
  set (t := (v / w)%Q) in *.
  assert (Hlo : ((1 # 1048575) <= t)%Q) by nra.
  assert (Hmin : (pow2 (-1022) <= t)%Q).
  { eapply Qle_trans; [apply (pow2_le (-1022) (-21)); lia|]. rewrite Hc21. lra. }
  pose proof (rnd_error t Hmin) as [Hr1 Hr2].
  rewrite Hc21. split; [nra|].
  destruct (Z_le_gt_dec W V) as [Hle | Hgt].
  - left. apply rnd_ge_1. unfold t, v, w. apply quotient_ge_1; lia.
  - right.
    assert (Hvw : (v + 1 <= w)%Q).
    { unfold v, w. change 1%Q with (inject_Z 1).
      rewrite <- inject_Z_plus, <- Zle_Qle. lia. }
    assert (Hgap : (t <= 1 - (1 # 1048575))%Q) by nra.
    nra.
Qed.

Lemma of_Z_inj (a b : Z) : of_Z a = of_Z b -> a = b.
Proof. intros H. injection H as H. exact H. Qed.

Section Axis.

Variables (W : Z) (s : Q) (o : Z).
Hypothesis HW : 0 < W < 2 ^ 20.
Hypothesis Hs0 : (pow2 (-21) <= s)%Q.
Hypothesis Hs1 : (s <= 1)%Q.
Hypothesis Hgap : (s == 1 \/ s <= 1 - pow2 (-21))%Q.
Hypothesis Ho : 0 <= o < 2 ^ 20.
Hypothesis HP : (inject_Z W * s * (1 - eps64) <= rnd (inject_Z W * s)
                 <= inject_Z W * s * (1 + eps64))%Q.

Local Abbreviation dw := (Qround_half_up (rnd (inject_Z W * s))).

Lemma coord_lower (x : Z) : 0 <= x < 2 ^ 20 -> o <= displayCoordZ s o x.
Proof.
  intros Hx. destruct (displayCoord_screen s o x Hs0 Hs1 Ho Hx) as [_ [Hc _]].
  destruct (inject_Z_screen x Hx) as [Hx0 _].
  assert (Hc21 : (pow2 (-21) == 1 # 2097152)%Q) by reflexivity.
  rewrite Hc21 in Hs0.
  unfold displayCoordZ. apply Qround_half_up_above. nra.
Qed.


Lemma coord_mono (x x' : Z) :
  0 <= x -> x <= x' -> x' < 2 ^ 20 -> displayCoordZ s o x <= displayCoordZ s o x'.
Proof.
  intros Hx Hxx Hx'.
  destruct (Z.eq_dec x x') as [-> | Hne]; [lia|].
  destruct (displayCoord_screen s o x Hs0 Hs1 Ho ltac:(lia)) as [_ [_ Hc]].
  destruct (displayCoord_screen s o x' Hs0 Hs1 Ho ltac:(lia)) as [_ [Hc' _]].
  assert (Hc21 : (pow2 (-21) == 1 # 2097152)%Q) by reflexivity.
  rewrite Hc21 in Hs0.
  assert (Hstep : (inject_Z x + 1 <= inject_Z x')%Q).
  { change 1%Q with (inject_Z 1). rewrite <- inject_Z_plus, <- Zle_Qle. lia. }
  unfold displayCoordZ. apply Qround_half_up_le. nra.
Qed.



Lemma coord_upper (x : Z) : 0 <= x < W -> displayCoordZ s o x <= o + dw.
Proof.
  intros Hx.
  destruct (displayCoord_screen s o x Hs0 Hs1 Ho ltac:(lia)) as [_ [_ Hc]].
  destruct (inject_Z_screen W ltac:(lia)) as [Hw0 Hw1].
  pose proof eps64_value as He.
  assert (Hc21 : (pow2 (-21) == 1 # 2097152)%Q) by reflexivity.
  rewrite Hc21 in Hs0.
  assert (Hxw : (inject_Z x + 1 <= inject_Z W)%Q).
  { change 1%Q with (inject_Z 1). rewrite <- inject_Z_plus, <- Zle_Qle. lia. }
  pose proof (Qlt_floor (rnd (inject_Z W * s) + (1 # 2))) as Hfl.
  fold (Qround_half_up (rnd (inject_Z W * s))) in Hfl.
  rewrite inject_Z_plus in Hfl. change (inject_Z 1) with 1%Q in Hfl.
  destruct HP as [HP1 _].
  unfold displayCoordZ. apply Qround_half_up_below. rewrite inject_Z_plus.
  set (P := rnd (inject_Z W * s)) in *.
  set (c := rnd (rnd (inject_Z x * s) + inject_Z o)) in *.
  nra.
Qed.




End Axis.

(** The rectangle on a screen, with what the coordinates need of it. *)
Lemma displayTransform_screen (Wv Hv Wi Hi : Z) :
  0 < Wi < 2 ^ 20 -> 0 < Hi < 2 ^ 20 -> 0 < Wv < 2 ^ 20 -> 0 < Hv < 2 ^ 20 ->
  exists (s : Q) (dw dh ox oy : Z),
    displayTransform Wv Hv Wi Hi
      = mkDisplayRect (Fin s) (of_Z dw) (of_Z dh) (of_Z ox) (of_Z oy)
    /\ dw = Qround_half_up (rnd (inject_Z Wi * s))
    /\ dh = Qround_half_up (rnd (inject_Z Hi * s))
    /\ (pow2 (-21) <= s)%Q /\ (s <= 1)%Q
    /\ (s == 1 \/ s <= 1 - pow2 (-21))%Q
    /\ 0 <= ox < 2 ^ 20 /\ 0 <= oy < 2 ^ 20
    /\ (inject_Z Wi * s * (1 - eps64) <= rnd (inject_Z Wi * s)
        <= inject_Z Wi * s * (1 + eps64))%Q
    /\ (inject_Z Hi * s * (1 - eps64) <= rnd (inject_Z Hi * s)
        <= inject_Z Hi * s * (1 + eps64))%Q
    /\ ox + dw <= Wv /\ oy + dh <= Hv.
Proof.
  intros HWi HHi HWv HHv.
  assert (Hbig : 2 ^ 20 < 2 ^ 32) by reflexivity.
  destruct (displayTransform_bounded Wv Hv Wi Hi) as
    (s & dw & dh & Heq & Hdw & Hdh & Hsel & Hsw & Hsh & [Hs0 Hs1] & Hbw & Hbh & _);
    try lia.
  destruct (quotient_gap Wv Wi HWv HWi) as [Hqw0 Hqw].
  destruct (quotient_gap Hv Hi HHv HHi) as [Hqh0 Hqh].
  assert (Hs21 : (pow2 (-21) <= s)%Q).
  { destruct Hsel as [-> | [-> | ->]]; [assumption | assumption |].
    apply (pow2_le (-21) 0). lia. }
  assert (Hgap : (s == 1 \/ s <= 1 - pow2 (-21))%Q).
  { destruct Hsel as [Hs | [Hs | Hs]].
    - destruct Hqw as [H | H]; [left; rewrite Hs in *; lra | right; rewrite Hs; exact H].
    - destruct Hqh as [H | H]; [left; rewrite Hs in *; lra | right; rewrite Hs; exact H].
    - left. rewrite Hs. reflexivity. }
  destruct (product_rounded Wi s ltac:(lia) Hs0 Hs1) as [_ HPw].
  destruct (product_rounded Hi s ltac:(lia) Hs0 Hs1) as [_ HPh].
  exists s, dw, dh, ((Wv - dw + 1) / 2), ((Hv - dh + 1) / 2).
  split; [exact Heq|]. split; [exact Hdw|]. split; [exact Hdh|].
  split; [exact Hs21|]. split; [exact Hs1|]. split; [exact Hgap|].
  assert (Hox : 0 <= (Wv - dw + 1) / 2 <= Wv).
  { split; [apply Z.div_pos; lia|]. apply Z.div_le_upper_bound; lia. }
  assert (Hoy : 0 <= (Hv - dh + 1) / 2 <= Hv).
  { split; [apply Z.div_pos; lia|]. apply Z.div_le_upper_bound; lia. }
  split; [lia|]. split; [lia|]. split; [exact HPw|]. split; [exact HPh|].
  split.
  - pose proof (Z.mul_div_le (Wv - dw + 1) 2 ltac:(lia)).
    destruct (Z.eq_dec dw Wv) as [-> | Hne].
    + replace (Wv - Wv + 1) with 1 by lia. change (1 / 2) with 0. lia.
    + lia.
  - pose proof (Z.mul_div_le (Hv - dh + 1) 2 ltac:(lia)).
    destruct (Z.eq_dec dh Hv) as [-> | Hne].
    + replace (Hv - Hv + 1) with 1 by lia. change (1 / 2) with 0. lia.
    + lia.
Qed.

(** X4.  On a screen (sizes positive and below 2^20), with the numbers as
    binary64 has them, the display coordinate of every native column x
    lies in [offsetX, offsetX + drawW] and that of every native row y in
    [offsetY, offsetY + drawH], the offsets are not negative, and the
    coordinates do not decrease with x and y: a native pixel never lands
    left of or above the drawn image, and at most on the column or row
    just past its far edge. *)
Theorem displayCoord_in_drawn_rect (Wi Hi Wv Hv : Z) :
  0 < Wi < 2 ^ 20 -> 0 < Hi < 2 ^ 20 -> 0 < Wv < 2 ^ 20 -> 0 < Hv < 2 ^ 20 ->
  exists (s : Q) (dw dh ox oy : Z),
    displayTransform Wv Hv Wi Hi
      = mkDisplayRect (Fin s) (of_Z dw) (of_Z dh) (of_Z ox) (of_Z oy)
    /\ 0 <= ox /\ 0 <= oy
    /\ (forall x, 0 <= x < Wi ->
          exists dx, displayCoord (Fin s) (of_Z ox) x = of_Z dx
                     /\ ox <= dx <= ox + dw)
    /\ (forall y, 0 <= y < Hi ->
          exists dy, displayCoord (Fin s) (of_Z oy) y = of_Z dy
                     /\ oy <= dy <= oy + dh)
    /\ (forall x x' dx dx', 0 <= x -> x <= x' -> x' < Wi ->
          displayCoord (Fin s) (of_Z ox) x = of_Z dx ->
          displayCoord (Fin s) (of_Z ox) x' = of_Z dx' -> dx <= dx')
    /\ (forall y y' dy dy', 0 <= y -> y <= y' -> y' < Hi ->
          displayCoord (Fin s) (of_Z oy) y = of_Z dy ->
          displayCoord (Fin s) (of_Z oy) y' = of_Z dy' -> dy <= dy').
Proof.
  intros HWi HHi HWv HHv.
  destruct (displayTransform_screen Wv Hv Wi Hi HWi HHi HWv HHv)
    as (s & dw & dh & ox & oy & Heq & Hdw & Hdh & Hs0 & Hs1 & Hgap & Hox & Hoy
        & HPw & HPh & _).
  assert (Hcoord : forall o x, 0 <= o < 2 ^ 20 -> 0 <= x < 2 ^ 20 ->
            displayCoord (Fin s) (of_Z o) x = of_Z (displayCoordZ s o x)).
  { intros o x Ho Hx. apply displayCoord_screen; assumption. }
  exists s, dw, dh, ox, oy. split; [exact Heq|].
  split; [lia|]. split; [lia|]. split; [|split; [|split]].
  - intros x Hx. exists (displayCoordZ s ox x).
    split; [apply Hcoord; lia|]. split.
    + apply coord_lower; try assumption; lia.
    + rewrite Hdw. apply (coord_upper Wi); assumption.
  - intros y Hy. exists (displayCoordZ s oy y).
    split; [apply Hcoord; lia|]. split.
    + apply coord_lower; try assumption; lia.
    + rewrite Hdh. apply (coord_upper Hi); assumption.
  - intros x x' dx dx' Hx Hxx Hx' Hd Hd'.
    rewrite Hcoord in Hd, Hd' by lia.
    apply of_Z_inj in Hd, Hd'. subst dx dx'.
    apply coord_mono; try assumption; lia.
  - intros y y' dy dy' Hy Hyy Hy' Hd Hd'.
    rewrite Hcoord in Hd, Hd' by lia.
    apply of_Z_inj in Hd, Hd'. subst dy dy'.
    apply coord_mono; try assumption; lia.
Qed.

Lemma displayCoord_in_drawn_rect_witness :
  exists (s : Q) (dw dh ox oy : Z),
    displayTransform 8 15 11 22
      = mkDisplayRect (Fin s) (of_Z dw) (of_Z dh) (of_Z ox) (of_Z oy)
    /\ 0 <= ox /\ 0 <= oy
    /\ (forall x, 0 <= x < 11 ->
          exists dx, displayCoord (Fin s) (of_Z ox) x = of_Z dx
                     /\ ox <= dx <= ox + dw)
    /\ (forall y, 0 <= y < 22 ->
          exists dy, displayCoord (Fin s) (of_Z oy) y = of_Z dy
                     /\ oy <= dy <= oy + dh)
    /\ (forall x x' dx dx', 0 <= x -> x <= x' -> x' < 11 ->
          displayCoord (Fin s) (of_Z ox) x = of_Z dx ->
          displayCoord (Fin s) (of_Z ox) x' = of_Z dx' -> dx <= dx')
    /\ (forall y y' dy dy', 0 <= y -> y <= y' -> y' < 22 ->
          displayCoord (Fin s) (of_Z oy) y = of_Z dy ->
          displayCoord (Fin s) (of_Z oy) y' = of_Z dy' -> dy <= dy').
Proof. apply (displayCoord_in_drawn_rect 11 22 8 15); lia. Defined.

(** An image of 22 x 1 in a viewport of 15 x 1: the native column 11 has
    the display coordinate 7, since 11 times the rounded 15/22 falls just
    below 7.5. *)
Example displayCoord_22x1_in_15x1 :
  displayTransform 15 1 22 1
    = mkDisplayRect (Fin (6141272219141585 # 9007199254740992))
        (of_Z 15) (of_Z 1) (of_Z 0) (of_Z 0)
  /\ displayCoord (Fin (6141272219141585 # 9007199254740992)) (of_Z 0) 11 = of_Z 7
  /\ displayCoord (Fin (6141272219141585 # 9007199254740992)) (of_Z 0) 10 = of_Z 7
  /\ displayCoord (Fin (6141272219141585 # 9007199254740992)) (of_Z 0) 12 = of_Z 8.
Proof. repeat split; vm_compute; reflexivity. Qed.

(** The far edge is reached: the last native column of an image of 4 x 2
    in a viewport of 2 x 2 lands on display column 2, outside the viewport,
    and is black whatever is painted. *)
Example displayCoord_far_edge :
  displayTransform 2 2 4 2
    = mkDisplayRect (Fin (2 # 4)) (of_Z 2) (of_Z 1) (of_Z 0) (of_Z 1)
  /\ displayCoord (Fin (2 # 4)) (of_Z 0) 3 = of_Z 2.
Proof. split; vm_compute; reflexivity. Qed.



(** Paint beside the drawn image is not part of the selection: an image of
    11 x 22 in a viewport of 8 x 15 is drawn 7 wide from display column 1
    on, no native pixel has display column 0, and paint at the display
    pixel (0, 0) alone gives a black mask. *)
Example paint_beside_image_is_dropped :
  fst (Client.nativeMaskCanvas
         (mkPage
            (mkSession (Some (mkImage 11 22)) "photo.png" false 30 true
               (mkImageRect (of_Z 1) (of_Z 0) (of_Z 7) (of_Z 15)))
            (mkDom 8 15
               (mkCanvas 8 15 (map (fun i => if i =? 3 then 102 else 0) (range 480)))
               "Image loaded: 11x22" "status-bar" false "Confirm Mask")
            [] []))
  = inr (blackCanvas 11 22).
Proof. vm_compute. reflexivity. Qed.

(** ** The confirm click, whatever happens *)

(** The click handler is analysed on a page given by its fields, with the
    rasterizer and the host's answers as unknowns: the handler's chain of
    steps is then evaluated as far as it goes, and what is left are the
    cases of those two unknowns. *)
Ltac confirm_cases B p rasterizer_fact :=
  unfold Client.confirmClick;
  generalize rasterizer_fact; generalize (Client.generateMaskDataUrl B);
  destruct B as [encoder answer];
  intros gen Hgen;
  destruct p as [[[img|] name drawing brush [|] rect] [ww wh mc st sc cd ct] calls cons];
  vm_compute.

(** X6.  The click handler of the confirm button never throws and never
    touches the session variables, the mask canvas or the wrapper's size;
    it makes no server call or exactly one, a [save-mask] call carrying the
    current [originalFileName]; and whenever it got past its guard (an
    image is loaded and there is paint) it leaves the button enabled with
    its label restored, whatever the rasterizer or the server did. *)
Theorem confirmClick_always_returns (B : Browser) (p : Page) :
  exists p',
    Client.confirmClick B p = (inr tt, p')
    /\ session p' = session p
    /\ maskCanvas (dom p') = maskCanvas (dom p)
    /\ wrapperW (dom p') = wrapperW (dom p)
    /\ wrapperH (dom p') = wrapperH (dom p)
    /\ (serverCalls p' = serverCalls p
        \/ exists url,
             serverCalls p'
             = serverCalls p
               ++ [mkServerCall "save-mask" url (originalFileName (session p))])
    /\ (is_Some (loadedImage (session p)) -> hasMaskContent (session p) = true ->
        confirmDisabled (dom p') = false
        /\ confirmText (dom p') = "Confirm Mask"%string).
Proof.
  confirm_cases B p (generateMaskDataUrl_page B).
  2, 3, 4: eexists; split; [reflexivity|]; do 4 (split; [reflexivity|]);
    (split; [left; reflexivity|]);
    intros Himg Hmask; try discriminate Hmask; destruct Himg as [? Himg];
    discriminate Himg.
  match goal with
  | |- context [gen ?q] =>
      specialize (Hgen q); destruct (gen q) as [[e | url] q']
  end; cbn [snd] in Hgen; subst q'; cbv beta iota.
  - eexists. split; [reflexivity|]. do 4 (split; [reflexivity|]).
    split; [left; reflexivity|]. intros _ _. split; reflexivity.
  - match goal with
    | |- context [answer ?c] => destruct (answer c) as [msg | [err [[|filePath]|]]]
    end; try destruct err; cbv beta iota;
    (eexists; split; [reflexivity|]; do 4 (split; [reflexivity|]);
     split; [right; exists url; reflexivity|]; intros _ _; split; reflexivity).
Qed.

(** X7.  The status bar reports a success only for a call the host
    answered: when the click leaves the class ["status-bar success"],
    exactly one [save-mask] call was made and the host answered it without
    [isError] and with a structured content; the status text is
    ["Mask saved: "] followed by the file path of that content, or by
    ["undefined"] when the content has no [filePath] (the handler does not
    look at [status], nor whether there is a path). *)
Theorem confirmClick_success_means_answered (B : Browser) (p : Page) :
  statusClass (dom (snd (Client.confirmClick B p))) = "status-bar success"%string ->
  exists url filePath,
    serverCalls (snd (Client.confirmClick B p))
      = serverCalls p
        ++ [mkServerCall "save-mask" url (originalFileName (session p))]
    /\ serverAnswer B (mkServerCall "save-mask" url (originalFileName (session p)))
       = inr (mkToolReply false (Some filePath))
    /\ statusText (dom (snd (Client.confirmClick B p)))
       = ("Mask saved: " ++ filePath_text filePath)%string.
Proof.
  confirm_cases B p (generateMaskDataUrl_page B).
  2, 3, 4: intros Hclass; discriminate Hclass.
  match goal with
  | |- context [gen ?q] =>
      specialize (Hgen q); destruct (gen q) as [[e | url] q']
  end; cbn [snd] in Hgen; subst q'; cbv beta iota.
  - intros Hclass. discriminate Hclass.
  - destruct (answer (mkServerCall "save-mask" url name))
      as [msg | [err [filePath|]]] eqn:Hans; try destruct err; cbv beta iota;
      intros Hclass; try discriminate Hclass.
    exists url, filePath. split; [reflexivity|]. split; [exact Hans|].
    destruct filePath; reflexivity.
Qed.

Lemma confirmClick_success_means_answered_witness :
  exists url filePath,
    serverCalls (snd (Client.confirmClick (Demo.browser 17) (Demo.page true)))
      = serverCalls (Demo.page true)
        ++ [mkServerCall "save-mask" url (originalFileName (session (Demo.page true)))]
    /\ serverAnswer (Demo.browser 17)
         (mkServerCall "save-mask" url (originalFileName (session (Demo.page true))))
       = inr (mkToolReply false (Some filePath))
    /\ statusText (dom (snd (Client.confirmClick (Demo.browser 17) (Demo.page true))))
       = ("Mask saved: " ++ filePath_text filePath)%string.
Proof.
  apply (confirmClick_success_means_answered (Demo.browser 17) (Demo.page true)).
  vm_compute. reflexivity.
Defined.

(** A host whose answer has a structured content without [filePath]: the
    status bar reports a success all the same. *)
Example confirmClick_reply_without_path :
  let B := mkBrowser (toDataURL_png (Demo.browser 17))
                     (fun _ => inr (mkToolReply false (Some NoFilePath))) in
  statusText (dom (snd (Client.confirmClick B (Demo.page true))))
    = "Mask saved: undefined"%string
  /\ statusClass (dom (snd (Client.confirmClick B (Demo.page true))))
     = "status-bar success"%string.
Proof. vm_compute. auto. Qed.

(** The rasterizer's refusal depends on the sizes and the image only. *)
Lemma generateMaskDataUrl_zero_side (B : Browser) (img : Image) (ww wh : Z) (q : Page) :
  ww = 0 \/ wh = 0 \/ naturalWidth img = 0 \/ naturalHeight img = 0 ->
  loadedImage (session q) = Some img ->
  wrapperW (dom q) = ww -> wrapperH (dom q) = wh ->
  exists message, Client.generateMaskDataUrl B q = (inl message, q).
Proof.
  intros Hzero Himg <- <-. exists "IndexSizeError"%string.
  unfold Client.generateMaskDataUrl, Client.bind.
  rewrite (nativeMaskCanvas_zero_side q img Himg Hzero). reflexivity.
Qed.

(** X8.  A click while the wrapper or the image has a zero side (with an
    image loaded and paint on the mask) reaches no server: the canvas API
    refuses to read a zero-sized area, and the handler reports the error
    in the status bar (["Error: "] and the error's message, with the error
    class), logs it to the console and re-enables the button. *)
Theorem confirmClick_zero_side (B : Browser) (p : Page) (img : Image) :
  loadedImage (session p) = Some img ->
  hasMaskContent (session p) = true ->
  wrapperW (dom p) = 0 \/ wrapperH (dom p) = 0
  \/ naturalWidth img = 0 \/ naturalHeight img = 0 ->
  serverCalls (snd (Client.confirmClick B p)) = serverCalls p
  /\ statusClass (dom (snd (Client.confirmClick B p))) = "status-bar error"%string
  /\ confirmDisabled (dom (snd (Client.confirmClick B p))) = false
  /\ exists message,
       statusText (dom (snd (Client.confirmClick B p))) = ("Error: " ++ message)%string
       /\ console (snd (Client.confirmClick B p))
          = console p ++ [("Failed to send mask: " ++ message)%string].
Proof.
  intros Himg Hmask Hzero.
  assert (Hfact : forall q : Page,
            loadedImage (session q) = Some img ->
            wrapperW (dom q) = wrapperW (dom p) ->
            wrapperH (dom q) = wrapperH (dom p) ->
            exists message, Client.generateMaskDataUrl B q = (inl message, q)).
  { intros q Hq Hw Hh.
    exact (generateMaskDataUrl_zero_side B img _ _ q Hzero Hq Hw Hh). }
  clear Hzero. rename img into image.
  revert Himg Hmask.
  confirm_cases B p Hfact; intros Himg Hmask;
    try discriminate Himg; try discriminate Hmask.
  injection Himg as ->.
  match goal with
  | |- context [gen ?q] =>
      destruct (Hgen q eq_refl eq_refl eq_refl) as [message ->]
  end.
  cbv beta iota. do 3 (split; [reflexivity|]).
  exists message. split; reflexivity.
Qed.

Lemma confirmClick_zero_side_witness :
  serverCalls (snd (Client.confirmClick (Demo.browser 17) Demo2.flat_page))
    = serverCalls Demo2.flat_page
  /\ statusClass (dom (snd (Client.confirmClick (Demo.browser 17) Demo2.flat_page)))
     = "status-bar error"%string
  /\ confirmDisabled (dom (snd (Client.confirmClick (Demo.browser 17) Demo2.flat_page)))
     = false
  /\ exists message,
       statusText (dom (snd (Client.confirmClick (Demo.browser 17) Demo2.flat_page)))
         = ("Error: " ++ message)%string
       /\ console (snd (Client.confirmClick (Demo.browser 17) Demo2.flat_page))
          = console Demo2.flat_page ++ [("Failed to send mask: " ++ message)%string].
Proof.
  apply (confirmClick_zero_side (Demo.browser 17) Demo2.flat_page (mkImage 4 2));
    [reflexivity | reflexivity | left; reflexivity].
Defined.

(** ** From the confirm click to the saved file *)

(** The rasterizer reads the session, the wrapper's size and the mask
    canvas, and nothing else of the page. *)
Lemma generateMaskDataUrl_frame (B : Browser) (p q : Page) (c : Canvas) :
  Client.nativeMaskCanvas p = (inr c, p) ->
  session q = session p ->
  wrapperW (dom q) = wrapperW (dom p) ->
  wrapperH (dom q) = wrapperH (dom p) ->
  maskCanvas (dom q) = maskCanvas (dom p) ->
  Client.generateMaskDataUrl B q = (inr (toDataURL_png B c), q).
Proof.
  intros Hrun Hs Hw Hh Hm.
  unfold Client.generateMaskDataUrl.
  unfold Client.nativeMaskCanvas, Client.getImageDataJs, Client.bind, Client.get,
    Client.ret, Client.throw in *.
  rewrite Hs, Hw, Hh, Hm.
  destruct (loadedImage (session p)) as [img|]; [|discriminate Hrun].
  destruct (getImageData (maskCanvas (dom p)) _ _) as [maskData|];
    [|discriminate Hrun].
  destruct (getImageData (blackCanvas _ _) _ _) as [tempData|];
    [|discriminate Hrun].
  injection Hrun as <-. reflexivity.
Qed.

(** The click, once past its guard and with the rasterizer's canvas at
    hand, makes its call with the PNG of that canvas. *)
Lemma confirmClick_makes_call (B : Browser) (p : Page) (img : Image) (c : Canvas) :
  loadedImage (session p) = Some img ->
  hasMaskContent (session p) = true ->
  Client.nativeMaskCanvas p = (inr c, p) ->
  serverCalls (snd (Client.confirmClick B p))
  = serverCalls p
    ++ [mkServerCall "save-mask" (toDataURL_png B c) (originalFileName (session p))].
Proof.
  intros Himg Hmask Hrun.
  assert (Hfact : forall q : Page,
            session q = session p ->
            wrapperW (dom q) = wrapperW (dom p) ->
            wrapperH (dom q) = wrapperH (dom p) ->
            maskCanvas (dom q) = maskCanvas (dom p) ->
            Client.generateMaskDataUrl B q = (inr (toDataURL_png B c), q)).
  { intros q. apply generateMaskDataUrl_frame. exact Hrun. }
  clear Hrun. rename img into image.
  revert Himg Hmask.
  confirm_cases B p Hfact; intros Himg Hmask;
    try discriminate Himg; try discriminate Hmask.
  match goal with
  | |- context [gen ?q] => rewrite (Hgen q eq_refl eq_refl eq_refl eq_refl)
  end.
  cbv beta iota.
  match goal with
  | |- context [answer ?call] => destruct (answer call) as [msg | [err [[|filePath]|]]]
  end; try destruct err; reflexivity.
Qed.

(** X9.  The client and the server agree on the format: when the canvas
    encoder answers the native mask of a confirmed selection with a PNG
    data URL (the prefix [data:image/png;base64,] and a non-empty payload
    without line breaks), the call the click makes is one the save-mask
    handler accepts, and when the output directory can be created and the
    file system takes the write of that file the handler saves the
    decoded payload under the name it derives from the session's file
    name, with the extension png. *)
Theorem confirm_call_is_saved (B : Browser) (E : Server.Node) (p : Page) (img : Image)
    (c : Canvas) (payload : string) :
  loadedImage (session p) = Some img ->
  hasMaskContent (session p) = true ->
  Client.nativeMaskCanvas p = (inr c, p) ->
  toDataURL_png B c = (data_url_prefix "png" ++ payload)%string ->
  payload_string payload ->
  Server.mkdir_ok E (Server.OUTPUT_DIR E) = true ->
  Server.writeFile_ok E
    (mask_file_path E (Some (originalFileName (session p))) "png")
    (Server.base64_decode E payload) = true ->
  exists call,
    serverCalls (snd (Client.confirmClick B p)) = serverCalls p ++ [call]
    /\ call_name call = "save-mask"%string
    /\ call_maskDataUrl call = (data_url_prefix "png" ++ payload)%string
    /\ Server.saveMask E (call_maskDataUrl call) (Some (call_originalFileName call))
       = saved_run E
           (mask_file_path E (Some (originalFileName (session p))) "png")
           (Server.base64_decode E payload).
Proof.
  intros Himg Hmask Hrun Hurl Hpayload Hmk Hwr.
  eexists. split; [exact (confirmClick_makes_call B p img c Himg Hmask Hrun)|].
  cbn [call_name call_maskDataUrl call_originalFileName].
  split; [reflexivity|]. split; [exact Hurl|].
  rewrite saveMask_cases by exact Hmk. rewrite Hurl.
  assert (Hm : match_data_url (data_url_prefix "png" ++ payload) = Some ("png", payload)%string).
  { apply match_data_url_iff. split; [reflexivity|]. split; [|exact Hpayload].
    split; [discriminate | reflexivity]. }
  rewrite Hm. cbv zeta. rewrite Hwr. reflexivity.
Qed.

Lemma confirm_call_is_saved_witness :
  exists call,
    serverCalls (snd (Client.confirmClick (Demo.browser 17) (Demo.page true)))
      = serverCalls (Demo.page true) ++ [call]
    /\ call_name call = "save-mask"%string
    /\ call_maskDataUrl call
       = (data_url_prefix "png" ++ "BAIE/////wAAAP8AAAD/AAAA/wAAAP8AAAD/AAAA/wAAAP8=")%string
    /\ Server.saveMask (Demo.node true 17) (call_maskDataUrl call)
         (Some (call_originalFileName call))
       = saved_run (Demo.node true 17)
           (mask_file_path (Demo.node true 17)
              (Some (originalFileName (session (Demo.page true)))) "png")
           (Server.base64_decode (Demo.node true 17)
              "BAIE/////wAAAP8AAAD/AAAA/wAAAP8AAAD/AAAA/wAAAP8=").
Proof.
  apply (confirm_call_is_saved (Demo.browser 17) (Demo.node true 17) (Demo.page true)
           (mkImage 4 2)
           (mkCanvas 4 2 [255; 255; 255; 255;  0; 0; 0; 255;  0; 0; 0; 255;
                          0; 0; 0; 255;  0; 0; 0; 255;  0; 0; 0; 255;
                          0; 0; 0; 255;  0; 0; 0; 255])
           "BAIE/////wAAAP8AAAD/AAAA/wAAAP8AAAD/AAAA/wAAAP8=");
    first [ reflexivity
          | vm_compute; reflexivity
          | split; [discriminate | vm_compute; reflexivity] ].
Defined.

(** X10.  The two tools read a data URL alike: whenever the save-mask
    pattern matches, the prefix the apply-mask handler strips leaves
    exactly the payload group, so both decode the same base64 text, and
    the extension group and the payload put back behind the prefix give
    the input. *)
Theorem matched_payload_is_stripped (E : Server.Node) (s ext payload : string) :
  match_data_url s = Some (ext, payload) ->
  stripPrefix s = payload
  /\ Server.base64_decode E (stripPrefix s) = Server.base64_decode E payload
  /\ s = (data_url_prefix ext ++ payload)%string.
Proof.
  intros Hm. unfold match_data_url in Hm.
  destruct (match_prefix s) as [[e q]|] eqn:Hp; [|discriminate].
  destruct (negb (String.eqb q EmptyString) && forall_chars _ q); [|discriminate].
  injection Hm as -> ->.
  assert (Hs : stripPrefix s = payload) by (unfold stripPrefix; rewrite Hp; reflexivity).
  rewrite Hs. repeat split.
  apply match_prefix_inv in Hp. exact (proj1 Hp).
Qed.

Lemma matched_payload_is_stripped_witness :
  stripPrefix "data:image/png;base64,AAEC" = "AAEC"%string
  /\ Server.base64_decode (Demo.node true 17) (stripPrefix "data:image/png;base64,AAEC")
     = Server.base64_decode (Demo.node true 17) "AAEC"
  /\ "data:image/png;base64,AAEC"%string = (data_url_prefix "png" ++ "AAEC")%string.
Proof.
  apply (matched_payload_is_stripped (Demo.node true 17)
           "data:image/png;base64,AAEC" "png" "AAEC").
  reflexivity.
Defined.

(** ** The alpha loop on buffers of any size *)

Lemma lookup_typed_set_any (buf : list Z) (i v : Z) (j : nat) :
  typed_set buf i v !! j =
  if (0 <=? i) && (Z.of_nat j =? i) && (Z.of_nat j <? Z.of_nat (length buf))
  then Some v else buf !! j.
Proof.
  unfold typed_set.
  destruct (Z.leb_spec 0 i) as [Hi | Hi]; [|reflexivity]. cbn [andb].
  destruct (Z.eqb_spec (Z.of_nat j) i) as [He | He]; cbn [andb].
  - replace (Z.to_nat i) with j by lia.
    destruct (Z.ltb_spec (Z.of_nat j) (Z.of_nat (length buf))) as [Hl | Hl].
    + apply list_lookup_insert_eq. lia.
    + rewrite list_insert_ge by lia. reflexivity.
  - apply list_lookup_insert_ne. lia.
Qed.

(** The loop writes the alpha bytes of the first [n] pixels that exist and
    nothing else, whatever the sizes of the two buffers. *)
Lemma lookup_setAlpha_any (n : Z) (maskData imageData : list Z) (j : nat) :
  let out := Server.setAlpha n maskData imageData in
  length out = length imageData
  /\ out !! j =
     if (Z.of_nat j mod 4 =? 3) && (Z.of_nat j / 4 <? n)
        && (Z.of_nat j <? Z.of_nat (length imageData))
     then Some (default 0 (maskData !! Z.to_nat (Z.of_nat j / 4)))
     else imageData !! j.
Proof.
  cbv zeta. destruct (Z_lt_le_dec n 0) as [Hneg | Hn0].
  - unfold Server.setAlpha, for_range, range.
    replace (Z.to_nat n) with 0%nat by lia. cbn.
    split; [reflexivity|].
    destruct (Z.ltb_spec (Z.of_nat j / 4) n); [lia|].
    rewrite andb_false_r. reflexivity.
  - pattern n. apply natlike_ind; [| |exact Hn0]; clear n Hn0.
    + unfold Server.setAlpha. rewrite for_range_0. split; [reflexivity|].
      destruct (Z.ltb_spec (Z.of_nat j / 4) 0); [lia|].
      rewrite andb_false_r. reflexivity.
    + intros n Hn0 [IHlen IH]. unfold Z.succ.
      unfold Server.setAlpha in *. rewrite for_range_succ by exact Hn0.
      split; [rewrite length_typed_set; exact IHlen|].
      rewrite lookup_typed_set_any, IHlen, IH.
      destruct (Z.leb_spec 0 (n * 4 + 3)); [|lia]. cbn [andb].
      destruct (Z.eqb_spec (Z.of_nat j) (n * 4 + 3)) as [He | He]; cbn [andb].
      * assert (Hmod : Z.of_nat j mod 4 = 3) by lia.
        assert (Hdiv : Z.of_nat j / 4 = n) by lia.
        rewrite Hmod, Hdiv. cbn [Z.eqb Pos.eqb andb].
        destruct (Z.ltb_spec n (n + 1)); [|lia].
        destruct (Z.ltb_spec n n); [lia|]. cbn [andb].
        destruct (Z.ltb_spec (Z.of_nat j) (Z.of_nat (length imageData)));
          cbn [andb]; reflexivity.
      * destruct (Z.eqb_spec (Z.of_nat j mod 4) 3) as [Hmod | Hmod]; [|reflexivity].
        cbn [andb].
        destruct (Z.ltb_spec (Z.of_nat j / 4) n);
          destruct (Z.ltb_spec (Z.of_nat j / 4) (n + 1)); try reflexivity; lia.
Qed.

(** X11.  Compositing changes alpha bytes only: for every image buffer,
    mask buffer and metadata (also of mismatched sizes, also with an
    undefined width or height), the buffer handed to the encoder has the
    length of the image buffer and the same red, green and blue bytes. *)
Theorem composite_keeps_colour (width height : option Z)
    (imageData maskData : list Z) (j : nat) :
  length (Server.composite width height imageData maskData) = length imageData
  /\ (Z.of_nat j mod 4 <> 3 ->
      Server.composite width height imageData maskData !! j = imageData !! j).
Proof.
  unfold Server.composite.
  destruct (lookup_setAlpha_any (Server.or_zero width * Server.or_zero height)
              maskData imageData j) as [Hlen Hj].
  split; [exact Hlen|]. intros Hmod. rewrite Hj.
  destruct (Z.eqb_spec (Z.of_nat j mod 4) 3); [contradiction|]. reflexivity.
Qed.

(** X12.  The alpha of pixel i after compositing, for an image buffer that
    has the pixel: within the first width*height pixels it is the mask's
    byte i, or 0 when the mask buffer is too short to have one; beyond
    them (and everywhere when a dimension is undefined) it is the image's
    own alpha. *)
Theorem composite_alpha_of_pixel (width height : option Z)
    (imageData maskData : list Z) (i : nat) :
  (4 * i + 3 < length imageData)%nat ->
  Server.composite width height imageData maskData !! (4 * i + 3)%nat
  = if Z.of_nat i <? Server.or_zero width * Server.or_zero height
    then Some (default 0 (maskData !! i))
    else imageData !! (4 * i + 3)%nat.
Proof.
  intros Hi. unfold Server.composite.
  destruct (lookup_setAlpha_any (Server.or_zero width * Server.or_zero height)
              maskData imageData (4 * i + 3)%nat) as [_ ->].
  assert (Hmod : Z.of_nat (4 * i + 3) mod 4 = 3) by lia.
  assert (Hdiv : Z.of_nat (4 * i + 3) / 4 = Z.of_nat i) by lia.
  rewrite Hmod, Hdiv, Nat2Z.id. cbn [Z.eqb Pos.eqb andb].
  destruct (Z.ltb_spec (Z.of_nat (4 * i + 3)) (Z.of_nat (length imageData))); [|lia].
  rewrite andb_true_r. reflexivity.
Qed.

Lemma composite_alpha_of_pixel_witness :
  Server.composite (Some 2) (Some 1) [10; 20; 30; 255; 40; 50; 60; 255] [7] !! (4 * 1 + 3)%nat
  = if Z.of_nat 1 <? Server.or_zero (Some 2) * Server.or_zero (Some 1)
    then Some (default 0 ([7] !! 1%nat))
    else [10; 20; 30; 255; 40; 50; 60; 255] !! (4 * 1 + 3)%nat.
Proof.
  apply (composite_alpha_of_pixel (Some 2) (Some 1)
           [10; 20; 30; 255; 40; 50; 60; 255] [7] 1).
  cbn. lia.
Defined.

(** A mask of one byte on an image of two pixels: the second pixel, which
    the mask does not reach, becomes transparent. *)
Example composite_short_mask :
  Server.composite (Some 2) (Some 1) [10; 20; 30; 255; 40; 50; 60; 255] [7]
  = [10; 20; 30; 7; 40; 50; 60; 0].
Proof. reflexivity. Qed.

(** X13.  Compositing is idempotent: applying the same mask to an already
    composited buffer changes nothing. *)
Theorem composite_idempotent (width height : option Z) (imageData maskData : list Z) :
  Server.composite width height
    (Server.composite width height imageData maskData) maskData
  = Server.composite width height imageData maskData.
Proof.
  unfold Server.composite. set (n := Server.or_zero width * Server.or_zero height).
  apply list_eq. intros j.
  destruct (lookup_setAlpha_any n maskData (Server.setAlpha n maskData imageData) j)
    as [_ ->].
  destruct (lookup_setAlpha_any n maskData imageData j) as [Hlen Hj].
  rewrite Hlen, Hj.
  destruct ((Z.of_nat j mod 4 =? 3) && (Z.of_nat j / 4 <? n)
            && (Z.of_nat j <? Z.of_nat (length imageData))); reflexivity.
Qed.

(** ** The editor over sequences of events *)

(** The radius [brushSize / 2] is negative exactly when the brush size
    is. *)
Lemma radius_negative (b : Z) : ltb (div (of_Z b) (of_Z 2)) (of_Z 0) = (b <? 0).
Proof.
  rewrite div_of_Z by lia. rewrite fl_exact.
  - unfold ltb, of_Z. rewrite Z.ltb_compare.
    replace (inject_Z b / inject_Z 2 ?= inject_Z 0)%Q with (b ?= 0); [reflexivity|].
    unfold Qcompare, Qdiv, Qmult, Qinv, inject_Z. cbn [Qnum Qden].
    rewrite !Z.mul_1_r. reflexivity.
  - apply exact64_spec. exists b. change (inject_Z 2) with 2%Q. field.
Qed.

(** A press on a loaded image: the dot is drawn unless its radius is
    negative. *)
Lemma pointerDown_loaded (P : Editor.Painter) (e : Editor.Pointer) (s : Editor.State)
    (img : Image) :
  loadedImage (session (Editor.page s)) = Some img ->
  Editor.pointerDown P e s
  = let s1 := Editor.beginPath
                (Editor.moveTo (Editor.getCanvasPos e)
                   (Editor.beginPath (Editor.set_isDrawing true s))) in
    if brushSize (session (Editor.page s)) <? 0 then s1
    else Editor.set_hasMaskContent true
           (Editor.fill P
              (Editor.arc (Editor.getCanvasPos e)
                 (div (of_Z (brushSize (session (Editor.page s)))) (of_Z 2)) s1)).
Proof.
  intros Himg. unfold Editor.pointerDown, Editor.drawDot. rewrite Himg. cbv zeta.
  rewrite radius_negative. reflexivity.
Qed.

Lemma pointerDown_invariant (P : Editor.Painter) (e : Editor.Pointer) (s : Editor.State) :
  editor_invariant s -> editor_invariant (Editor.pointerDown P e s).
Proof.
  intros Hinv. pose proof Hinv as (H1 & H2 & H3).
  destruct (loadedImage (session (Editor.page s))) as [img|] eqn:Himg.
  - rewrite (pointerDown_loaded P e s img Himg). cbv zeta.
    set (radius := div _ _).
    destruct (brushSize (session (Editor.page s)) <? 0);
      unfold editor_invariant; cbn; rewrite Himg; repeat split; eauto.
  - unfold Editor.pointerDown. rewrite Himg. exact Hinv.
Qed.

Lemma confirmClick_session (B : Browser) (p : Page) :
  session (snd (Client.confirmClick B p)) = session p.
Proof.
  confirm_cases B p (generateMaskDataUrl_page B); try reflexivity.
  match goal with
  | |- context [gen ?q] =>
      specialize (Hgen q); destruct (gen q) as [[e | url] q']
  end; cbn [snd] in Hgen; subst q'; cbv beta iota; [reflexivity|].
  match goal with
  | |- context [answer ?c] => destruct (answer c) as [msg | [err [[|filePath]|]]]
  end; try destruct err; reflexivity.
Qed.

Lemma resizeCanvases_invariant (B : Browser) (s : Editor.State) :
  editor_invariant s -> editor_invariant (Editor.resizeCanvases B s).
Proof.
  unfold editor_invariant, Editor.resizeCanvases. intros (H1 & H2 & H3).
  destruct (loadedImage (session (Editor.page s))) as [img|] eqn:Himg;
    [|rewrite Himg; auto].
  cbv zeta.
  destruct (Server.truthy _); cbn; rewrite ?Himg;
    (split; [intros _; eauto|]); (split; [intros _; eauto|]);
    intros _ Hb; destruct (Z.ltb_spec 0 (brushSize (session (Editor.page s))));
    reflexivity || lia.
Qed.

Lemma clearMask_invariant (s : Editor.State) :
  editor_invariant s -> editor_invariant (Editor.clearMask s).
Proof.
  unfold editor_invariant, Editor.clearMask. intros (H1 & H2 & H3). cbn.
  split; [discriminate|]. split; [exact H2|].
  intros Himg Hb. destruct (Z.ltb_spec 0 (brushSize (session (Editor.page s))));
    reflexivity || lia.
Qed.

Lemma setStatus_invariant (msg type : string) (s : Editor.State) :
  editor_invariant s -> editor_invariant (Editor.setStatus msg type s).
Proof. intros H. exact H. Qed.

(** What the [onload] of a load leaves behind. *)
Lemma imageLoaded_page (B : Browser) (P : Editor.Painter)
    (req : Editor.LoadRequest) (img : Image) (s : Editor.State) :
  let s' := Editor.imageLoaded B P req img s in
  let p := Editor.page s in
  session (Editor.page s')
  = mkSession (Some img)
      (if Server.truthy (Editor.load_fileName req)
       then default EmptyString (Editor.load_fileName req)
       else originalFileName (session p))
      (isDrawing (session p)) (brushSize (session p)) false
      (Editor.rect_of (displayTransform (wrapperW (dom p)) (wrapperH (dom p))
                         (naturalWidth img) (naturalHeight img)))
  /\ maskCanvas (dom (Editor.page s'))
     = Editor.transparent (wrapperW (dom p)) (wrapperH (dom p))
  /\ Editor.ctxLineWidth s'
     = (if 0 <? brushSize (session p) then brushSize (session p) else 1)
  /\ Editor.ctxPath s' = []
  /\ Editor.pendingRemaps s' = Editor.pendingRemaps s
  /\ Editor.pendingLoads s' = Editor.pendingLoads s
  /\ serverCalls (Editor.page s') = serverCalls p
  /\ wrapperW (dom (Editor.page s')) = wrapperW (dom p)
  /\ wrapperH (dom (Editor.page s')) = wrapperH (dom p)
  /\ confirmDisabled (dom (Editor.page s')) = false
  /\ Editor.clearDisabled s' = false
  /\ Editor.dropZoneHidden s' = true
  /\ Editor.storage s'
     = (if Editor.load_persist req
        then Editor.persistImage P (Editor.load_src req) (Editor.load_fileName req)
               (Editor.storage s)
        else Editor.storage s).
Proof.
  cbv zeta. unfold Editor.imageLoaded. cbv zeta.
  destruct (Editor.load_persist req), (Server.truthy (Editor.load_fileName req));
    repeat split; reflexivity.
Qed.

Lemma imageLoaded_invariant (B : Browser) (P : Editor.Painter)
    (req : Editor.LoadRequest) (img : Image) (s : Editor.State) :
  editor_invariant (Editor.imageLoaded B P req img s).
Proof.
  destruct (imageLoaded_page B P req img s) as (Hs & _ & Hlw & _).
  unfold editor_invariant. cbv zeta. rewrite Hs, Hlw.
  cbn [hasMaskContent isDrawing loadedImage brushSize].
  split; [discriminate|]. split; [intros _; eauto|].
  intros _ Hb. destruct (Z.ltb_spec 0 (brushSize (session (Editor.page s))));
    reflexivity || lia.
Qed.

(** Every listener keeps the invariant. *)
Lemma handle_invariant (B : Browser) (P : Editor.Painter) (ev : Editor.Event)
    (s : Editor.State) :
  editor_invariant s -> editor_invariant (Editor.handle B P ev s).
Proof.
  intros Hinv. pose proof Hinv as (H1 & H2 & H3).
  destruct ev; cbn [Editor.handle].
  - (* mousedown *)
    apply pointerDown_invariant, Hinv.
  - (* mousemove *)
    unfold Editor.pointerMove.
    destruct (isDrawing (session (Editor.page s))) eqn:Hd; [|exact Hinv].
    unfold editor_invariant. cbn. rewrite Hd. repeat split; auto.
  - (* mouseup *)
    unfold Editor.pointerUp.
    destruct (isDrawing (session (Editor.page s))) eqn:Hd; [|exact Hinv].
    unfold editor_invariant. cbn. repeat split; auto; discriminate.
  - apply pointerDown_invariant, Hinv.
  - unfold Editor.pointerMove.
    destruct (isDrawing (session (Editor.page s))) eqn:Hd; [|exact Hinv].
    unfold editor_invariant. cbn. rewrite Hd. repeat split; auto.
  - unfold Editor.pointerUp.
    destruct (isDrawing (session (Editor.page s))) eqn:Hd; [|exact Hinv].
    unfold editor_invariant. cbn. repeat split; auto; discriminate.
  - (* brush *)
    unfold editor_invariant, Editor.brushInput. cbn.
    repeat split; auto. intros _ Hb.
    destruct (Z.ltb_spec 0 value); reflexivity || lia.
  - (* clear *)
    unfold Editor.clearClick. apply setStatus_invariant, clearMask_invariant, Hinv.
  - (* confirm *)
    unfold editor_invariant, Editor.confirmClick, Editor.on_page, Editor.with_page.
    cbn [Editor.page Editor.ctxLineWidth].
    rewrite confirmClick_session. exact Hinv.
  - (* resize *)
    unfold Editor.wrapperResized.
    match goal with
    | |- context [Editor.resizeCanvases B ?q] =>
        assert (Hq : editor_invariant q) by exact Hinv;
        pose proof (resizeCanvases_invariant B q Hq) as Hr
    end.
    cbn [Editor.page Editor.with_dom Editor.with_page session] in *.
    destruct (loadedImage (session (Editor.page s))); [exact Hr | exact Hinv].
  - (* snapshot *)
    unfold Editor.snapshotLoaded. destruct (Editor.pendingRemaps s); exact Hinv.
  - (* load completed *)
    unfold Editor.completeLoad.
    destruct (Editor.pendingLoads s !! k) as [req|]; [|exact Hinv].
    destruct decoded as [img|]; [apply imageLoaded_invariant|exact Hinv].
  - unfold Editor.toolInput. destruct (Server.truthy image); exact Hinv.
  - unfold Editor.toolResult. destruct (Server.truthy message); exact Hinv.
  - exact Hinv.
  - unfold Editor.connected.
    destruct (Server.truthy _ && negb _); exact Hinv.
Qed.

(** The invariant holds after any sequence of events from a state that has
    it. *)
Lemma run_invariant (B : Browser) (P : Editor.Painter) (events : list Editor.Event)
    (s : Editor.State) :
  editor_invariant s -> editor_invariant (Editor.run B P events s).
Proof.
  unfold Editor.run. revert s.
  induction events as [|ev events IH]; intros s Hs; cbn [fold_left].
  - exact Hs.
  - apply IH, handle_invariant, Hs.
Qed.

Lemma initial_invariant (d : Dom) (stored : list (string * string)) :
  editor_invariant (Editor.initial d stored).
Proof.
  unfold editor_invariant. cbn. repeat split; try discriminate.
  intros [img Himg]. discriminate Himg.
Qed.

(** X14.  Whatever the events and the browser, the editor started from
    its initial state has paint ([hasMaskContent]) only when an image is
    loaded, is in a stroke ([isDrawing]) only when an image is loaded, and,
    with an image loaded and a positive brush size, its mask context
    strokes with exactly the brush size. *)
Theorem editor_invariant_reachable (B : Browser) (P : Editor.Painter) (d : Dom)
    (stored : list (string * string)) (events : list Editor.Event) :
  editor_invariant (Editor.run B P events (Editor.initial d stored)).
Proof.
  unfold Editor.run.
  generalize (initial_invariant d stored). generalize (Editor.initial d stored).
  induction events as [|ev events IH]; intros s Hs; cbn [fold_left].
  - exact Hs.
  - apply IH, handle_invariant, Hs.
Qed.

(** ** Selections that are discarded *)

(** The click handler when its guard refuses. *)
Lemma confirmClick_refused (B : Browser) (p : Page) :
  loadedImage (session p) = None \/ hasMaskContent (session p) = false ->
  Client.confirmClick B p
  = Client.setStatus "Paint a selection on the image first" "error" p.
Proof.
  intros Hguard.
  assert (Htest : negb (bool_decide (is_Some (loadedImage (session p))))
                  || negb (hasMaskContent (session p)) = true).
  { destruct Hguard as [-> | ->]; [reflexivity | apply orb_true_r]. }
  unfold Client.confirmClick, Client.bind at 1, Client.get.
  rewrite Htest. reflexivity.
Qed.

Lemma blank_zeros (w h : Z) (data : list Z) :
  blank (mkCanvas w h (map (fun _ => 0) data)).
Proof.
  intros i v. cbn [c_data]. rewrite list_lookup_fmap.
  destruct (data !! i); cbn; congruence.
Qed.

Lemma blank_transparent (w h : Z) : blank (Editor.transparent w h).
Proof.
  intros i v. unfold Editor.transparent. cbn [c_data]. rewrite list_lookup_fmap.
  destruct (range (w * h * 4) !! i); cbn; congruence.
Qed.

Lemma canvas_byte_blank (c : Canvas) (x y k : Z) :
  blank c -> canvas_byte c x y k = 0.
Proof.
  intros Hb. unfold canvas_byte.
  destruct ((0 <=? x) && (x <? c_width c) && (0 <=? y) && (y <? c_height c));
    [|reflexivity].
  destruct (c_data c !! Z.to_nat ((y * c_width c + x) * 4 + k)) as [v|] eqn:Hv;
    [|reflexivity].
  cbn. exact (Hb _ _ Hv).
Qed.

Lemma selected_blank (c : Canvas) (Wv Hv : Z) (r : DisplayRect) (x y : Z) :
  blank c -> selected c Wv Hv r x y = false.
Proof.
  intros Hb. unfold selected.
  destruct (as_Z _) as [dx|]; [|reflexivity].
  destruct (as_Z _) as [dy|]; [|reflexivity].
  rewrite canvas_byte_blank by exact Hb. apply andb_false_r.
Qed.

(** The rasterizer on a blank mask canvas. *)
Lemma nativeMaskCanvas_blank (p : Page) (img : Image) :
  loadedImage (session p) = Some img ->
  0 < naturalWidth img -> 0 < naturalHeight img ->
  0 < wrapperW (dom p) -> 0 < wrapperH (dom p) ->
  blank (maskCanvas (dom p)) ->
  exists out : list Z,
    Client.nativeMaskCanvas p
    = (inr (mkCanvas (naturalWidth img) (naturalHeight img) out), p)
    /\ forall x y, 0 <= x < naturalWidth img -> 0 <= y < naturalHeight img ->
         pixel_at out (naturalWidth img) x y = Some opaque_black.
Proof.
  intros Himg HWi HHi HWv HHv Hb.
  destruct (nativeMaskCanvas_pixels p img Himg HWi HHi HWv HHv)
    as (out & Hrun & Hpix).
  exists out. split; [exact Hrun|].
  intros x y Hx Hy. rewrite (Hpix x y Hx Hy), selected_blank by exact Hb.
  reflexivity.
Qed.

(** X15.  Loading an image discards the selection: when the [onload] of a
    load has run, the new image is the loaded one, the mask canvas is a
    transparent canvas of the wrapper's size, [hasMaskContent] is false,
    the brush size is what it was, no snapshot remap has been scheduled
    and no server call made; and a click on the confirm button at that
    point makes no server call but asks for a selection. *)
Theorem load_discards_selection (B : Browser) (P : Editor.Painter)
    (req : Editor.LoadRequest) (img : Image) (s : Editor.State) :
  let s1 := Editor.imageLoaded B P req img s in
  let s2 := Editor.confirmClick B s1 in
  loadedImage (session (Editor.page s1)) = Some img
  /\ hasMaskContent (session (Editor.page s1)) = false
  /\ maskCanvas (dom (Editor.page s1))
     = Editor.transparent (wrapperW (dom (Editor.page s))) (wrapperH (dom (Editor.page s)))
  /\ blank (maskCanvas (dom (Editor.page s1)))
  /\ brushSize (session (Editor.page s1)) = brushSize (session (Editor.page s))
  /\ Editor.pendingRemaps s1 = Editor.pendingRemaps s
  /\ serverCalls (Editor.page s1) = serverCalls (Editor.page s)
  /\ serverCalls (Editor.page s2) = serverCalls (Editor.page s)
  /\ statusText (dom (Editor.page s2)) = "Paint a selection on the image first"%string
  /\ statusClass (dom (Editor.page s2)) = "status-bar error"%string.
Proof.
  cbv zeta.
  destruct (imageLoaded_page B P req img s)
    as (Hs & Hc & _ & _ & Hr & _ & Hcalls & _).
  rewrite Hs, Hc. cbn [loadedImage hasMaskContent brushSize].
  do 3 (split; [reflexivity|]). split; [apply blank_transparent|].
  split; [reflexivity|]. split; [exact Hr|]. split; [exact Hcalls|].
  unfold Editor.confirmClick, Editor.on_page, Editor.with_page. cbn [Editor.page].
  rewrite confirmClick_refused by (right; rewrite Hs; reflexivity).
  cbn [Client.setStatus Client.set_dom Client.modify snd serverCalls dom statusText
       statusClass].
  split; [exact Hcalls|]. split; reflexivity.
Qed.

(** X16.  The clear button discards the selection and nothing else: the
    mask canvas keeps its size and becomes blank, [hasMaskContent] becomes
    false, the image, the file name and the brush size stay, the status
    bar says so; and a click on the confirm button at that point makes no
    server call but asks for a selection. *)
Theorem clear_discards_selection (B : Browser) (s : Editor.State) :
  let s1 := Editor.clearClick s in
  let s2 := Editor.confirmClick B s1 in
  blank (maskCanvas (dom (Editor.page s1)))
  /\ c_width (maskCanvas (dom (Editor.page s1))) = c_width (maskCanvas (dom (Editor.page s)))
  /\ c_height (maskCanvas (dom (Editor.page s1))) = c_height (maskCanvas (dom (Editor.page s)))
  /\ length (c_data (maskCanvas (dom (Editor.page s1))))
     = length (c_data (maskCanvas (dom (Editor.page s))))
  /\ session (Editor.page s1)
     = mkSession (loadedImage (session (Editor.page s)))
                 (originalFileName (session (Editor.page s)))
                 (isDrawing (session (Editor.page s)))
                 (brushSize (session (Editor.page s)))
                 false
                 (currentImageRect (session (Editor.page s)))
  /\ statusText (dom (Editor.page s1)) = "Mask cleared"%string
  /\ statusClass (dom (Editor.page s1)) = "status-bar"%string
  /\ serverCalls (Editor.page s2) = serverCalls (Editor.page s)
  /\ statusText (dom (Editor.page s2)) = "Paint a selection on the image first"%string.
Proof.
  cbv zeta.
  assert (Hs : session (Editor.page (Editor.clearClick s))
               = mkSession (loadedImage (session (Editor.page s)))
                   (originalFileName (session (Editor.page s)))
                   (isDrawing (session (Editor.page s)))
                   (brushSize (session (Editor.page s)))
                   false
                   (currentImageRect (session (Editor.page s)))) by reflexivity.
  assert (Hc : maskCanvas (dom (Editor.page (Editor.clearClick s)))
               = mkCanvas (c_width (maskCanvas (dom (Editor.page s))))
                          (c_height (maskCanvas (dom (Editor.page s))))
                          (map (fun _ => 0) (c_data (maskCanvas (dom (Editor.page s))))))
    by reflexivity.
  assert (Hcalls : serverCalls (Editor.page (Editor.clearClick s))
                   = serverCalls (Editor.page s)) by reflexivity.
  rewrite Hc. split; [apply blank_zeros|].
  cbn [c_width c_height c_data]. do 2 (split; [reflexivity|]).
  split; [apply length_map|]. split; [exact Hs|].
  do 2 (split; [reflexivity|]).
  unfold Editor.confirmClick, Editor.on_page, Editor.with_page. cbn [Editor.page].
  rewrite confirmClick_refused by (right; rewrite Hs; reflexivity).
  cbn [Client.setStatus Client.set_dom Client.modify snd serverCalls dom statusText
       statusClass].
  split; [exact Hcalls | reflexivity].
Qed.

(** ** A resize before the snapshot is back *)

(** The click on a page whose mask canvas is blank although the paint flag
    is set: the call carries an entirely black mask. *)
Lemma confirmClick_blank_mask (B : Browser) (p : Page) (img : Image) :
  loadedImage (session p) = Some img ->
  hasMaskContent (session p) = true ->
  0 < naturalWidth img -> 0 < naturalHeight img ->
  0 < wrapperW (dom p) -> 0 < wrapperH (dom p) ->
  blank (maskCanvas (dom p)) ->
  exists out : list Z,
    serverCalls (snd (Client.confirmClick B p))
    = serverCalls p
      ++ [mkServerCall "save-mask"
            (toDataURL_png B (mkCanvas (naturalWidth img) (naturalHeight img) out))
            (originalFileName (session p))]
    /\ forall x y, 0 <= x < naturalWidth img -> 0 <= y < naturalHeight img ->
         pixel_at out (naturalWidth img) x y = Some opaque_black.
Proof.
  intros Himg Hmask HWi HHi HWv HHv Hb.
  pose (Q := fun out : list Z =>
               forall x y, 0 <= x < naturalWidth img -> 0 <= y < naturalHeight img ->
                 pixel_at out (naturalWidth img) x y = Some opaque_black).
  change (exists out : list Z,
            serverCalls (snd (Client.confirmClick B p))
            = serverCalls p
              ++ [mkServerCall "save-mask"
                    (toDataURL_png B (mkCanvas (naturalWidth img) (naturalHeight img) out))
                    (originalFileName (session p))]
            /\ Q out).
  assert (Hfact : forall q : Page,
            loadedImage (session q) = Some img ->
            wrapperW (dom q) = wrapperW (dom p) ->
            wrapperH (dom q) = wrapperH (dom p) ->
            maskCanvas (dom q) = maskCanvas (dom p) ->
            exists out : list Z,
              Client.generateMaskDataUrl B q
              = (inr (toDataURL_png B
                        (mkCanvas (naturalWidth img) (naturalHeight img) out)), q)
              /\ Q out).
  { intros q Hq Hw Hh Hc.
    destruct (nativeMaskCanvas_blank q img Hq HWi HHi) as (out & Hrun & Hpix).
    - rewrite Hw. exact HWv.
    - rewrite Hh. exact HHv.
    - rewrite Hc. exact Hb.
    - exists out. split; [|exact Hpix].
      unfold Client.generateMaskDataUrl, Client.bind. rewrite Hrun. reflexivity. }
  clearbody Q. clear HWi HHi HWv HHv Hb. rename img into image.
  revert Himg Hmask.
  confirm_cases B p Hfact; intros Himg Hmask;
    try discriminate Himg; try discriminate Hmask.
  injection Himg as ->.
  match goal with
  | |- context [gen ?q] =>
      destruct (Hgen q eq_refl eq_refl eq_refl eq_refl) as (out & -> & Hout)
  end.
  cbv beta iota. exists out. split; [|exact Hout].
  match goal with
  | |- context [answer ?call] => destruct (answer call) as [msg | [err [[|filePath]|]]]
  end; try destruct err; reflexivity.
Qed.

(** What the resize callback leaves behind when an image is loaded. *)
Lemma wrapperResized_page (B : Browser) (w h : Z) (s : Editor.State) (img : Image) :
  loadedImage (session (Editor.page s)) = Some img ->
  let s' := Editor.wrapperResized B w h s in
  let p := Editor.page s in
  let newRect := Editor.rect_of (displayTransform w h (naturalWidth img) (naturalHeight img)) in
  let snapshot :=
    if hasMaskContent (session p) && gtb (r_drawW (currentImageRect (session p))) (of_Z 0)
    then Some (toDataURL_png B (maskCanvas (dom p)))
    else None in
  session (Editor.page s')
  = mkSession (Some img) (originalFileName (session p)) (isDrawing (session p))
              (brushSize (session p)) (hasMaskContent (session p)) newRect
  /\ maskCanvas (dom (Editor.page s')) = Editor.transparent w h
  /\ wrapperW (dom (Editor.page s')) = w
  /\ wrapperH (dom (Editor.page s')) = h
  /\ serverCalls (Editor.page s') = serverCalls p
  /\ Editor.pendingRemaps s'
     = Editor.pendingRemaps s
       ++ (if Server.truthy snapshot
           then [Editor.mkRemap (default EmptyString snapshot)
                   (currentImageRect (session p)) newRect]
           else []).
Proof.
  intros Himg. cbv zeta.
  unfold Editor.wrapperResized, Editor.resizeCanvases. cbv zeta.
  cbn [Editor.with_dom Editor.with_page Editor.page session dom wrapperW wrapperH
       maskCanvas].
  rewrite Himg.
  destruct (Server.truthy _); repeat split; try reflexivity;
    cbn; rewrite ?Himg, ?app_nil_r; reflexivity.
Qed.

(** X17.  A resize of the wrapper while there is paint leaves the selection
    missing until the snapshot has been decoded: right after the callback
    the mask canvas is a transparent canvas of the new size while
    [hasMaskContent] is still true, so a click on the confirm button at
    that point is not refused but sends a [save-mask] call whose mask, at
    the image's native size, is opaque black at every pixel.  When the old
    image rectangle has no positive width no snapshot was taken and
    nothing is in flight to bring the paint back; otherwise, once the
    snapshot's [onload] runs (no older remap being in flight), the canvas
    is that snapshot drawn from the old rectangle into the new one. *)
Theorem resize_drops_paint_until_remap (B : Browser) (P : Editor.Painter)
    (s : Editor.State) (img : Image) (w h : Z) :
  loadedImage (session (Editor.page s)) = Some img ->
  hasMaskContent (session (Editor.page s)) = true ->
  0 < naturalWidth img -> 0 < naturalHeight img -> 0 < w -> 0 < h ->
  let p := Editor.page s in
  let oldRect := currentImageRect (session p) in
  let newRect := Editor.rect_of (displayTransform w h (naturalWidth img) (naturalHeight img)) in
  let snapshot := toDataURL_png B (maskCanvas (dom p)) in
  let s1 := Editor.wrapperResized B w h s in
  hasMaskContent (session (Editor.page s1)) = true
  /\ maskCanvas (dom (Editor.page s1)) = Editor.transparent w h
  /\ (exists out : list Z,
        serverCalls (Editor.page (Editor.confirmClick B s1))
        = serverCalls p
          ++ [mkServerCall "save-mask"
                (toDataURL_png B (mkCanvas (naturalWidth img) (naturalHeight img) out))
                (originalFileName (session p))]
        /\ forall x y, 0 <= x < naturalWidth img -> 0 <= y < naturalHeight img ->
             pixel_at out (naturalWidth img) x y = Some opaque_black)
  /\ (gtb (r_drawW oldRect) (of_Z 0) = false ->
      Editor.pendingRemaps s1 = Editor.pendingRemaps s)
  /\ (gtb (r_drawW oldRect) (of_Z 0) = true -> snapshot <> EmptyString ->
      Editor.pendingRemaps s = [] ->
      maskCanvas (dom (Editor.page (Editor.snapshotLoaded P s1)))
      = Editor.drawSnapshot P snapshot oldRect newRect (Editor.transparent w h)).
Proof.
  intros Himg Hmask HWi HHi Hw Hh. cbv zeta.
  destruct (wrapperResized_page B w h s img Himg)
    as (Hs & Hc & Hww & Hwh & Hcalls & Hr).
  rewrite Hmask in *. cbn [andb] in Hr.
  rewrite Hs, Hc. cbn [hasMaskContent].
  do 2 (split; [reflexivity|]). split; [|split].
  - destruct (confirmClick_blank_mask B (Editor.page (Editor.wrapperResized B w h s)) img)
      as (out & Hcall & Hout).
    + rewrite Hs. reflexivity.
    + rewrite Hs. reflexivity.
    + exact HWi.
    + exact HHi.
    + rewrite Hww. exact Hw.
    + rewrite Hwh. exact Hh.
    + rewrite Hc. apply blank_transparent.
    + exists out. split; [|exact Hout].
      unfold Editor.confirmClick, Editor.on_page, Editor.with_page. cbn [Editor.page].
      rewrite Hcall, Hcalls, Hs. reflexivity.
  - intros Hold. rewrite Hr, Hold. cbn. apply app_nil_r.
  - intros Hold Hsnap Hnone.
    rewrite Hold, Hnone in Hr. cbn [Server.truthy default] in Hr.
    assert (Ht : negb (String.eqb (toDataURL_png B (maskCanvas (dom (Editor.page s))))
                         EmptyString) = true).
    { apply negb_true_iff, String.eqb_neq. exact Hsnap. }
    rewrite Ht in Hr. cbn [app] in Hr.
    unfold Editor.snapshotLoaded. rewrite Hr. cbv zeta.
    cbn [Editor.with_maskCanvas Editor.with_dom Editor.with_page Editor.page dom
         maskCanvas Editor.remap_snapshot Editor.remap_old Editor.remap_new].
    rewrite Hc. reflexivity.
Qed.

Lemma resize_drops_paint_until_remap_witness :
  hasMaskContent (session (Editor.page (Editor.wrapperResized (Demo.browser 17) 3 3
                                          (Demo2.editor true)))) = true
  /\ maskCanvas (dom (Editor.page (Editor.wrapperResized (Demo.browser 17) 3 3
                                     (Demo2.editor true))))
     = Editor.transparent 3 3
  /\ (exists out : list Z,
        serverCalls (Editor.page (Editor.confirmClick (Demo.browser 17)
                       (Editor.wrapperResized (Demo.browser 17) 3 3 (Demo2.editor true))))
        = serverCalls (Editor.page (Demo2.editor true))
          ++ [mkServerCall "save-mask"
                (toDataURL_png (Demo.browser 17)
                   (mkCanvas (naturalWidth (mkImage 4 2)) (naturalHeight (mkImage 4 2)) out))
                (originalFileName (session (Editor.page (Demo2.editor true))))]
        /\ forall x y, 0 <= x < naturalWidth (mkImage 4 2) ->
             0 <= y < naturalHeight (mkImage 4 2) ->
             pixel_at out (naturalWidth (mkImage 4 2)) x y = Some opaque_black)
  /\ (gtb (r_drawW (currentImageRect (session (Editor.page (Demo2.editor true)))))
          (of_Z 0) = false ->
      Editor.pendingRemaps (Editor.wrapperResized (Demo.browser 17) 3 3 (Demo2.editor true))
      = Editor.pendingRemaps (Demo2.editor true))
  /\ (gtb (r_drawW (currentImageRect (session (Editor.page (Demo2.editor true)))))
          (of_Z 0) = true ->
      toDataURL_png (Demo.browser 17) (maskCanvas (dom (Editor.page (Demo2.editor true))))
        <> EmptyString ->
      Editor.pendingRemaps (Demo2.editor true) = [] ->
      maskCanvas (dom (Editor.page (Editor.snapshotLoaded Demo2.painter
                     (Editor.wrapperResized (Demo.browser 17) 3 3 (Demo2.editor true)))))
      = Editor.drawSnapshot Demo2.painter
          (toDataURL_png (Demo.browser 17) (maskCanvas (dom (Editor.page (Demo2.editor true)))))
          (currentImageRect (session (Editor.page (Demo2.editor true))))
          (Editor.rect_of (displayTransform 3 3 (naturalWidth (mkImage 4 2))
                             (naturalHeight (mkImage 4 2))))
          (Editor.transparent 3 3)).
Proof.
  apply (resize_drops_paint_until_remap (Demo.browser 17) Demo2.painter
           (Demo2.editor true) (mkImage 4 2) 3 3);
    first [reflexivity | cbn; lia].
Defined.

(** The new rectangle is the one binary64 gives: for an image of 11 x 22
    and a wrapper resized to 8 x 15 the snapshot is drawn into the
    rectangle at (1, 0) of size 7 x 15. *)
Example resize_rect_11x22_in_8x15 :
  Editor.rect_of (displayTransform 8 15 (naturalWidth (mkImage 11 22))
                    (naturalHeight (mkImage 11 22)))
  = mkImageRect (of_Z 1) (of_Z 0) (of_Z 7) (of_Z 15).
Proof. vm_compute. reflexivity. Qed.

(** ** Strokes *)

Lemma run_app (B : Browser) (P : Editor.Painter) (evs1 evs2 : list Editor.Event)
    (s : Editor.State) :
  Editor.run B P (evs1 ++ evs2) s = Editor.run B P evs2 (Editor.run B P evs1 s).
Proof. unfold Editor.run. apply fold_left_app. Qed.

(** Pointer moves during a stroke: one stroked segment per move. *)
Lemma moves_stroke (B : Browser) (P : Editor.Painter) (es : list Editor.Pointer) :
  forall s : Editor.State,
    isDrawing (session (Editor.page s)) = true ->
    let s' := Editor.run B P (map Editor.MouseMove es) s in
    maskCanvas (dom (Editor.page s'))
    = fold_left (fun c seg => Editor.strokePath P c seg (Editor.ctxLineWidth s))
        (segments (Editor.ctxPath s) (map Editor.getCanvasPos es))
        (maskCanvas (dom (Editor.page s)))
    /\ isDrawing (session (Editor.page s')) = true
    /\ loadedImage (session (Editor.page s')) = loadedImage (session (Editor.page s))
    /\ (hasMaskContent (session (Editor.page s)) = true ->
        hasMaskContent (session (Editor.page s')) = true)
    /\ (es <> [] -> hasMaskContent (session (Editor.page s')) = true).
Proof.
  induction es as [|e es IH]; intros s Hd; cbv zeta.
  - cbn. repeat split; try assumption; try reflexivity; auto; congruence.
  - cbn [map]. unfold Editor.run in *. cbn [fold_left Editor.handle segments].
    assert (Hstep : Editor.pointerMove P e s
                    = Editor.set_hasMaskContent true
                        (Editor.moveTo (Editor.getCanvasPos e)
                           (Editor.beginPath
                              (Editor.stroke P
                                 (Editor.lineTo (Editor.getCanvasPos e) s))))).
    { unfold Editor.pointerMove. rewrite Hd. reflexivity. }
    rewrite Hstep.
    match goal with
    | |- context [fold_left _ (map Editor.MouseMove es) ?q] =>
        destruct (IH q) as (Hc & Hd' & Hi & Hm & _); [cbn; exact Hd|]
    end.
    cbv zeta in Hc. rewrite Hc, Hd', Hi.
    split; [reflexivity|]. split; [reflexivity|]. split; [reflexivity|].
    split; intros _; apply Hm; reflexivity.
Qed.

(** X18.  A stroke with the mouse on a loaded image: the press fills the
    dot (the arc around the press point with half the brush size as its
    radius), every move strokes one segment with the line width the
    context had at the press, and the release ends the stroke with an
    empty path.  The first segment is stroked from the dot's own path (the
    [moveTo] of the press handler is dropped by the [beginPath] of
    [drawDot]), every later one from the point of the previous move.
    Afterwards there is paint.  The brush size is not negative: for a
    negative radius [arc] throws, the dot is not filled and no paint is
    recorded by the press. *)
Theorem stroke_paints (B : Browser) (P : Editor.Painter) (s : Editor.State)
    (img : Image) (e0 : Editor.Pointer) (es : list Editor.Pointer) :
  loadedImage (session (Editor.page s)) = Some img ->
  0 <= brushSize (session (Editor.page s)) ->
  let dot := [Editor.Arc (Editor.getCanvasPos e0)
                (div (of_Z (brushSize (session (Editor.page s)))) (of_Z 2))] in
  let s' := Editor.run B P
              (Editor.MouseDown e0 :: map Editor.MouseMove es ++ [Editor.MouseUp]) s in
  maskCanvas (dom (Editor.page s'))
  = fold_left (fun c seg => Editor.strokePath P c seg (Editor.ctxLineWidth s))
      (segments dot (map Editor.getCanvasPos es))
      (Editor.fillPath P (maskCanvas (dom (Editor.page s))) dot)
  /\ hasMaskContent (session (Editor.page s')) = true
  /\ isDrawing (session (Editor.page s')) = false
  /\ Editor.ctxPath s' = []
  /\ loadedImage (session (Editor.page s')) = Some img.
Proof.
  intros Himg Hbrush. cbv zeta.
  change (Editor.MouseDown e0 :: map Editor.MouseMove es ++ [Editor.MouseUp])
    with ([Editor.MouseDown e0] ++ map Editor.MouseMove es ++ [Editor.MouseUp]).
  rewrite !run_app.
  assert (Hdown : Editor.run B P [Editor.MouseDown e0] s
                  = Editor.set_hasMaskContent true
                      (Editor.fill P
                         (Editor.arc (Editor.getCanvasPos e0)
                            (div (of_Z (brushSize (session (Editor.page s)))) (of_Z 2))
                            (Editor.beginPath
                               (Editor.moveTo (Editor.getCanvasPos e0)
                                  (Editor.beginPath (Editor.set_isDrawing true s))))))).
  { unfold Editor.run. cbn [fold_left Editor.handle].
    rewrite (pointerDown_loaded P e0 s img Himg). cbv zeta.
    destruct (Z.ltb_spec (brushSize (session (Editor.page s))) 0) as [Hneg|_];
      [lia | reflexivity]. }
  rewrite Hdown.
  match goal with
  | |- context [Editor.run B P (map Editor.MouseMove es) ?q] =>
      destruct (moves_stroke B P es q) as (Hc & Hd & Hi & Hm & _); [reflexivity|];
      cbv zeta in Hc;
      set (s1 := Editor.run B P (map Editor.MouseMove es) q) in *
  end.
  specialize (Hm eq_refl).
  assert (Hup : Editor.run B P [Editor.MouseUp] s1
                = Editor.beginPath (Editor.set_isDrawing false s1)).
  { unfold Editor.run. cbn [fold_left Editor.handle]. unfold Editor.pointerUp.
    rewrite Hd. reflexivity. }
  rewrite Hup.
  cbn [Editor.beginPath Editor.with_path Editor.set_isDrawing Editor.with_session
       Editor.with_page Editor.page Editor.ctxPath session dom maskCanvas
       hasMaskContent isDrawing loadedImage].
  rewrite Hc, Hm, Hi. repeat split. cbn. exact Himg.
Qed.

Lemma stroke_paints_witness :
  maskCanvas (dom (Editor.page
    (Editor.run (Demo.browser 17) Demo2.painter
       (Editor.MouseDown (Demo2.pointer 0 1)
        :: map Editor.MouseMove [Demo2.pointer 1 1] ++ [Editor.MouseUp])
       (Demo2.editor false))))
  = fold_left (fun c seg => Editor.strokePath Demo2.painter c seg
                              (Editor.ctxLineWidth (Demo2.editor false)))
      (segments
         [Editor.Arc (Editor.getCanvasPos (Demo2.pointer 0 1))
            (div (of_Z (brushSize (session (Editor.page (Demo2.editor false))))) (of_Z 2))]
         (map Editor.getCanvasPos [Demo2.pointer 1 1]))
      (Editor.fillPath Demo2.painter
         (maskCanvas (dom (Editor.page (Demo2.editor false))))
         [Editor.Arc (Editor.getCanvasPos (Demo2.pointer 0 1))
            (div (of_Z (brushSize (session (Editor.page (Demo2.editor false))))) (of_Z 2))])
  /\ hasMaskContent (session (Editor.page
       (Editor.run (Demo.browser 17) Demo2.painter
          (Editor.MouseDown (Demo2.pointer 0 1)
           :: map Editor.MouseMove [Demo2.pointer 1 1] ++ [Editor.MouseUp])
          (Demo2.editor false)))) = true
  /\ isDrawing (session (Editor.page
       (Editor.run (Demo.browser 17) Demo2.painter
          (Editor.MouseDown (Demo2.pointer 0 1)
           :: map Editor.MouseMove [Demo2.pointer 1 1] ++ [Editor.MouseUp])
          (Demo2.editor false)))) = false
  /\ Editor.ctxPath
       (Editor.run (Demo.browser 17) Demo2.painter
          (Editor.MouseDown (Demo2.pointer 0 1)
           :: map Editor.MouseMove [Demo2.pointer 1 1] ++ [Editor.MouseUp])
          (Demo2.editor false)) = []
  /\ loadedImage (session (Editor.page
       (Editor.run (Demo.browser 17) Demo2.painter
          (Editor.MouseDown (Demo2.pointer 0 1)
           :: map Editor.MouseMove [Demo2.pointer 1 1] ++ [Editor.MouseUp])
          (Demo2.editor false)))) = Some (mkImage 4 2).
Proof.
  apply (stroke_paints (Demo.browser 17) Demo2.painter (Demo2.editor false)
           (mkImage 4 2) (Demo2.pointer 0 1) [Demo2.pointer 1 1]).
  - reflexivity.
  - vm_compute. discriminate.
Defined.

(** The pointer's listeners on an editor without image and outside a
    stroke. *)
Lemma pointer_event_idle (B : Browser) (P : Editor.Painter) (ev : Editor.Event)
    (s : Editor.State) :
  loadedImage (session (Editor.page s)) = None ->
  isDrawing (session (Editor.page s)) = false ->
  is_pointer_event ev = true ->
  Editor.handle B P ev s = s.
Proof.
  intros Himg Hd Hev.
  destruct ev; try discriminate Hev; cbn [Editor.handle];
    unfold Editor.pointerDown, Editor.pointerMove, Editor.pointerUp;
    rewrite ?Himg, ?Hd; reflexivity.
Qed.

(** X19.  Nothing can be painted before an image is loaded: in any state
    the editor can reach from its start in which no image is loaded,
    presses, moves and releases of mouse and touch leave the whole state
    (canvas, flags, path) as it is. *)
Theorem no_painting_without_image (B : Browser) (P : Editor.Painter) (d : Dom)
    (stored : list (string * string)) (before pointer : list Editor.Event) :
  let s := Editor.run B P before (Editor.initial d stored) in
  loadedImage (session (Editor.page s)) = None ->
  forallb is_pointer_event pointer = true ->
  Editor.run B P pointer s = s.
Proof.
  cbv zeta. intros Himg Hall.
  pose proof (run_invariant B P before _ (initial_invariant d stored)) as (_ & Hdraw & _).
  set (s := Editor.run B P before (Editor.initial d stored)) in *.
  assert (Hd : isDrawing (session (Editor.page s)) = false).
  { destruct (isDrawing (session (Editor.page s))); [|reflexivity].
    destruct (Hdraw eq_refl) as [img Hsome]. congruence. }
  clear Hdraw. clearbody s.
  induction pointer as [|ev evs IH]; [reflexivity|].
  cbn [forallb] in Hall. apply andb_true_iff in Hall as [Hev Hevs].
  unfold Editor.run in *. cbn [fold_left].
  rewrite (pointer_event_idle B P ev s Himg Hd Hev). exact (IH Hevs).
Qed.

Lemma no_painting_without_image_witness :
  Editor.run (Demo.browser 17) Demo2.painter
    [Editor.MouseDown (Demo2.pointer 0 1); Editor.MouseMove (Demo2.pointer 1 1);
     Editor.MouseUp]
    (Editor.run (Demo.browser 17) Demo2.painter [Editor.BrushInput 12; Editor.ClearClick]
       (Editor.initial (dom (Demo.page false)) []))
  = Editor.run (Demo.browser 17) Demo2.painter [Editor.BrushInput 12; Editor.ClearClick]
      (Editor.initial (dom (Demo.page false)) []).
Proof.
  apply (no_painting_without_image (Demo.browser 17) Demo2.painter
           (dom (Demo.page false)) []
           [Editor.BrushInput 12; Editor.ClearClick]
           [Editor.MouseDown (Demo2.pointer 0 1); Editor.MouseMove (Demo2.pointer 1 1);
            Editor.MouseUp]);
    reflexivity.
Defined.

(** ** The last image in [localStorage] *)

(** X20.  An image persisted by one session is restored by the next: when
    the [onload] of a persisting load has run and [localStorage] took its
    two writes, an editor started on the stored items starts, once
    connected, exactly one load, of the same source, without persisting
    again; and when that load completes the image is loaded under the file
    name of the first load (["image"] if that had none), with the stored
    items untouched. *)
Theorem persisted_image_is_restored (B : Browser) (P : Editor.Painter)
    (req : Editor.LoadRequest) (img : Image) (s : Editor.State) (d : Dom) :
  Editor.load_persist req = true ->
  Editor.storage_accepts P "maskEditor_imageSrc" (Editor.load_src req) = true ->
  Editor.storage_accepts P "maskEditor_fileName"
    (default "image"%string (Editor.load_fileName req)) = true ->
  Editor.load_src req <> EmptyString ->
  let stored := Editor.storage (Editor.imageLoaded B P req img s) in
  let s1 := Editor.connected (Editor.initial d stored) in
  let s2 := Editor.completeLoad B P 0 (Some img) s1 in
  Editor.pendingLoads s1
  = [Editor.mkLoadRequest (Editor.load_src req)
       (Some (default "image"%string (Editor.load_fileName req))) false]
  /\ loadedImage (session (Editor.page s2)) = Some img
  /\ originalFileName (session (Editor.page s2))
     = (if Server.truthy (Editor.load_fileName req)
        then default EmptyString (Editor.load_fileName req)
        else "image"%string)
  /\ Editor.storage s2 = stored
  /\ Editor.pendingLoads s2 = [].
Proof.
  intros Hpersist Hsrc Hname Hnonempty. cbv zeta.
  destruct (imageLoaded_page B P req img s)
    as (_ & _ & _ & _ & _ & _ & _ & _ & _ & _ & _ & _ & Hst).
  rewrite Hpersist in Hst.
  unfold Editor.persistImage, Editor.setItem in Hst. rewrite Hsrc, Hname in Hst.
  rewrite Hst. clear Hst.
  set (stored := (("maskEditor_fileName"%string,
                   default "image"%string (Editor.load_fileName req))
                  :: ("maskEditor_imageSrc"%string, Editor.load_src req)
                  :: Editor.storage s)).
  assert (Hconn : Editor.connected (Editor.initial d stored)
                  = Editor.loadImageFromSrc (Editor.load_src req)
                      (Some (default "image"%string (Editor.load_fileName req))) false
                      (Editor.initial d stored)).
  { unfold Editor.connected. cbv zeta.
    change (Editor.getItem "maskEditor_imageSrc"
              (Editor.storage (Editor.initial d stored)))
      with (Some (Editor.load_src req)).
    change (Editor.getItem "maskEditor_fileName"
              (Editor.storage (Editor.initial d stored)))
      with (Some (default "image"%string (Editor.load_fileName req))).
    cbn [Server.truthy default from_option id].
    assert (Ht : negb (String.eqb (Editor.load_src req) EmptyString) = true).
    { apply negb_true_iff, String.eqb_neq. exact Hnonempty. }
    rewrite Ht. reflexivity. }
  rewrite Hconn. split; [reflexivity|].
  set (req' := Editor.mkLoadRequest (Editor.load_src req)
                 (Some (default "image"%string (Editor.load_fileName req))) false).
  set (s1 := Editor.mkState (Editor.page (Editor.initial d stored)) [] 1 true false
               stored [] []).
  assert (Hdone : Editor.completeLoad B P 0 (Some img)
                    (Editor.loadImageFromSrc (Editor.load_src req)
                       (Some (default "image"%string (Editor.load_fileName req))) false
                       (Editor.initial d stored))
                  = Editor.imageLoaded B P req' img s1) by reflexivity.
  rewrite Hdone.
  destruct (imageLoaded_page B P req' img s1)
    as (Hs & _ & _ & _ & _ & Hloads & _ & _ & _ & _ & _ & _ & Hst).
  rewrite Hs, Hst, Hloads. cbn [loadedImage originalFileName].
  split; [reflexivity|]. split; [|split; reflexivity].
  unfold req'. cbn [Editor.load_fileName].
  destruct (Editor.load_fileName req) as [name|]; [|reflexivity].
  cbn [default from_option id Server.truthy].
  destruct (String.eqb name EmptyString); reflexivity.
Qed.

Lemma persisted_image_is_restored_witness :
  Editor.pendingLoads
    (Editor.connected
       (Editor.initial (dom (Demo.page false))
          (Editor.storage (Editor.imageLoaded (Demo.browser 17) Demo2.painter
                             Demo2.request (mkImage 4 2) Demo2.fresh))))
  = [Editor.mkLoadRequest (Editor.load_src Demo2.request)
       (Some (default "image"%string (Editor.load_fileName Demo2.request))) false]
  /\ loadedImage (session (Editor.page
       (Editor.completeLoad (Demo.browser 17) Demo2.painter 0 (Some (mkImage 4 2))
          (Editor.connected
             (Editor.initial (dom (Demo.page false))
                (Editor.storage (Editor.imageLoaded (Demo.browser 17) Demo2.painter
                                   Demo2.request (mkImage 4 2) Demo2.fresh)))))))
     = Some (mkImage 4 2)
  /\ originalFileName (session (Editor.page
       (Editor.completeLoad (Demo.browser 17) Demo2.painter 0 (Some (mkImage 4 2))
          (Editor.connected
             (Editor.initial (dom (Demo.page false))
                (Editor.storage (Editor.imageLoaded (Demo.browser 17) Demo2.painter
                                   Demo2.request (mkImage 4 2) Demo2.fresh)))))))
     = (if Server.truthy (Editor.load_fileName Demo2.request)
        then default EmptyString (Editor.load_fileName Demo2.request)
        else "image"%string)
  /\ Editor.storage
       (Editor.completeLoad (Demo.browser 17) Demo2.painter 0 (Some (mkImage 4 2))
          (Editor.connected
             (Editor.initial (dom (Demo.page false))
                (Editor.storage (Editor.imageLoaded (Demo.browser 17) Demo2.painter
                                   Demo2.request (mkImage 4 2) Demo2.fresh)))))
     = Editor.storage (Editor.imageLoaded (Demo.browser 17) Demo2.painter
                         Demo2.request (mkImage 4 2) Demo2.fresh)
  /\ Editor.pendingLoads
       (Editor.completeLoad (Demo.browser 17) Demo2.painter 0 (Some (mkImage 4 2))
          (Editor.connected
             (Editor.initial (dom (Demo.page false))
                (Editor.storage (Editor.imageLoaded (Demo.browser 17) Demo2.painter
                                   Demo2.request (mkImage 4 2) Demo2.fresh)))))
     = [].
Proof.
  apply (persisted_image_is_restored (Demo.browser 17) Demo2.painter Demo2.request
           (mkImage 4 2) Demo2.fresh (dom (Demo.page false)));
    first [reflexivity | discriminate].
Defined.

(** The editor after the [onload] of a load, its stored items apart. *)
Lemma imageLoaded_forget_storage (B : Browser) (P : Editor.Painter)
    (req : Editor.LoadRequest) (img : Image) (s : Editor.State) :
  let p := Editor.page s in
  forget_storage (Editor.imageLoaded B P req img s)
  = Editor.mkState
      (mkPage
         (mkSession (Some img)
            (if Server.truthy (Editor.load_fileName req)
             then default EmptyString (Editor.load_fileName req)
             else originalFileName (session p))
            (isDrawing (session p)) (brushSize (session p)) false
            (Editor.rect_of (displayTransform (wrapperW (dom p)) (wrapperH (dom p))
                               (naturalWidth img) (naturalHeight img))))
         (mkDom (wrapperW (dom p)) (wrapperH (dom p))
            (Editor.transparent (wrapperW (dom p)) (wrapperH (dom p)))
            ("Image loaded: " ++ decimal (Z.to_N (naturalWidth img)) ++ "x"
             ++ decimal (Z.to_N (naturalHeight img)))%string
            "status-bar" false (confirmText (dom p)))
         (serverCalls p) (console p))
      []
      (if 0 <? brushSize (session p) then brushSize (session p) else 1)
      false true [] (Editor.pendingLoads s) (Editor.pendingRemaps s).
Proof.
  cbv zeta. unfold Editor.imageLoaded, forget_storage. cbv zeta.
  destruct (Editor.load_persist req), (Server.truthy (Editor.load_fileName req));
    reflexivity.
Qed.

(** One listener on two editors that differ in their stored items only. *)
Lemma handle_forget_storage (B : Browser) (P P' : Editor.Painter) (ev : Editor.Event)
    (s1 s2 : Editor.State) :
  same_rasterizer P P' ->
  is_connected ev = false ->
  forget_storage s1 = forget_storage s2 ->
  forget_storage (Editor.handle B P ev s1) = forget_storage (Editor.handle B P' ev s2).
Proof.
  intros (Hfill & Hstroke & Hsnap) Hev Heq.
  destruct s1 as [p1 path1 lw1 cd1 dz1 st1 pl1 pr1].
  destruct s2 as [p2 path2 lw2 cd2 dz2 st2 pl2 pr2].
  unfold forget_storage in Heq. cbn in Heq.
  injection Heq as -> -> -> -> -> -> ->.
  destruct ev; try discriminate Hev; cbn [Editor.handle].
  - unfold Editor.pointerDown, Editor.drawDot. cbn [Editor.page]. cbv zeta.
    destruct (loadedImage (session p2)); [|reflexivity].
    cbn [Editor.beginPath Editor.moveTo Editor.set_isDrawing Editor.with_session
         Editor.with_path Editor.with_page Editor.page session brushSize].
    destruct (ltb _ _); [reflexivity|].
    unfold forget_storage. cbn -[div]. rewrite Hfill. reflexivity.
  - unfold Editor.pointerMove. cbn [Editor.page].
    destruct (isDrawing (session p2)); [|reflexivity].
    unfold forget_storage. cbn. rewrite Hstroke. reflexivity.
  - unfold Editor.pointerUp. cbn [Editor.page].
    destruct (isDrawing (session p2)); reflexivity.
  - unfold Editor.pointerDown, Editor.drawDot. cbn [Editor.page]. cbv zeta.
    destruct (loadedImage (session p2)); [|reflexivity].
    cbn [Editor.beginPath Editor.moveTo Editor.set_isDrawing Editor.with_session
         Editor.with_path Editor.with_page Editor.page session brushSize].
    destruct (ltb _ _); [reflexivity|].
    unfold forget_storage. cbn -[div]. rewrite Hfill. reflexivity.
  - unfold Editor.pointerMove. cbn [Editor.page].
    destruct (isDrawing (session p2)); [|reflexivity].
    unfold forget_storage. cbn. rewrite Hstroke. reflexivity.
  - unfold Editor.pointerUp. cbn [Editor.page].
    destruct (isDrawing (session p2)); reflexivity.
  - reflexivity.
  - reflexivity.
  - reflexivity.
  - unfold Editor.wrapperResized, Editor.resizeCanvases. cbv zeta.
    cbn [Editor.with_dom Editor.with_page Editor.page session].
    destruct (loadedImage (session p2)); [|reflexivity].
    destruct (Server.truthy _); reflexivity.
  - unfold Editor.snapshotLoaded. cbn [Editor.pendingRemaps].
    destruct pr2 as [|m rest]; [reflexivity|].
    unfold forget_storage. cbn. rewrite Hsnap. reflexivity.
  - unfold Editor.completeLoad. cbn [Editor.pendingLoads].
    destruct (pl2 !! k) as [req|]; [|reflexivity].
    destruct decoded as [img|]; [|reflexivity].
    rewrite !imageLoaded_forget_storage. reflexivity.
  - unfold Editor.toolInput. destruct (Server.truthy image); reflexivity.
  - unfold Editor.toolResult. destruct (Server.truthy message); reflexivity.
  - reflexivity.
Qed.

(** X21.  After start-up the stored items are written but never read:
    over any sequence of events without the connect continuation, two
    browsers that rasterize alike lead the editor to the same page, path,
    buttons and loads in flight, whatever their [localStorage] holds,
    accepts or refuses. *)
Theorem storage_never_read_back (B : Browser) (P P' : Editor.Painter)
    (events : list Editor.Event) (s s' : Editor.State) :
  same_rasterizer P P' ->
  forallb (fun ev => negb (is_connected ev)) events = true ->
  forget_storage s = forget_storage s' ->
  forget_storage (Editor.run B P events s) = forget_storage (Editor.run B P' events s').
Proof.
  intros Hsame. revert s s'.
  induction events as [|ev evs IH]; intros s s' Hall Heq; [exact Heq|].
  cbn [forallb] in Hall. apply andb_true_iff in Hall as [Hev Hevs].
  apply negb_true_iff in Hev.
  unfold Editor.run in *. cbn [fold_left].
  apply IH; [exact Hevs|].
  apply handle_forget_storage; assumption.
Qed.

Lemma storage_never_read_back_witness :
  forget_storage
    (Editor.run (Demo.browser 17) Demo2.painter
       [Editor.ToolInput (Some "data:image/png;base64,AAEC"%string);
        Editor.LoadCompleted 0 (Some (mkImage 4 2)); Editor.MouseDown (Demo2.pointer 0 1)]
       Demo2.fresh)
  = forget_storage
      (Editor.run (Demo.browser 17)
         (Editor.mkPainter (Editor.fillPath Demo2.painter) (Editor.strokePath Demo2.painter)
            (Editor.drawSnapshot Demo2.painter) (fun _ _ => false))
         [Editor.ToolInput (Some "data:image/png;base64,AAEC"%string);
          Editor.LoadCompleted 0 (Some (mkImage 4 2)); Editor.MouseDown (Demo2.pointer 0 1)]
         (Editor.initial (dom (Demo.page false)) [("maskEditor_imageSrc", "stale")]%string)).
Proof.
  apply (storage_never_read_back (Demo.browser 17) Demo2.painter
           (Editor.mkPainter (Editor.fillPath Demo2.painter) (Editor.strokePath Demo2.painter)
              (Editor.drawSnapshot Demo2.painter) (fun _ _ => false))
           [Editor.ToolInput (Some "data:image/png;base64,AAEC"%string);
            Editor.LoadCompleted 0 (Some (mkImage 4 2)); Editor.MouseDown (Demo2.pointer 0 1)]
           Demo2.fresh
           (Editor.initial (dom (Demo.page false)) [("maskEditor_imageSrc", "stale")]%string)).
  - repeat split; reflexivity.
  - reflexivity.
  - reflexivity.
Defined.

(** ** Opening the editor *)

(** X22.  The server and the page read the [image] argument of
    [open-mask-editor] alike.  The tool's result is never an error and its
    text is its [message]; when the host has delivered the tool's input
    and then its result, the status bar shows that message, and it is the
    message for an opened image exactly when the page has started the load
    of that image (under the file name [provided-image], to be persisted):
    both happen for a non-empty [image] and neither for an absent or empty
    one. *)
Theorem open_result_matches_editor (B : Browser) (P : Editor.Painter)
    (image : option string) (s : Editor.State) :
  let r := openMaskEditor image in
  let s' := Editor.run B P
              [Editor.ToolInput image;
               Editor.ToolResult (structured_field "message" (Server.structuredContent r))]
              s in
  Server.isError r = false
  /\ Server.content r = [statusText (dom (Editor.page s'))]
  /\ statusClass (dom (Editor.page s')) = "status-bar"%string
  /\ structured_field "status" (Server.structuredContent r) = Some "ready"%string
  /\ (if Server.truthy image
      then statusText (dom (Editor.page s'))
           = "Mask editor opened with image. Paint a selection and click Confirm."%string
           /\ Editor.pendingLoads s'
              = Editor.pendingLoads s
                ++ [Editor.mkLoadRequest (default EmptyString image)
                      (Some "provided-image"%string) true]
      else statusText (dom (Editor.page s'))
           = "Mask editor opened. Drop an image onto the canvas to begin."%string
           /\ Editor.pendingLoads s' = Editor.pendingLoads s).
Proof.
  cbv zeta. unfold openMaskEditor, Editor.run. cbv zeta.
  cbn [fold_left Editor.handle Server.structuredContent Server.content Server.isError].
  unfold Editor.toolInput.
  destruct (Server.truthy image); repeat split; reflexivity.
Qed.
